(** * TuneARate API: catalog client, entity resolution, reviews and ratings

    A shallow embedding of the NestJS services of the TuneARate API
    (MusicApiService, ArtistsService, AlbumsService, ReviewsService) and the
    properties their specification states about them.

    Asynchronous methods are functions from a world to a settled promise and
    the world after the call.  The two injected collaborators whose code is
    not part of the repository, the Prisma client and the HTTP client, are
    records of operations; [MemPrisma] is the in-memory reading of the schema
    of [prisma/migrations/20250925182742_init/migration.sql]. *)

From Stdlib Require Import ZArith List String Ascii Bool Lia QArith Qabs Lqa.
From Stdlib Require Import DecimalString DecimalZ DecimalPos.
From Stdlib Require Import Sorted Permutation.
Import ListNotations.
Local Open Scope string_scope.
Local Open Scope Z_scope.

Set Implicit Arguments.

(** ** JavaScript values, exceptions and promises *)

Module Js.

(** The exceptions the services throw or let through.  The first four are
    NestJS [HttpException]s; [Error] is any other error object, with the
    [code] property it may carry (Prisma's known request errors carry one). *)
Inductive Exception : Type :=
| NotFoundException (message : string)
| ConflictException (message : string)
| ForbiddenException (message : string)
| InternalServerErrorException (message : string)
| Error (message : string) (code : option string).

Definition PrismaClientKnownRequestError (code message : string) : Exception :=
  Error message (Some code).

(** [error.code] *)
Definition code (error : Exception) : option string :=
  match error with
  | Error _ c => c
  | _ => None
  end.

(** [error instanceof NotFoundException] *)
Definition instanceofNotFoundException (error : Exception) : bool :=
  match error with
  | NotFoundException _ => true
  | _ => false
  end.

(** [error instanceof HttpException] *)
Definition instanceofHttpException (error : Exception) : bool :=
  match error with
  | Error _ _ => false
  | _ => true
  end.

Inductive Settled (A : Type) : Type :=
| Fulfilled (value : A)
| Rejected (reason : Exception).
Arguments Rejected {A} reason.

(** An [async] method over the mutable world [W]. *)
Definition Async (W A : Type) : Type := W -> Settled A * W.

Definition ret {W A} (a : A) : Async W A := fun w => (Fulfilled a, w).

Definition throw {W A} (e : Exception) : Async W A := fun w => (Rejected e, w).

Definition bind {W A B} (m : Async W A) (k : A -> Async W B) : Async W B :=
  fun w =>
    match m w with
    | (Fulfilled a, w') => k a w'
    | (Rejected e, w') => (Rejected e, w')
    end.

(** [try { m } catch (error) { handler error }]: the effects of [m] up to the
    throw are kept. *)
Definition try_catch {W A} (m : Async W A) (handler : Exception -> Async W A)
  : Async W A :=
  fun w =>
    match m w with
    | (Fulfilled a, w') => (Fulfilled a, w')
    | (Rejected e, w') => handler e w'
    end.

(** Truthiness of an optional string: [undefined] and [''] are falsy. *)
Definition truthy (s : option string) : bool :=
  match s with
  | Some s => negb (s =? EmptyString)%string
  | None => false
  end.

Definition lowerChar (c : ascii) : ascii :=
  let n := nat_of_ascii c in
  if ((65 <=? n) && (n <=? 90))%nat then ascii_of_nat (n + 32) else c.

(** [String.prototype.toLowerCase] on the bytes of a string.  Only the ASCII
    capitals are mapped; no other character lowers to an ASCII letter that
    occurs in ["album"], ["ep"] or ["single"]. *)
Fixpoint toLowerCase (s : string) : string :=
  match s with
  | EmptyString => EmptyString
  | String c rest => String (lowerChar c) (toLowerCase rest)
  end.

Definition isAlnum (c : ascii) : bool :=
  let n := nat_of_ascii c in
  (((48 <=? n) && (n <=? 57)) || ((65 <=? n) && (n <=? 90))
   || ((97 <=? n) && (n <=? 122)))%nat.

Fixpoint allChars (p : ascii -> bool) (s : string) : bool :=
  match s with
  | EmptyString => true
  | String c rest => p c && allChars p rest
  end.

(** [Array.prototype.slice(0, end)] *)
Definition slice0 {A} (l : list A) (end_ : Z) : list A :=
  if end_ <? 0
  then firstn (Z.to_nat (Z.max (Z.of_nat (List.length l) + end_) 0)) l
  else firstn (Z.to_nat end_) l.

(** [Array.prototype.filter] with a callback that may also rewrite the element
    it keeps: [None] drops the element, [Some x'] keeps it as [x']. *)
Fixpoint filterRewrite {A} (f : A -> option A) (l : list A) : list A :=
  match l with
  | [] => []
  | x :: rest =>
      match f x with
      | Some x' => x' :: filterRewrite f rest
      | None => filterRewrite f rest
      end
  end.

(** [Number.isSafeInteger]: the integers every one of which is a double of
    its own.  A JavaScript number that holds an integer is a [Z] here; sums,
    differences and products of such numbers are the integer ones as long as
    the result is a safe integer, and the properties that compute with
    numbers or print them are stated for safe integers. *)
Definition isSafeInteger (z : Z) : Prop := - (2 ^ 53 - 1) <= z <= 2 ^ 53 - 1.

(** Template-literal rendering of a number that holds a safe integer: its
    decimal digits.  (A larger number is printed from the digits of the
    nearest double, in exponent form from 1e21 on.) *)
Definition showZ (z : Z) : string := NilZero.string_of_int (Z.to_int z).

End Js.

Import Js.

Declare Scope async_scope.
Delimit Scope async_scope with async.
Notation "x <- m ;; k" := (bind m (fun x => k))
  (at level 61, m at next level, right associativity) : async_scope.
Local Open Scope async_scope.

(** ** String helpers of the catalog client *)

Module JsString.

Definition bytes (l : list nat) : string :=
  fold_right (fun n s => String (ascii_of_nat n) s) EmptyString l.

(** The code points [String.prototype.trim] removes (WhiteSpace and
    LineTerminator), in UTF-8. *)
Definition whiteSpace : list string :=
  map bytes
    [ [9]; [10]; [11]; [12]; [13]; [32]; [194; 160]; [225; 154; 128];
      [226; 128; 128]; [226; 128; 129]; [226; 128; 130]; [226; 128; 131];
      [226; 128; 132]; [226; 128; 133]; [226; 128; 134]; [226; 128; 135];
      [226; 128; 136]; [226; 128; 137]; [226; 128; 138]; [226; 128; 168];
      [226; 128; 169]; [226; 128; 175]; [226; 129; 159]; [227; 128; 128];
      [239; 187; 191] ]%nat.

Fixpoint rev (s : string) : string :=
  match s with
  | EmptyString => EmptyString
  | String c rest => rev rest ++ String c EmptyString
  end.

Definition dropPrefixOf (candidates : list string) (s : string) : option string :=
  match find (fun p => prefix p s) candidates with
  | Some p => Some (substring (String.length p) (String.length s - String.length p) s)
  | None => None
  end.

Fixpoint stripStart (fuel : nat) (candidates : list string) (s : string) : string :=
  match fuel with
  | O => s
  | S fuel' =>
      match dropPrefixOf candidates s with
      | Some s' => stripStart fuel' candidates s'
      | None => s
      end
  end.

Definition trimStart (s : string) : string :=
  stripStart (String.length s) whiteSpace s.

Definition trimEnd (s : string) : string :=
  rev (stripStart (String.length s) (map rev whiteSpace) (rev s)).

(** [String.prototype.trim] *)
Definition trim (s : string) : string := trimEnd (trimStart s).

Definition hexDigit (n : nat) : ascii :=
  if (n <? 10)%nat then ascii_of_nat (48 + n) else ascii_of_nat (55 + n).

(** The characters [encodeURIComponent] leaves as they are. *)
Definition uriUnreserved (c : ascii) : bool :=
  isAlnum c
  || existsb (Ascii.eqb c)
       ["-"; "_"; "."; "!"; "~"; "*"; "'"; "("; ")"]%char.

(** [encodeURIComponent] on the UTF-8 bytes of a string. *)
Fixpoint encodeURIComponent (s : string) : string :=
  match s with
  | EmptyString => EmptyString
  | String c rest =>
      if uriUnreserved c
      then String c (encodeURIComponent rest)
      else
        let n := nat_of_ascii c in
        String "%" (String (hexDigit (n / 16)) (String (hexDigit (n mod 16))
          (encodeURIComponent rest)))
  end.

(** [/^[0-9A-Za-z]{22}$/.test(query)] *)
Definition isLikelySpotifyId (query : string) : bool :=
  (String.length query =? 22)%nat && allChars isAlnum query.

End JsString.

(** ** The catalog's JSON documents and the injected HTTP client *)

Record SpotifyImage : Type := { url : string }.

Record SpotifyArtistRef : Type := { ref_id : string; ref_name : string }.

Record SpotifyTrack : Type :=
  { track_name : string; duration_ms : Z; track_number : Z }.

(** An album object of the catalog.  A property the catalog may leave out is
    an [option]; [None] is JavaScript's [undefined]. *)
Record SpotifyAlbum : Type :=
  { id : option string;
    name : string;
    release_date : option string;
    images : option (list SpotifyImage);
    artists : list SpotifyArtistRef;
    album_type : option string;
    total_tracks : option Z;
    tracks : option (list SpotifyTrack) }.

Record SpotifyArtist : Type :=
  { sa_id : string;
    sa_name : string;
    sa_images : option (list SpotifyImage);
    sa_popularity : option Z;
    sa_genres : list string }.

Record TokenResponse : Type := { access_token : string; expires_in : Z }.

(** The outcome of an HTTP request: the response body, or an [AxiosError]
    with [error.response?.status]. *)
Inductive AxiosResult (A : Type) : Type :=
| AxiosResponse (data : A)
| AxiosError (status : option Z).
Arguments AxiosError {A} status.

Record SearchParams : Type := { q : string; limit : Z; offset : Z }.

(** [HttpService], [ConfigService] and the clock, over the state [R] of
    everything outside the process.  One field per endpoint the client
    requests, typed by the document the endpoint answers with. *)
Record Env (R : Type) : Type :=
  { date_now : R -> Z;
    config_get : string -> option string;
    post_token : string -> string -> R -> AxiosResult TokenResponse * R;
    get_search : string -> string -> SearchParams -> R
                 -> AxiosResult (list SpotifyAlbum) * R;
    get_album : string -> string -> R -> AxiosResult (option SpotifyAlbum) * R;
    get_artist : string -> string -> R -> AxiosResult SpotifyArtist * R;
    get_artist_albums : string -> string -> Z -> R
                        -> AxiosResult (list SpotifyAlbum) * R }.

(** The world of a request: the state [D] behind the Prisma client, the two
    private fields of the [MusicApiService] singleton, and the outside. *)
Record World (D R : Type) : Type :=
  mkWorld
    { store : D;
      accessToken : option string;
      tokenExpiry : option Z;
      remote : R }.

(** What the catalog client hands to its callers. *)
Record TrackRecord : Type :=
  { tr_name : string; tr_duration : Z; tr_trackNumber : Z }.

Record AlbumSearchRecord : Type :=
  { s_externalId : option string;
    s_title : string;
    s_releaseDate : option string;
    s_coverUrl : option string;
    s_artistName : option string;
    s_artistExternalId : option string;
    s_albumType : option string;
    s_totalTracks : option Z }.

Record AlbumDetailsRecord : Type :=
  { d_externalId : option string;
    d_title : string;
    d_releaseDate : option string;
    d_coverUrl : option string;
    d_artistName : option string;
    d_artistExternalId : option string;
    d_tracks : option (list TrackRecord) }.

(** [getAlbumDetails] returns either the record it builds from a lookup or,
    from its search fallback, one of [searchAlbums]'s records. *)
Inductive AlbumDetailsResult : Type :=
| FromLookup (details : AlbumDetailsRecord)
| FromSearch (found : AlbumSearchRecord).

Record ArtistDetailsRecord : Type :=
  { a_externalId : string;
    a_name : string;
    a_imageUrl : option string;
    a_popularity : option Z;
    a_genres : list string }.

Record ArtistAlbumRecord : Type :=
  { aa_externalId : option string;
    aa_title : string;
    aa_releaseDate : option string;
    aa_coverUrl : option string;
    aa_albumType : option string }.

(** ** MusicApiService (src/music-api/music-api.service.ts) *)

Module MusicApiService.

Definition baseUrl : string := "https://api.spotify.com/v1".

(** [images?.[0]?.url] *)
Definition firstImageUrl (images : option (list SpotifyImage)) : option string :=
  match images with
  | Some (i :: _) => Some (url i)
  | _ => None
  end.

(** [album.album_type = t] *)
Definition setAlbumType (album : SpotifyAlbum) (t : string) : SpotifyAlbum :=
  {| id := id album;
     name := name album;
     release_date := release_date album;
     images := images album;
     artists := artists album;
     album_type := Some t;
     total_tracks := total_tracks album;
     tracks := tracks album |}.

(** The callback of [response.data.albums.items.filter(...)]: [None] is
    [return false]; [Some album'] is [return true] with [album'] the element
    after the callback's assignment to [album.album_type], if any. *)
Definition keepAlbum (album : SpotifyAlbum) : option SpotifyAlbum :=
  let albumType :=
    match album_type album with
    | Some t => toLowerCase t
    | None => EmptyString
    end in
  if (albumType =? "album")%string then Some album
  else if (albumType =? "ep")%string then Some album
  else
    match album_type album with
    | Some t =>
        if (t =? "single")%string then
          match total_tracks album with
          | None => Some (setAlbumType album "ep")
          | Some n => if 2 <=? n then Some (setAlbumType album "ep") else None
          end
        else None
    | None => None
    end.

Definition filteredItems (items : list SpotifyAlbum) : list SpotifyAlbum :=
  filterRewrite keepAlbum items.

(** The callback of [limitedResults.map(...)]. *)
Definition formatAlbum (album : SpotifyAlbum) : AlbumSearchRecord :=
  let normalizedType := option_map toLowerCase (album_type album) in
  {| s_externalId := id album;
     s_title := name album;
     s_releaseDate := release_date album;
     s_coverUrl := firstImageUrl (images album);
     s_artistName := option_map ref_name (hd_error (artists album));
     s_artistExternalId := option_map ref_id (hd_error (artists album));
     s_albumType := normalizedType;
     s_totalTracks :=
       match total_tracks album with
       | Some n => if n =? 0 then None else Some n
       | None => None
       end |}.

(** From the catalog's answer to the value [searchAlbums] returns. *)
Definition formattedResults (items : list SpotifyAlbum) (limit : Z)
  : list AlbumSearchRecord :=
  map formatAlbum (slice0 (filteredItems items) limit).

Definition formatDetails (album : SpotifyAlbum) : AlbumDetailsRecord :=
  {| d_externalId := id album;
     d_title := name album;
     d_releaseDate := release_date album;
     d_coverUrl := firstImageUrl (images album);
     d_artistName := option_map ref_name (hd_error (artists album));
     d_artistExternalId := option_map ref_id (hd_error (artists album));
     d_tracks :=
       option_map
         (map (fun track =>
                 {| tr_name := track_name track;
                    tr_duration := duration_ms track;
                    tr_trackNumber := track_number track |}))
         (tracks album) |}.

Section Client.

Variables D R : Type.
Variable env : Env R.

(** A request through [firstValueFrom(this.httpService.get(...).pipe(
    catchError(handler)))]: an [AxiosError] becomes what [handler] throws. *)
Definition request {A} (call : R -> AxiosResult A * R)
    (handler : option Z -> Exception) : Async (World D R) A :=
  fun w =>
    match call (remote w) with
    | (AxiosResponse data, r') =>
        (Fulfilled data,
         mkWorld (store w) (accessToken w) (tokenExpiry w) r')
    | (AxiosError status, r') =>
        (Rejected (handler status),
         mkWorld (store w) (accessToken w) (tokenExpiry w) r')
    end.

Definition tokenStillValid (w : World D R) : bool :=
  truthy (accessToken w)
  && match tokenExpiry w with
     | Some expiry => date_now env (remote w) <? expiry
     | None => false
     end.

(** The part of [getAccessToken] after the validity test: read the
    credentials, request a token and cache it with its expiry. *)
Definition refreshAccessToken : Async (World D R) string :=
  fun w =>
    match config_get env "SPOTIFY_CLIENT_ID",
          config_get env "SPOTIFY_CLIENT_SECRET" with
    | Some clientId, Some clientSecret =>
        if negb (clientId =? EmptyString)%string
           && negb (clientSecret =? EmptyString)%string then
          match post_token env clientId clientSecret (remote w) with
          | (AxiosResponse data, r') =>
              (Fulfilled (access_token data),
               mkWorld (store w) (Some (access_token data))
                 (Some (date_now env r' + expires_in data * 1000)) r')
          | (AxiosError _, r') =>
              (Rejected (Error "Failed to get Spotify access token" None),
               mkWorld (store w) (accessToken w) (tokenExpiry w) r')
          end
        else (Rejected (Error "Spotify credentials are not configured" None), w)
    | _, _ => (Rejected (Error "Spotify credentials are not configured" None), w)
    end.

Definition getAccessToken : Async (World D R) string :=
  fun w =>
    match accessToken w with
    | Some token =>
        if tokenStillValid w then (Fulfilled token, w)
        else refreshAccessToken w
    | None => refreshAccessToken w
    end.

Definition searchAlbums (query : string) (limit : Z) (offset : Z)
  : Async (World D R) (list AlbumSearchRecord) :=
  token <- getAccessToken ;;
  let isLikelySpotifyId := JsString.isLikelySpotifyId query in
  let searchQuery := if isLikelySpotifyId then "id:" ++ query else query in
  let apiLimit := 50 in
  let apiOffset := Z.min offset 950 in
  items <- request
             (get_search env (baseUrl ++ "/search") token
                {| q := searchQuery; limit := apiLimit; offset := apiOffset |})
             (fun _ => Error "Failed to search albums" None) ;;
  ret (formattedResults items limit).

(** [searchResults.find((album) => album.externalId === externalId)] *)
Definition exactMatch (searchResults : list AlbumSearchRecord)
    (externalId : string) : option AlbumSearchRecord :=
  find (fun album =>
          match s_externalId album with
          | Some e => (e =? externalId)%string
          | None => false
          end)
       searchResults.

(** The inner [try] of the fallback: the lookup under the URL-encoded id.
    Its [catchError] throws the original error; a [null] body makes the
    property reads throw a [TypeError]. *)
Definition alternativeLookup (externalId : string) (error : Exception)
  : Async (World D R) AlbumDetailsResult :=
  let alternativeUrl :=
    baseUrl ++ "/albums/" ++ JsString.encodeURIComponent externalId in
  altToken <- getAccessToken ;;
  altAlbum <- request (get_album env alternativeUrl altToken) (fun _ => error) ;;
  match altAlbum with
  | Some altAlbum => ret (FromLookup (formatDetails altAlbum))
  | None => throw (Error "Cannot read properties of null" None)
  end.

(** The [catch] branch of [getAlbumDetails] for a [NotFoundException]. *)
Definition searchFallback (externalId : string) (error : Exception)
  : Async (World D R) AlbumDetailsResult :=
  try_catch
    (searchResults <- searchAlbums externalId 5 0 ;;
     match searchResults with
     | _ :: _ =>
         match exactMatch searchResults externalId with
         | Some found => ret (FromSearch found)
         | None =>
             try_catch (alternativeLookup externalId error)
               (fun altError => throw error)
         end
     | [] => throw error
     end)
    (fun searchError => throw error).

(** The [try] block of [getAlbumDetails]: the direct lookup. *)
Definition directLookup (externalId : string) : Async (World D R) AlbumDetailsResult :=
  let cleanExternalId := JsString.trim externalId in
  token <- getAccessToken ;;
  let url := baseUrl ++ "/albums/" ++ cleanExternalId in
  album <- request (get_album env url token)
             (fun status =>
                match status with
                | Some 404 =>
                    NotFoundException
                      ("Album with ID " ++ cleanExternalId ++ " not found in Spotify")
                | _ =>
                    InternalServerErrorException
                      "Failed to get album details from Spotify API"
                end) ;;
  match album with
  | Some album =>
      if truthy (id album) then ret (FromLookup (formatDetails album))
      else throw (InternalServerErrorException
                    "Invalid album data received from Spotify")
  | None => throw (InternalServerErrorException
                     "Invalid album data received from Spotify")
  end.

Definition getAlbumDetails (externalId : string) : Async (World D R) AlbumDetailsResult :=
  try_catch (directLookup externalId)
    (fun error =>
       if instanceofNotFoundException error then searchFallback externalId error
       else if instanceofHttpException error then throw error
       else throw (InternalServerErrorException
                     "An error occurred while fetching album details")).

Definition getArtistDetails (externalId : string) : Async (World D R) ArtistDetailsRecord :=
  token <- getAccessToken ;;
  artist <- request (get_artist env (baseUrl ++ "/artists/" ++ externalId) token)
              (fun _ => Error "Failed to get artist details" None) ;;
  ret {| a_externalId := sa_id artist;
         a_name := sa_name artist;
         a_imageUrl := firstImageUrl (sa_images artist);
         a_popularity := sa_popularity artist;
         a_genres := sa_genres artist |}.

Definition getArtistAlbums (artistExternalId : string) (limit : Z)
  : Async (World D R) (list ArtistAlbumRecord) :=
  token <- getAccessToken ;;
  items <- request
             (get_artist_albums env
                (baseUrl ++ "/artists/" ++ artistExternalId ++ "/albums") token limit)
             (fun _ => Error "Failed to get artist albums" None) ;;
  ret (map (fun album =>
              {| aa_externalId := id album;
                 aa_title := name album;
                 aa_releaseDate := release_date album;
                 aa_coverUrl := firstImageUrl (images album);
                 aa_albumType := album_type album |})
           items).

End Client.

End MusicApiService.

(** ** The relational data model (prisma/migrations/.../migration.sql) *)

Inductive DateTime : Type := Date (iso : string).

Record User : Type :=
  { user_id : Z;
    username : string;
    email : string;
    passwordHash : string;
    user_createdAt : Z }.

Record Artist : Type :=
  { artist_id : Z;
    artist_externalId : string;
    artist_name : string;
    artist_imageUrl : option string }.

Record Album : Type :=
  { album_id : Z;
    album_externalId : string;
    title : string;
    releaseDate : option DateTime;
    coverUrl : option string;
    artistId : Z }.

Record Review : Type :=
  { review_id : Z;
    userId : Z;
    albumId : Z;
    rating : Z;
    comment : option string;
    createdAt : Z }.

(** Request bodies. *)
Record CreateArtistDto : Type :=
  { ca_externalId : string; ca_name : string; ca_imageUrl : option string }.

Record CreateAlbumDto : Type :=
  { cb_externalId : string;
    cb_title : string;
    cb_releaseDate : option string;
    cb_coverUrl : option string;
    cb_artistExternalId : string }.

Record CreateReviewDto : Type :=
  { cr_albumId : Z; cr_rating : Z; cr_comment : option string }.

Record UpdateReviewDto : Type :=
  { up_rating : option Z; up_comment : option string }.

(** Rows with the relations an [include] adds.  A relation that was not asked
    for is [None]. *)
Record ArtistPayload : Type :=
  { artist : Artist; artist_albums : option (list Album) }.

Record AlbumPayload : Type :=
  { album : Album; album_artist : option Artist }.

Record UserSummary : Type := { us_id : Z; us_username : string }.

Record ReviewPayload : Type :=
  { review : Review;
    review_user : option UserSummary;
    review_album : option AlbumPayload }.

(** ** The Prisma client, as the services use it *)

Inductive ArtistWhereUnique : Type :=
| ArtistById (id : Z)
| ArtistByExternalId (externalId : string).

Inductive AlbumWhereUnique : Type :=
| AlbumById (id : Z)
| AlbumByExternalId (externalId : string).

Inductive ReviewWhereUnique : Type :=
| ReviewById (id : Z)
| ReviewByUserIdAlbumId (userId albumId : Z).

Record ReviewWhere : Type :=
  { where_albumId : option Z; where_userId : option Z }.

Record AlbumCreateInput : Type :=
  { ai_externalId : string;
    ai_title : string;
    ai_releaseDate : option DateTime;
    ai_coverUrl : option string;
    ai_connectArtistId : Z }.

Record ReviewCreateInput : Type :=
  { ri_userId : Z; ri_albumId : Z; ri_rating : Z; ri_comment : option string }.

(** One field per query shape that occurs in the services.
    - [artist_findUnique where include_albums]
    - [album_create]: [include: { artist: true }]
    - [review_findMany where skip take]: [orderBy: { createdAt: 'desc' }] and
      [include: { user: { select: { id, username } }, album: { include:
      { artist: true } } }]; [skip] and [take] are the natural numbers the
      request validation lets through
    - [review_create], [review_update]: the same [include]
    - [review_ratings albumId]: [findMany({ where: { albumId },
      select: { rating: true } })] *)
Record PrismaClient (D : Type) : Type :=
  { user_findUnique : Z -> Async D (option User);
    artist_findUnique : ArtistWhereUnique -> bool -> Async D (option ArtistPayload);
    artist_create : CreateArtistDto -> Async D Artist;
    album_findUnique : AlbumWhereUnique -> Async D (option Album);
    album_findMany : Z -> Async D (list Album);
    album_create : AlbumCreateInput -> Async D AlbumPayload;
    review_findUnique : ReviewWhereUnique -> Async D (option Review);
    review_findMany : ReviewWhere -> nat -> nat -> Async D (list ReviewPayload);
    review_count : ReviewWhere -> Async D nat;
    review_ratings : Z -> Async D (list Z);
    review_create : ReviewCreateInput -> Async D ReviewPayload;
    review_update : Z -> UpdateReviewDto -> Async D ReviewPayload;
    review_delete : Z -> Async D Review }.

(** A Prisma call made from a service that lives in the larger world. *)
Definition withStore {D R} (w : World D R) (d' : D) : World D R :=
  mkWorld d' (accessToken w) (tokenExpiry w) (remote w).

Definition liftStore {D R A} (m : Async D A) : Async (World D R) A :=
  fun w =>
    let '(result, d') := m (store w) in
    (result, withStore w d').

(** ** The store in memory *)

Module MemPrisma.

(** Modelled from the spec: the relational store behind the Prisma client
    (the Prisma engine and src/prisma/prisma.service.ts are not among the
    sources).  The tables, their unique indexes and their foreign keys are
    those of section 3 of the specification and of the migration: the four
    tables in insertion order, the value each SERIAL sequence handed out
    last, and CURRENT_TIMESTAMP. *)
Record Db : Type :=
  mkDb
    { db_users : list User;
      db_artists : list Artist;
      db_albums : list Album;
      db_reviews : list Review;
      artist_seq : Z;
      album_seq : Z;
      review_seq : Z;
      db_now : Z }.

Definition matchesArtist (where_ : ArtistWhereUnique) (a : Artist) : bool :=
  match where_ with
  | ArtistById i => artist_id a =? i
  | ArtistByExternalId e => (artist_externalId a =? e)%string
  end.

Definition matchesAlbum (where_ : AlbumWhereUnique) (a : Album) : bool :=
  match where_ with
  | AlbumById i => album_id a =? i
  | AlbumByExternalId e => (album_externalId a =? e)%string
  end.

Definition matchesReview (where_ : ReviewWhereUnique) (r : Review) : bool :=
  match where_ with
  | ReviewById i => review_id r =? i
  | ReviewByUserIdAlbumId u a => (userId r =? u) && (albumId r =? a)
  end.

Definition satisfies (where_ : ReviewWhere) (r : Review) : bool :=
  match where_albumId where_ with
  | Some a => albumId r =? a
  | None => true
  end
  && match where_userId where_ with
     | Some u => userId r =? u
     | None => true
     end.

Definition findUser (db : Db) (i : Z) : option User :=
  find (fun u => user_id u =? i) (db_users db).

Definition findArtist (db : Db) (where_ : ArtistWhereUnique) : option Artist :=
  find (matchesArtist where_) (db_artists db).

Definition findAlbum (db : Db) (where_ : AlbumWhereUnique) : option Album :=
  find (matchesAlbum where_) (db_albums db).

Definition findReview (db : Db) (where_ : ReviewWhereUnique) : option Review :=
  find (matchesReview where_) (db_reviews db).

Definition albumsOf (db : Db) (artistId_ : Z) : list Album :=
  filter (fun a => artistId a =? artistId_) (db_albums db).

Definition withArtist (db : Db) (a : Album) : AlbumPayload :=
  {| album := a; album_artist := findArtist db (ArtistById (artistId a)) |}.

Definition withRelations (db : Db) (r : Review) : ReviewPayload :=
  {| review := r;
     review_user :=
       option_map (fun u => {| us_id := user_id u; us_username := username u |})
         (findUser db (userId r));
     review_album := option_map (withArtist db) (findAlbum db (AlbumById (albumId r))) |}.

(** [ORDER BY "createdAt" DESC], by stable insertion. *)
Fixpoint insertDesc (r : Review) (sorted : list Review) : list Review :=
  match sorted with
  | [] => [r]
  | x :: rest =>
      if createdAt x <=? createdAt r then r :: x :: rest
      else x :: insertDesc r rest
  end.

Definition orderByCreatedAtDesc (rows : list Review) : list Review :=
  fold_right insertDesc [] rows.

Definition uniqueViolation (target : string) : Exception :=
  PrismaClientKnownRequestError "P2002"
    ("Unique constraint failed on the fields: (" ++ target ++ ")").

Definition foreignKeyViolation (field : string) : Exception :=
  PrismaClientKnownRequestError "P2003"
    ("Foreign key constraint failed on the field: " ++ field).

Definition recordNotFound : Exception :=
  PrismaClientKnownRequestError "P2025" "Record to update not found.".

Definition user_findUnique (i : Z) : Async Db (option User) :=
  fun db => (Fulfilled (findUser db i), db).

Definition artist_findUnique (where_ : ArtistWhereUnique) (includeAlbums : bool)
  : Async Db (option ArtistPayload) :=
  fun db =>
    (Fulfilled
       (option_map
          (fun a =>
             {| artist := a;
                artist_albums :=
                  if includeAlbums then Some (albumsOf db (artist_id a)) else None |})
          (findArtist db where_)),
     db).

(** The row an insert into "Artist" adds: the next value of the sequence and
    the given columns. *)
Definition insertedArtist (db : Db) (data : CreateArtistDto) : Artist :=
  {| artist_id := artist_seq db + 1;
     artist_externalId := ca_externalId data;
     artist_name := ca_name data;
     artist_imageUrl := ca_imageUrl data |}.

(** INSERT INTO "Artist": the unique index on "externalId" refuses a second
    row with the same external id. *)
Definition artist_create (data : CreateArtistDto) : Async Db Artist :=
  fun db =>
    match findArtist db (ArtistByExternalId (ca_externalId data)) with
    | Some _ => (Rejected (uniqueViolation "`externalId`"), db)
    | None =>
        let row := insertedArtist db data in
        (Fulfilled row,
         mkDb (db_users db) (db_artists db ++ [row]) (db_albums db) (db_reviews db)
           (artist_seq db + 1) (album_seq db) (review_seq db) (db_now db))
    end.

Definition album_findUnique (where_ : AlbumWhereUnique) : Async Db (option Album) :=
  fun db => (Fulfilled (findAlbum db where_), db).

Definition album_findMany (artistId_ : Z) : Async Db (list Album) :=
  fun db => (Fulfilled (albumsOf db artistId_), db).

Definition album_create (data : AlbumCreateInput) : Async Db AlbumPayload :=
  fun db =>
    match findAlbum db (AlbumByExternalId (ai_externalId data)) with
    | Some _ => (Rejected (uniqueViolation "`externalId`"), db)
    | None =>
        match findArtist db (ArtistById (ai_connectArtistId data)) with
        | None => (Rejected recordNotFound, db)
        | Some _ =>
            let row :=
              {| album_id := album_seq db + 1;
                 album_externalId := ai_externalId data;
                 title := ai_title data;
                 releaseDate := ai_releaseDate data;
                 coverUrl := ai_coverUrl data;
                 artistId := ai_connectArtistId data |} in
            (Fulfilled (withArtist db row),
             mkDb (db_users db) (db_artists db) (db_albums db ++ [row]) (db_reviews db)
               (artist_seq db) (album_seq db + 1) (review_seq db) (db_now db))
        end
    end.

Definition review_findUnique (where_ : ReviewWhereUnique) : Async Db (option Review) :=
  fun db => (Fulfilled (findReview db where_), db).

Definition selectReviews (db : Db) (where_ : ReviewWhere) : list Review :=
  filter (satisfies where_) (db_reviews db).

Definition review_findMany (where_ : ReviewWhere) (skip take : nat)
  : Async Db (list ReviewPayload) :=
  fun db =>
    (Fulfilled
       (map (withRelations db)
          (firstn take (skipn skip (orderByCreatedAtDesc (selectReviews db where_))))),
     db).

Definition review_count (where_ : ReviewWhere) : Async Db nat :=
  fun db => (Fulfilled (List.length (selectReviews db where_)), db).

Definition review_ratings (albumId_ : Z) : Async Db (list Z) :=
  fun db =>
    (Fulfilled
       (map rating
          (selectReviews db {| where_albumId := Some albumId_; where_userId := None |})),
     db).

(** INSERT INTO "Review": the unique index on ("userId", "albumId") and the
    two foreign keys are checked. *)
Definition review_create (data : ReviewCreateInput) : Async Db ReviewPayload :=
  fun db =>
    match findReview db (ReviewByUserIdAlbumId (ri_userId data) (ri_albumId data)) with
    | Some _ => (Rejected (uniqueViolation "`userId`,`albumId`"), db)
    | None =>
        match findUser db (ri_userId data), findAlbum db (AlbumById (ri_albumId data)) with
        | None, _ => (Rejected (foreignKeyViolation "Review_userId_fkey"), db)
        | _, None => (Rejected (foreignKeyViolation "Review_albumId_fkey"), db)
        | Some _, Some _ =>
            let row :=
              {| review_id := review_seq db + 1;
                 userId := ri_userId data;
                 albumId := ri_albumId data;
                 rating := ri_rating data;
                 comment := ri_comment data;
                 createdAt := db_now db |} in
            (Fulfilled (withRelations db row),
             mkDb (db_users db) (db_artists db) (db_albums db) (db_reviews db ++ [row])
               (artist_seq db) (album_seq db) (review_seq db + 1) (db_now db))
        end
    end.

(** The row after [data] is applied: a property the patch leaves undefined
    keeps its value. *)
Definition applyPatch (data : UpdateReviewDto) (r : Review) : Review :=
  {| review_id := review_id r;
     userId := userId r;
     albumId := albumId r;
     rating := match up_rating data with Some x => x | None => rating r end;
     comment := match up_comment data with Some c => Some c | None => comment r end;
     createdAt := createdAt r |}.

Definition review_update (i : Z) (data : UpdateReviewDto) : Async Db ReviewPayload :=
  fun db =>
    match findReview db (ReviewById i) with
    | None => (Rejected recordNotFound, db)
    | Some r =>
        (Fulfilled (withRelations db (applyPatch data r)),
         mkDb (db_users db) (db_artists db) (db_albums db)
           (map (fun x => if review_id x =? i then applyPatch data x else x)
              (db_reviews db))
           (artist_seq db) (album_seq db) (review_seq db) (db_now db))
    end.

Definition review_delete (i : Z) : Async Db Review :=
  fun db =>
    match findReview db (ReviewById i) with
    | None => (Rejected recordNotFound, db)
    | Some r =>
        (Fulfilled r,
         mkDb (db_users db) (db_artists db) (db_albums db)
           (filter (fun x => negb (review_id x =? i)) (db_reviews db))
           (artist_seq db) (album_seq db) (review_seq db) (db_now db))
    end.

(** What the rows of a store say. *)
Definition hasUser (db : Db) (i : Z) : Prop :=
  exists u, In u (db_users db) /\ user_id u = i.

Definition hasAlbum (db : Db) (i : Z) : Prop :=
  exists a, In a (db_albums db) /\ album_id a = i.

Definition hasReview (db : Db) (i : Z) : Prop :=
  exists r, In r (db_reviews db) /\ review_id r = i.

Definition hasReviewOf (db : Db) (user_ album_ : Z) : Prop :=
  exists r, In r (db_reviews db) /\ userId r = user_ /\ albumId r = album_.

(** Newest first. *)
Definition descending (rows : list Review) : Prop :=
  StronglySorted (fun earlier later => createdAt later <= createdAt earlier) rows.

Definition client : PrismaClient Db :=
  Build_PrismaClient user_findUnique artist_findUnique artist_create
    album_findUnique album_findMany album_create review_findUnique
    review_findMany review_count review_ratings review_create review_update
    review_delete.

End MemPrisma.

(** ** ArtistsService (src/artists/artists.service.ts) *)

(** [getArtistAlbums] answers with rows of the store or with records of the
    catalog. *)
Inductive ArtistAlbums : Type :=
| StoredAlbums (albumsInDb : list Album)
| CatalogAlbums (externalAlbums : list ArtistAlbumRecord).

(** [if (error.code === 'P2002') throw new ConflictException(message);
     throw error;] *)
Definition rethrowDuplicate {W A} (message : string) (error : Exception)
  : Async W A :=
  match code error with
  | Some c =>
      if (c =? "P2002")%string then throw (ConflictException message)
      else throw error
  | None => throw error
  end.

(** What a caller of the creations sees of an error [error] raised inside
    them, the world then being [w]: the [ConflictException] with [message]
    for a unique-constraint violation (code P2002), [error] itself
    otherwise. *)
Definition raisesTranslated {A W} (message : string) (error : Exception)
    (outcome : Settled A * W) (w : W) : Prop :=
  (code error = Some "P2002" ->
   outcome = (Rejected (ConflictException message), w))
  /\ (code error <> Some "P2002" -> outcome = (Rejected error, w)).

Module ArtistsService.

Section Service.

Variables D R : Type.
Variable prisma : PrismaClient D.
Variable env : Env R.

Definition create (createArtistDto : CreateArtistDto)
  : Async (World D R) ArtistPayload :=
  try_catch
    (existingArtist <-
       liftStore
         (artist_findUnique prisma
            (ArtistByExternalId (ca_externalId createArtistDto)) false) ;;
     match existingArtist with
     | Some existingArtist => ret existingArtist
     | None =>
         created <- liftStore (artist_create prisma createArtistDto) ;;
         ret {| artist := created; artist_albums := None |}
     end)
    (rethrowDuplicate "Artist with this external ID already exists").

Definition getArtistDetailsByExternalId (externalId : string)
  : Async (World D R) ArtistPayload :=
  existingArtist <-
    liftStore (artist_findUnique prisma (ArtistByExternalId externalId) true) ;;
  match existingArtist with
  | Some existingArtist => ret existingArtist
  | None =>
      artistDetails <- MusicApiService.getArtistDetails env externalId ;;
      create {| ca_externalId := a_externalId artistDetails;
                ca_name := a_name artistDetails;
                ca_imageUrl := a_imageUrl artistDetails |}
  end.

Definition getArtistAlbums (artistId_ : Z) : Async (World D R) ArtistAlbums :=
  found <- liftStore (artist_findUnique prisma (ArtistById artistId_) false) ;;
  match found with
  | None =>
      throw (NotFoundException ("Artist with ID " ++ showZ artistId_ ++ " not found"))
  | Some found =>
      albumsInDb <- liftStore (album_findMany prisma artistId_) ;;
      match albumsInDb with
      | _ :: _ => ret (StoredAlbums albumsInDb)
      | [] =>
          externalAlbums <-
            MusicApiService.getArtistAlbums env
              (artist_externalId (artist found)) 50 ;;
          ret (CatalogAlbums externalAlbums)
      end
  end.

End Service.

End ArtistsService.

(** ** AlbumsService (src/albums/albums.service.ts) *)

(** A JavaScript number by its value: the rational a finite double holds
    (the sign of zero is not represented), NaN, or an infinity. *)
Inductive JsNumber : Type :=
| Finite (q : Q)
| NaN
| PosInfinity
| NegInfinity.

(** IEEE 754 binary64.  A finite double is [N / 2^1074] for an integer [N]
    that has at most 53 significant bits and lies below [2^2098] in absolute
    value: 1074 is the exponent of the least subnormal, and [2^2098 / 2^1074]
    is the overflow threshold [2^1024]. *)
Module Binary64.

Definition scale : Z := 2 ^ 1074.

Definition overflow : Z := 2 ^ 2098.

Definition isMantissa (N : Z) : Prop :=
  exists m j, 0 <= j /\ Z.abs m < 2 ^ 53 /\ N = m * 2 ^ j.

Definition isDouble (q : Q) : Prop :=
  exists N, isMantissa N /\ Z.abs N < overflow /\ (q == N # Z.to_pos scale)%Q.

(** The integer nearest to [num / den], the even one of two equally near. *)
Definition roundHalfEven (num den : Z) : Z :=
  let f := num / den in
  match 2 * (num mod den) ?= den with
  | Lt => f
  | Gt => f + 1
  | Eq => if Z.even f then f else f + 1
  end.

(** [A / B] rounded to an integer of at most 53 significant bits: above
    [2^53] the last [j] bits are rounded away. *)
Definition roundScaled (A B : Z) : Z :=
  let j := Z.max (Z.log2 (A / B) - 52) 0 in
  roundHalfEven A (B * 2 ^ j) * 2 ^ j.

(** The quotient of the integers [a] and [b <> 0], rounded to nearest, ties
    to even, with overflow to an infinity. *)
Definition quotient (a b : Z) : JsNumber :=
  let N := roundScaled (Z.abs a * scale) (Z.abs b) in
  if overflow <=? N then
    if 0 <? Z.sgn a * Z.sgn b then PosInfinity else NegInfinity
  else Finite (Qred ((Z.sgn a * Z.sgn b * N) # Z.to_pos scale)).

End Binary64.

(** [a / b] for numbers that hold the integers [a] and [b]. *)
Definition divide (a b : Z) : JsNumber :=
  if b =? 0 then
    if a =? 0 then NaN else if 0 <? a then PosInfinity else NegInfinity
  else Binary64.quotient a b.

Record AlbumRating : Type :=
  { averageRating : JsNumber; reviewCount : nat }.

(** The sum of [ratings] is computed exactly by
    [reduce((sum, rating) => sum + rating, 0)]: every rating and every
    running sum is a safe integer. *)
Definition exactSum (ratings : list Z) : Prop :=
  Forall isSafeInteger ratings
  /\ forall k, isSafeInteger (fold_right Z.add 0 (firstn k ratings)).

Module AlbumsService.

Section Service.

Variables D R : Type.
Variable prisma : PrismaClient D.
Variable env : Env R.

(** [createAlbumDto.releaseDate ? new Date(createAlbumDto.releaseDate) : null] *)
Definition toReleaseDate (releaseDate_ : option string) : option DateTime :=
  match releaseDate_ with
  | Some s => if (s =? EmptyString)%string then None else Some (Date s)
  | None => None
  end.

(** "Trouver l'artiste ou le creer s'il n'existe pas": the value of
    [artist] when [create] reaches the insert of the album. *)
Definition findOrCreateArtist (createAlbumDto : CreateAlbumDto)
  : Async (World D R) ArtistPayload :=
  found <-
    liftStore
      (artist_findUnique prisma
         (ArtistByExternalId (cb_artistExternalId createAlbumDto)) false) ;;
  match found with
  | Some found => ret found
  | None =>
      artistDetails <-
        MusicApiService.getArtistDetails env
          (cb_artistExternalId createAlbumDto) ;;
      ArtistsService.create prisma
        {| ca_externalId := a_externalId artistDetails;
           ca_name := a_name artistDetails;
           ca_imageUrl := a_imageUrl artistDetails |}
  end.

(** The row [create] inserts for [createAlbumDto] under the artist [owner]. *)
Definition albumInput (createAlbumDto : CreateAlbumDto) (owner : ArtistPayload)
  : AlbumCreateInput :=
  {| ai_externalId := cb_externalId createAlbumDto;
     ai_title := cb_title createAlbumDto;
     ai_releaseDate := toReleaseDate (cb_releaseDate createAlbumDto);
     ai_coverUrl := cb_coverUrl createAlbumDto;
     ai_connectArtistId := artist_id (artist owner) |}.

Definition create (createAlbumDto : CreateAlbumDto)
  : Async (World D R) AlbumPayload :=
  try_catch
    (existingAlbum <-
       liftStore
         (album_findUnique prisma
            (AlbumByExternalId (cb_externalId createAlbumDto))) ;;
     match existingAlbum with
     | Some existingAlbum =>
         ret {| album := existingAlbum; album_artist := None |}
     | None =>
         owner <- findOrCreateArtist createAlbumDto ;;
         liftStore (album_create prisma (albumInput createAlbumDto owner))
     end)
    (rethrowDuplicate "Album with this external ID already exists").

Definition getAlbumRating (id_ : Z) : Async (World D R) AlbumRating :=
  reviews <- liftStore (review_ratings prisma id_) ;;
  if (List.length reviews =? 0)%nat then
    ret {| averageRating := Finite 0; reviewCount := 0 |}
  else
    let totalRating := fold_left (fun sum rating_ => sum + rating_) reviews 0 in
    let averageRating_ := divide totalRating (Z.of_nat (List.length reviews)) in
    ret {| averageRating := averageRating_; reviewCount := List.length reviews |}.

End Service.

End AlbumsService.

(** ** ReviewsService (reviews.service.ts) *)

Record Meta : Type :=
  { total : nat; skip : nat; take : nat; hasMore : bool }.

Record ReviewPage : Type :=
  { reviews : list ReviewPayload; meta : Meta }.

Module ReviewsService.

Section Service.

Variable D : Type.
Variable prisma : PrismaClient D.

Definition create (userId_ : Z) (createReviewDto : CreateReviewDto)
  : Async D ReviewPayload :=
  found <- album_findUnique prisma (AlbumById (cr_albumId createReviewDto)) ;;
  match found with
  | None =>
      throw (NotFoundException
               ("Album with ID " ++ showZ (cr_albumId createReviewDto) ++ " not found"))
  | Some _ =>
      existingReview <-
        review_findUnique prisma
          (ReviewByUserIdAlbumId userId_ (cr_albumId createReviewDto)) ;;
      match existingReview with
      | Some _ => throw (ConflictException "You have already reviewed this album")
      | None =>
          review_create prisma
            {| ri_userId := userId_;
               ri_albumId := cr_albumId createReviewDto;
               ri_rating := cr_rating createReviewDto;
               ri_comment := cr_comment createReviewDto |}
      end
  end.

(** The two queries of [Promise.all], then the page. *)
Definition page (where_ : ReviewWhere) (skip_ take_ : nat) : Async D ReviewPage :=
  reviews_ <- review_findMany prisma where_ skip_ take_ ;;
  total_ <- review_count prisma where_ ;;
  ret {| reviews := reviews_;
         meta := {| total := total_;
                    skip := skip_;
                    take := take_;
                    hasMore := (skip_ + take_ <? total_)%nat |} |}.

Definition findAll (skip_ take_ : nat) : Async D ReviewPage :=
  page {| where_albumId := None; where_userId := None |} skip_ take_.

Definition findByAlbumId (albumId_ : Z) (skip_ take_ : nat) : Async D ReviewPage :=
  found <- album_findUnique prisma (AlbumById albumId_) ;;
  match found with
  | None =>
      throw (NotFoundException ("Album with ID " ++ showZ albumId_ ++ " not found"))
  | Some _ =>
      page {| where_albumId := Some albumId_; where_userId := None |} skip_ take_
  end.

Definition findByUserId (userId_ : Z) (skip_ take_ : nat) : Async D ReviewPage :=
  found <- user_findUnique prisma userId_ ;;
  match found with
  | None =>
      throw (NotFoundException ("User with ID " ++ showZ userId_ ++ " not found"))
  | Some _ =>
      page {| where_albumId := None; where_userId := Some userId_ |} skip_ take_
  end.

Definition update (id_ : Z) (userId_ : Z) (updateReviewDto : UpdateReviewDto)
  : Async D ReviewPayload :=
  found <- review_findUnique prisma (ReviewById id_) ;;
  match found with
  | None =>
      throw (NotFoundException ("Review with ID " ++ showZ id_ ++ " not found"))
  | Some found =>
      if negb (userId found =? userId_) then
        throw (ForbiddenException "You can only update your own reviews")
      else review_update prisma id_ updateReviewDto
  end.

Definition remove (id_ : Z) (userId_ : Z) : Async D Review :=
  found <- review_findUnique prisma (ReviewById id_) ;;
  match found with
  | None =>
      throw (NotFoundException ("Review with ID " ++ showZ id_ ++ " not found"))
  | Some found =>
      if negb (userId found =? userId_) then
        throw (ForbiddenException "You can only delete your own reviews")
      else review_delete prisma id_
  end.

End Service.

End ReviewsService.

(** ** The fallback chain as the specification words it

    "On a not-found response, falls back to a search-based exact-externalId
    match, then to a URL-encoded retry, before surfacing the original
    not-found error": both steps are attempted in order, the first that
    succeeds gives the record, and the original error is raised when both
    fail. *)

Module FallbackAsSpecified.

Section Chain.

Variables D R : Type.
Variable env : Env R.

Definition retryStep (externalId : string) (error : Exception)
  : Async (World D R) AlbumDetailsResult :=
  try_catch (MusicApiService.alternativeLookup env externalId error)
    (fun _ => throw error).

Definition fallbackChain (externalId : string) (error : Exception)
  : Async (World D R) AlbumDetailsResult :=
  fun w =>
    match MusicApiService.searchAlbums env externalId 5 0 w with
    | (Fulfilled searchResults, w1) =>
        match MusicApiService.exactMatch searchResults externalId with
        | Some found => (Fulfilled (FromSearch found), w1)
        | None => retryStep externalId error w1
        end
    | (Rejected _, w1) => retryStep externalId error w1
    end.

End Chain.

(** The statement of the specification: after a direct lookup that ends in
    the not-found error, what [getAlbumDetails] returns or raises is what the
    chain gives. *)
Definition holds : Prop :=
  forall (D R : Type) (env : Env R) (externalId : string) (w w1 : World D R)
         (error : Exception),
    MusicApiService.directLookup env externalId w = (Rejected error, w1) ->
    instanceofNotFoundException error = true ->
    fst (MusicApiService.getAlbumDetails env externalId w)
    = fst (fallbackChain env externalId error w1).

End FallbackAsSpecified.

(** ** The rating as the specification words it

    "averageRating: arithmetic mean (no rounding specified)": for an album
    with reviews, [averageRating] times the number of reviews is the sum of
    the ratings. *)

Module ExactMeanAsSpecified.

Definition holds : Prop :=
  forall (R : Type) (id_ : Z) (w : World MemPrisma.Db R),
    let rows := filter (fun r => albumId r =? id_) (MemPrisma.db_reviews (store w)) in
    rows <> [] ->
    exists mean,
      AlbumsService.getAlbumRating MemPrisma.client id_ w
      = (Fulfilled {| averageRating := Finite mean;
                      reviewCount := List.length rows |}, w)
      /\ (mean * inject_Z (Z.of_nat (List.length rows))
          == inject_Z (fold_right Z.add 0%Z (map rating rows)))%Q.

End ExactMeanAsSpecified.

(** ** The idempotence of the artist resolution as the specification words it

    "[resolveArtist(externalId)] called twice yields the same local id both
    times (no duplicate rows)": two successive calls that return, return rows
    with the same local id, and at most one row is created. *)

Module IdempotenceAsSpecified.

Definition holds : Prop :=
  forall (R : Type) (env : Env R) (externalId : string)
         (w w1 w2 : World MemPrisma.Db R) (first second : ArtistPayload),
    ArtistsService.getArtistDetailsByExternalId MemPrisma.client env externalId w
    = (Fulfilled first, w1) ->
    ArtistsService.getArtistDetailsByExternalId MemPrisma.client env externalId w1
    = (Fulfilled second, w2) ->
    artist_id (artist second) = artist_id (artist first)
    /\ (List.length (MemPrisma.db_artists (store w2))
        <= S (List.length (MemPrisma.db_artists (store w))))%nat.

End IdempotenceAsSpecified.

(** ** The catalog's naming of an artist

    Every artist document the catalog answers a lookup of [externalId] with
    carries the id [canonical]: the catalog does not rename the artist
    between two lookups.  It echoes the requested id when [canonical] is
    [externalId]. *)
Definition answersWithId {R} (env : Env R) (externalId canonical : string) : Prop :=
  forall (token : string) (r r' : R) (a : SpotifyArtist),
    get_artist env (MusicApiService.baseUrl ++ "/artists/" ++ externalId) token r
    = (AxiosResponse a, r') ->
    sa_id a = canonical.

(** ** A page of reviews

    [pg] is the page ([skip_], [take_]) of the rows of [db] that satisfy
    [matching]: its items are the slice of those rows taken newest first, and
    its [meta] counts all of them. *)
Definition isPage (db : MemPrisma.Db) (matching : Review -> bool)
    (skip_ take_ : nat) (pg : ReviewPage) : Prop :=
  exists ordered : list Review,
    Permutation ordered (filter matching (MemPrisma.db_reviews db))
    /\ MemPrisma.descending ordered
    /\ map review (reviews pg) = firstn take_ (skipn skip_ ordered)
    /\ MemPrisma.descending (map review (reviews pg))
    /\ total (meta pg) = List.length (filter matching (MemPrisma.db_reviews db))
    /\ skip (meta pg) = skip_
    /\ take (meta pg) = take_
    /\ (hasMore (meta pg) = true <-> (skip_ + take_ < total (meta pg))%nat).

(** ** A small catalog and store to run the services on *)

Module Demo.

(** The outside is the list of requests made so far. *)
Definition Log : Type := list string.

Definition entry (id_ type_ : string) (tracks_ : option Z) : SpotifyAlbum :=
  {| id := Some id_;
     name := "Album " ++ id_;
     release_date := Some "2023-01-01";
     images := Some [ {| url := "https://example.com/cover.jpg" |} ];
     artists := [ {| ref_id := "artist123"; ref_name := "Test Artist" |} ];
     album_type := Some type_;
     total_tracks := tracks_;
     tracks := None |}.

Definition searchItems (query : string) : AxiosResult (list SpotifyAlbum) :=
  if (query =? "AC/DC")%string then AxiosResponse []
  else if (query =? "down")%string then AxiosError (Some 503)
  else
    AxiosResponse
      [ entry "album123" "album" (Some 10);
        entry "single1" "single" (Some 1);
        entry "single2" "single" (Some 2);
        entry "single0" "single" None;
        entry "ep1" "ep" (Some 4);
        entry "comp1" "compilation" (Some 20) ].

Definition albumAt (url_ : string) : AxiosResult (option SpotifyAlbum) :=
  if (url_ =? MusicApiService.baseUrl ++ "/albums/AC%2FDC")%string
  then AxiosResponse (Some (entry "AC/DC" "album" (Some 9)))
  else if (url_ =? MusicApiService.baseUrl ++ "/albums/b%20side")%string
  then AxiosResponse (Some (entry "b side" "album" (Some 12)))
  else AxiosError (Some 404).

Definition artistAt (url_ : string) : AxiosResult SpotifyArtist :=
  if (url_ =? MusicApiService.baseUrl ++ "/artists/artist123")%string
  then
    AxiosResponse
      {| sa_id := "artist123";
         sa_name := "Test Artist";
         sa_images := Some [ {| url := "https://example.com/artist.jpg" |} ];
         sa_popularity := Some 50;
         sa_genres := ["rock"] |}
  else AxiosError (Some 404).

Definition catalog : Env Log :=
  {| date_now := fun _ => 1000;
     config_get := fun key =>
       if (key =? "SPOTIFY_CLIENT_ID")%string then Some "client"
       else if (key =? "SPOTIFY_CLIENT_SECRET")%string then Some "secret"
       else None;
     post_token := fun _ _ r =>
       (AxiosResponse {| access_token := "token"; expires_in := 3600 |},
        (r ++ ["POST https://accounts.spotify.com/api/token"])%list);
     get_search := fun url_ _ params r =>
       (searchItems (q params), (r ++ [("GET " ++ url_ ++ "?q=" ++ q params)%string])%list);
     get_album := fun url_ _ r => (albumAt url_, (r ++ [("GET " ++ url_)%string])%list);
     get_artist := fun url_ _ r => (artistAt url_, (r ++ [("GET " ++ url_)%string])%list);
     get_artist_albums := fun url_ _ _ r =>
       (AxiosResponse [ entry "album123" "album" (Some 10) ],
        (r ++ [("GET " ++ url_)%string])%list) |}.

(** A catalog that renames the artist between two lookups: the first lookup
    of a URL is answered with the id ["artist-a"], the later ones with
    ["artist-b"]. *)
Definition renamingCatalog : Env Log :=
  {| date_now := date_now catalog;
     config_get := config_get catalog;
     post_token := post_token catalog;
     get_search := get_search catalog;
     get_album := get_album catalog;
     get_artist := fun url_ _ r =>
       (AxiosResponse
          {| sa_id :=
               if existsb (String.eqb ("GET " ++ url_)) r then "artist-b"
               else "artist-a";
             sa_name := "Test Artist";
             sa_images := None;
             sa_popularity := None;
             sa_genres := [] |},
        (r ++ [("GET " ++ url_)%string])%list);
     get_artist_albums := get_artist_albums catalog |}.

Definition alice : User :=
  {| user_id := 1; username := "alice"; email := "alice@example.com";
     passwordHash := "hash"; user_createdAt := 10 |}.

Definition bob : User :=
  {| user_id := 2; username := "bob"; email := "bob@example.com";
     passwordHash := "hash"; user_createdAt := 20 |}.

Definition testArtist : Artist :=
  {| artist_id := 1; artist_externalId := "artist123";
     artist_name := "Test Artist"; artist_imageUrl := None |}.

Definition testAlbum : Album :=
  {| album_id := 1; album_externalId := "album123"; title := "Test Album";
     releaseDate := Some (Date "2023-01-01"); coverUrl := None; artistId := 1 |}.

Definition aliceReview : Review :=
  {| review_id := 1; userId := 1; albumId := 1; rating := 4;
     comment := Some "Great album!"; createdAt := 100 |}.

Definition bobReview : Review :=
  {| review_id := 2; userId := 2; albumId := 1; rating := 3;
     comment := None; createdAt := 200 |}.

Definition carol : User :=
  {| user_id := 3; username := "carol"; email := "carol@example.com";
     passwordHash := "hash"; user_createdAt := 30 |}.

Definition emptyDb : MemPrisma.Db :=
  MemPrisma.mkDb [] [] [] [] 0 0 0 300.

(** The album rated 1, 1 and 2: the mean 4/3 is no double. *)
Definition thirdsDb : MemPrisma.Db :=
  MemPrisma.mkDb [alice; bob; carol] [testArtist] [testAlbum]
    [ {| review_id := 1; userId := 1; albumId := 1; rating := 1;
         comment := None; createdAt := 100 |};
      {| review_id := 2; userId := 2; albumId := 1; rating := 1;
         comment := None; createdAt := 200 |};
      {| review_id := 3; userId := 3; albumId := 1; rating := 2;
         comment := None; createdAt := 250 |} ]
    1 1 3 300.

(** Two users, one artist without albums. *)
Definition artistOnlyDb : MemPrisma.Db :=
  MemPrisma.mkDb [alice; bob] [testArtist] [] [] 1 0 0 300.

(** Two users, an artist, its album, no review. *)
Definition albumDb : MemPrisma.Db :=
  MemPrisma.mkDb [alice; bob] [testArtist] [testAlbum] [] 1 1 0 300.

(** The same with a review by each user. *)
Definition reviewedDb : MemPrisma.Db :=
  MemPrisma.mkDb [alice; bob] [testArtist] [testAlbum] [aliceReview; bobReview]
    1 1 2 300.

Definition world (db : MemPrisma.Db) : World MemPrisma.Db Log :=
  mkWorld db None None [].

(** A client whose reads are followed by a concurrent request's insert of
    the artist ["artist123"]: the check-then-insert race of [create]. *)
Definition racingClient : PrismaClient MemPrisma.Db :=
  Build_PrismaClient
    MemPrisma.user_findUnique
    (fun where_ include_ db =>
       let '(found, db1) := MemPrisma.artist_findUnique where_ include_ db in
       (found,
        snd (MemPrisma.artist_create
               {| ca_externalId := "artist123"; ca_name := "Test Artist";
                  ca_imageUrl := None |} db1)))
    MemPrisma.artist_create
    (fun where_ db =>
       let '(found, db1) := MemPrisma.album_findUnique where_ db in
       (found,
        snd (MemPrisma.album_create
               {| ai_externalId := "album123"; ai_title := "Test Album";
                  ai_releaseDate := None; ai_coverUrl := None;
                  ai_connectArtistId := 1 |} db1)))
    MemPrisma.album_findMany MemPrisma.album_create MemPrisma.review_findUnique
    MemPrisma.review_findMany MemPrisma.review_count MemPrisma.review_ratings
    MemPrisma.review_create MemPrisma.review_update MemPrisma.review_delete.

(** A client whose connection is down at the lookups. *)
Definition downClient : PrismaClient MemPrisma.Db :=
  Build_PrismaClient
    MemPrisma.user_findUnique
    (fun _ _ db => (Rejected (Error "Can't reach database server" (Some "P1001")), db))
    MemPrisma.artist_create
    (fun _ db => (Rejected (Error "Can't reach database server" (Some "P1001")), db))
    MemPrisma.album_findMany MemPrisma.album_create MemPrisma.review_findUnique
    MemPrisma.review_findMany MemPrisma.review_count MemPrisma.review_ratings
    MemPrisma.review_create MemPrisma.review_update MemPrisma.review_delete.

(** A client whose connection drops at the insert of an artist. *)
Definition failingClient : PrismaClient MemPrisma.Db :=
  Build_PrismaClient
    MemPrisma.user_findUnique MemPrisma.artist_findUnique
    (fun _ db => (Rejected (Error "Can't reach database server" (Some "P1001")), db))
    MemPrisma.album_findUnique MemPrisma.album_findMany
    (fun _ db => (Rejected (Error "Can't reach database server" (Some "P1001")), db))
    MemPrisma.review_findUnique
    MemPrisma.review_findMany MemPrisma.review_count MemPrisma.review_ratings
    MemPrisma.review_create MemPrisma.review_update MemPrisma.review_delete.

End Demo.

(** ** Query shapes of the Prisma client beyond [PrismaClient] *)

(** A review with [include: { user: true }]: the whole row of its author. *)
Record ReviewWithUser : Type :=
  { ru_review : Review; ru_user : option User }.

(** An album with [include: { artist: true, reviews: { include: { user: true },
    orderBy: { createdAt: 'desc' } } }]. *)
Record AlbumFull : Type :=
  { af_album : Album;
    af_artist : option Artist;
    af_reviews : list ReviewWithUser }.

(** - [album_findUnique_full where]: [album.findUnique] with the [include]
      of [AlbumFull]
    - [review_findUnique_full id]: [review.findUnique({ where: { id } })] with
      the [include] of the review listings *)
Record PrismaQueries (D : Type) : Type :=
  { album_findUnique_full : AlbumWhereUnique -> Async D (option AlbumFull);
    review_findUnique_full : Z -> Async D (option ReviewPayload) }.

(** What [findUnique] throws when the unique field of its [where] is
    [undefined]. *)
Definition prismaValidationError (model : string) : Exception :=
  Error
    ("Argument `where` of type " ++ model
     ++ "WhereUniqueInput needs at least one of `id` or `externalId` arguments.")
    None.

Module MemQueries.

Import MemPrisma.

Definition withUser (db : Db) (r : Review) : ReviewWithUser :=
  {| ru_review := r; ru_user := findUser db (userId r) |}.

Definition reviewsOfAlbum (db : Db) (albumId_ : Z) : list Review :=
  orderByCreatedAtDesc (filter (fun r => albumId r =? albumId_) (db_reviews db)).

Definition fullAlbum (db : Db) (a : Album) : AlbumFull :=
  {| af_album := a;
     af_artist := findArtist db (ArtistById (artistId a));
     af_reviews := map (withUser db) (reviewsOfAlbum db (album_id a)) |}.

Definition album_findUnique_full (where_ : AlbumWhereUnique)
  : Async Db (option AlbumFull) :=
  fun db => (Fulfilled (option_map (fullAlbum db) (findAlbum db where_)), db).

Definition review_findUnique_full (i : Z) : Async Db (option ReviewPayload) :=
  fun db =>
    (Fulfilled (option_map (withRelations db) (findReview db (ReviewById i))), db).

Definition queries : PrismaQueries Db :=
  Build_PrismaQueries album_findUnique_full review_findUnique_full.

(** ** What a store in use looks like *)

(** Primary keys: no two rows of a table share an id, and no id is ahead of
    the table's sequence. *)
Definition keysOk {A} (key : A -> Z) (rows : list A) (seq : Z) : Prop :=
  NoDup (map key rows) /\ Forall (fun row => key row <= seq) rows.

(** The unique indexes of the schema on "externalId" and on
    ("userId", "albumId"). *)
Definition uniqueArtists (db : Db) : Prop :=
  NoDup (map artist_externalId (db_artists db)).

Definition uniqueAlbums (db : Db) : Prop :=
  NoDup (map album_externalId (db_albums db)).

Definition uniqueReviews (db : Db) : Prop :=
  NoDup (map (fun r => (userId r, albumId r)) (db_reviews db)).

(** The foreign keys of the schema. *)
Definition albumsHaveArtists (db : Db) : Prop :=
  forall a, In a (db_albums db) ->
            exists owner, In owner (db_artists db) /\ artist_id owner = artistId a.

Definition reviewsHaveParents (db : Db) : Prop :=
  forall r, In r (db_reviews db) ->
            hasUser db (userId r) /\ hasAlbum db (albumId r).

(** [db'] is [db] after the insert of an artist for [data], of an album for
    [data], of a review for [data]. *)
Definition artistAdded (db : Db) (data : CreateArtistDto) (db' : Db) : Prop :=
  findArtist db (ArtistByExternalId (ca_externalId data)) = None
  /\ db' = mkDb (db_users db) (db_artists db ++ [insertedArtist db data])
             (db_albums db) (db_reviews db)
             (artist_seq db + 1) (album_seq db) (review_seq db) (db_now db).

Definition insertedAlbum (db : Db) (data : AlbumCreateInput) : Album :=
  {| album_id := album_seq db + 1;
     album_externalId := ai_externalId data;
     title := ai_title data;
     releaseDate := ai_releaseDate data;
     coverUrl := ai_coverUrl data;
     artistId := ai_connectArtistId data |}.

Definition albumAdded (db : Db) (data : AlbumCreateInput) (db' : Db) : Prop :=
  findAlbum db (AlbumByExternalId (ai_externalId data)) = None
  /\ (exists owner, findArtist db (ArtistById (ai_connectArtistId data)) = Some owner)
  /\ db' = mkDb (db_users db) (db_artists db)
             (db_albums db ++ [insertedAlbum db data]) (db_reviews db)
             (artist_seq db) (album_seq db + 1) (review_seq db) (db_now db).

Definition insertedReview (db : Db) (data : ReviewCreateInput) : Review :=
  {| review_id := review_seq db + 1;
     userId := ri_userId data;
     albumId := ri_albumId data;
     rating := ri_rating data;
     comment := ri_comment data;
     createdAt := db_now db |}.

Definition hasArtist (db : Db) (i : Z) : Prop :=
  exists a, In a (db_artists db) /\ artist_id a = i.

(** Every stored rating lies between [lo] and [hi]. *)
Definition ratingsWithin (lo hi : Z) (db : Db) : Prop :=
  Forall (fun r => lo <= rating r <= hi) (db_reviews db).

(** The constraints of the schema on artists, albums and reviews, together. *)
Definition wellFormed (db : Db) : Prop :=
  keysOk artist_id (db_artists db) (artist_seq db)
  /\ keysOk album_id (db_albums db) (album_seq db)
  /\ keysOk review_id (db_reviews db) (review_seq db)
  /\ uniqueArtists db
  /\ uniqueAlbums db
  /\ uniqueReviews db
  /\ albumsHaveArtists db
  /\ reviewsHaveParents db.

End MemQueries.

(** ** More of MusicApiService *)

Module MusicApiChecks.

Section Client.

Variables D R : Type.
Variable env : Env R.

(** [error.message] of an [AxiosError]; the one reader of it, the [catch] of
    [testAlbumId], drops the error it is part of. *)
Definition axiosMessage (status : option Z) : string :=
  match status with
  | Some s => "Request failed with status code " ++ showZ s
  | None => "Network Error"
  end.

Definition testAlbumId (albumId_ : string) : Async (World D R) bool :=
  try_catch
    (token <- MusicApiService.getAccessToken env ;;
     response <-
       MusicApiService.request (D:=D)
         (get_album env (MusicApiService.baseUrl ++ "/albums/" ++ albumId_) token)
         (fun status => Error ("Album ID test failed: " ++ axiosMessage status) None) ;;
     ret true)
    (fun error => ret false).

End Client.

End MusicApiChecks.

(** ** More of ArtistsService *)

Module ArtistsQueries.

Section Service.

Variables D R : Type.
Variable prisma : PrismaClient D.

Definition findOne (id_ : Z) : Async (World D R) ArtistPayload :=
  found <- liftStore (artist_findUnique prisma (ArtistById id_) true) ;;
  match found with
  | None => throw (NotFoundException ("Artist with ID " ++ showZ id_ ++ " not found"))
  | Some found => ret found
  end.

End Service.

End ArtistsQueries.

(** ** More of AlbumsService, and AlbumsController *)

(** A record of [searchAlbums] with the [_uniqueId] the service adds. *)
Record AlbumSearchItem : Type :=
  { item : AlbumSearchRecord; _uniqueId : string }.

(** [getAlbumDetailsByExternalId] answers with the stored album and its
    relations, or with what [create] returned. *)
Inductive ResolvedAlbum : Type :=
| StoredAlbum (existingAlbum : AlbumFull)
| CreatedAlbum (created : AlbumPayload).

Record AlbumIdTest : Type :=
  { t_id : string; t_isValid : bool; t_message : string }.

Module AlbumsQueries.

(** The properties of [albumDetails] the resolver reads. *)
Definition detailsExternalId (r : AlbumDetailsResult) : option string :=
  match r with
  | FromLookup d => d_externalId d
  | FromSearch f => s_externalId f
  end.

Definition detailsTitle (r : AlbumDetailsResult) : string :=
  match r with
  | FromLookup d => d_title d
  | FromSearch f => s_title f
  end.

Definition detailsReleaseDate (r : AlbumDetailsResult) : option string :=
  match r with
  | FromLookup d => d_releaseDate d
  | FromSearch f => s_releaseDate f
  end.

Definition detailsCoverUrl (r : AlbumDetailsResult) : option string :=
  match r with
  | FromLookup d => d_coverUrl d
  | FromSearch f => s_coverUrl f
  end.

Definition detailsArtistExternalId (r : AlbumDetailsResult) : option string :=
  match r with
  | FromLookup d => d_artistExternalId d
  | FromSearch f => s_artistExternalId f
  end.

(** The album row of what the resolver returned. *)
Definition albumOf (resolved : ResolvedAlbum) : Album :=
  match resolved with
  | StoredAlbum existingAlbum => af_album existingAlbum
  | CreatedAlbum created => album created
  end.

(** A value inside a template literal. *)
Definition interpolate (s : option string) : string :=
  match s with
  | Some s => s
  | None => "undefined"
  end.

(** [`${album.externalId || album.id}_${album.albumType}_${offset + index}`];
    the records have no [id]. *)
Definition uniqueId (album_ : AlbumSearchRecord) (position : Z) : string :=
  interpolate (if truthy (s_externalId album_) then s_externalId album_ else None)
  ++ "_" ++ interpolate (s_albumType album_) ++ "_" ++ showZ position.

(** [albums.map((album, index) => ({ ...album, _uniqueId }))], from [index].
    [offset + index] is the sum of integers: the number the code computes as
    long as the positions are safe integers (see [isSafeInteger]). *)
Fixpoint withUniqueIds (offset_ : Z) (index : Z) (albums : list AlbumSearchRecord)
  : list AlbumSearchItem :=
  match albums with
  | [] => []
  | album_ :: rest =>
      {| item := album_; _uniqueId := uniqueId album_ (offset_ + index) |}
      :: withUniqueIds offset_ (index + 1) rest
  end.

Section Service.

Variables D R : Type.
Variable prisma : PrismaClient D.
Variable more : PrismaQueries D.
Variable env : Env R.

(** [(page - 1) * limit] is the product of integers: the number the code
    computes as long as the page, the limit and the offset are safe
    integers. *)
Definition searchAlbums (query : string) (page_ limit_ : Z)
  : Async (World D R) (list AlbumSearchItem) :=
  let offset_ := (page_ - 1) * limit_ in
  albums <- MusicApiService.searchAlbums env query limit_ offset_ ;;
  ret (withUniqueIds offset_ 0 albums).

Definition testAlbumId (externalId : string) : Async (World D R) bool :=
  MusicApiChecks.testAlbumId env externalId.

Definition getAlbumDetailsByExternalId (externalId : string)
  : Async (World D R) ResolvedAlbum :=
  existingAlbum <-
    liftStore (album_findUnique_full more (AlbumByExternalId externalId)) ;;
  match existingAlbum with
  | Some existingAlbum => ret (StoredAlbum existingAlbum)
  | None =>
      albumDetails <- MusicApiService.getAlbumDetails env externalId ;;
      owner <-
        match detailsArtistExternalId albumDetails with
        | Some artistExternalId =>
            ArtistsService.getArtistDetailsByExternalId prisma env artistExternalId
        | None => throw (prismaValidationError "Artist")
        end ;;
      match detailsExternalId albumDetails, detailsArtistExternalId albumDetails with
      | Some albumExternalId, Some artistExternalId =>
          created <-
            AlbumsService.create prisma env
              {| cb_externalId := albumExternalId;
                 cb_title := detailsTitle albumDetails;
                 cb_releaseDate := detailsReleaseDate albumDetails;
                 cb_coverUrl := detailsCoverUrl albumDetails;
                 cb_artistExternalId := artistExternalId |} ;;
          ret (CreatedAlbum created)
      | _, _ => throw (prismaValidationError "Album")
      end
  end.

Definition findOne (id_ : Z) : Async (World D R) AlbumFull :=
  found <- liftStore (album_findUnique_full more (AlbumById id_)) ;;
  match found with
  | None => throw (NotFoundException ("Album with ID " ++ showZ id_ ++ " not found"))
  | Some found => ret found
  end.

End Service.

End AlbumsQueries.

Module AlbumsController.

Section Controller.

Variables D R : Type.
Variable prisma : PrismaClient D.
Variable more : PrismaQueries D.
Variable env : Env R.

Definition testAlbumId (externalId : string) : Async (World D R) AlbumIdTest :=
  isValid <- AlbumsQueries.testAlbumId env externalId ;;
  ret {| t_id := externalId;
         t_isValid := isValid;
         t_message :=
           if isValid then "ID is valid in Spotify"
           else "ID is not valid in Spotify" |}.

Definition findByExternalId (externalId : string)
  : Async (World D R) ResolvedAlbum :=
  try_catch (AlbumsQueries.getAlbumDetailsByExternalId prisma more env externalId)
    (fun error =>
       if instanceofNotFoundException error then throw error
       else throw (NotFoundException
                     ("Album with ID " ++ externalId ++ " not found"))).

End Controller.

End AlbumsController.

(** ** More of ReviewsService, and ReviewsController *)

Module ReviewsQueries.

Section Service.

Variable D : Type.
Variable more : PrismaQueries D.

Definition findOne (id_ : Z) : Async D ReviewPayload :=
  found <- review_findUnique_full more id_ ;;
  match found with
  | None => throw (NotFoundException ("Review with ID " ++ showZ id_ ++ " not found"))
  | Some found => ret found
  end.

End Service.

End ReviewsQueries.

Module ReviewsController.

(** [skip || 0] and [take || 10] on the optional query parameters: a missing
    parameter and a zero give the default. *)
Definition orDefault (value : option nat) (default : nat) : nat :=
  match value with
  | Some (S n) => S n
  | _ => default
  end.

Section Controller.

Variable D : Type.
Variable prisma : PrismaClient D.

Definition findAll (skip_ take_ : option nat) : Async D ReviewPage :=
  ReviewsService.findAll prisma (orDefault skip_ 0) (orDefault take_ 10).

Definition findByAlbumId (albumId_ : Z) (skip_ take_ : option nat)
  : Async D ReviewPage :=
  ReviewsService.findByAlbumId prisma albumId_ (orDefault skip_ 0)
    (orDefault take_ 10).

Definition findByUserId (userId_ : Z) (skip_ take_ : option nat)
  : Async D ReviewPage :=
  ReviewsService.findByUserId prisma userId_ (orDefault skip_ 0)
    (orDefault take_ 10).

End Controller.

End ReviewsController.

(** The request validation of the review bodies (class-validator):
    [@Min(1) @Max(5)] on creation, [@IsOptional() @Min(1) @Max(10)] on
    update. *)
Definition validCreateReviewDto (dto : CreateReviewDto) : Prop :=
  1 <= cr_rating dto <= 5.

Definition validUpdateReviewDto (dto : UpdateReviewDto) : Prop :=
  match up_rating dto with
  | Some x => 1 <= x <= 10
  | None => True
  end.

(** * Properties *)

(** ** Running the helpers *)

Example trim_demo :
  JsString.trim "  4aawyAB9vmqN3uQ7FjRGTy  " = "4aawyAB9vmqN3uQ7FjRGTy".
Proof. reflexivity. Qed.

Example encodeURIComponent_demo :
  JsString.encodeURIComponent "AC/DC live" = "AC%2FDC%20live".
Proof. reflexivity. Qed.

Example isLikelySpotifyId_demo :
  JsString.isLikelySpotifyId "4aawyAB9vmqN3uQ7FjRGTy" = true
  /\ JsString.isLikelySpotifyId "album123" = false.
Proof. split; reflexivity. Qed.

(** ** The post-filter of [searchAlbums] *)

Section PostFilter.

Import MusicApiService.

Lemma filterRewrite_app {A} (f : A -> option A) (l1 l2 : list A) :
  filterRewrite f (l1 ++ l2) = (filterRewrite f l1 ++ filterRewrite f l2)%list.
Proof.
  induction l1 as [|x l1 IH]; simpl.
  - reflexivity.
  - destruct (f x); simpl; now rewrite IH.
Qed.

Lemma filteredItems_kept (before after : list SpotifyAlbum) (a a' : SpotifyAlbum) :
  keepAlbum a = Some a' ->
  filteredItems (before ++ a :: after)
  = (filteredItems before ++ a' :: filteredItems after)%list.
Proof.
  intros Hkeep. unfold filteredItems.
  rewrite filterRewrite_app. simpl. now rewrite Hkeep.
Qed.

Lemma filteredItems_dropped (before after : list SpotifyAlbum) (a : SpotifyAlbum) :
  keepAlbum a = None ->
  filteredItems (before ++ a :: after) = filteredItems (before ++ after).
Proof.
  intros Hdrop. unfold filteredItems.
  rewrite !filterRewrite_app. simpl. now rewrite Hdrop.
Qed.

Lemma keepAlbum_album_or_ep (a : SpotifyAlbum) :
  album_type a = Some "album" \/ album_type a = Some "ep" ->
  keepAlbum a = Some a.
Proof.
  unfold keepAlbum. intros [H | H]; rewrite H; reflexivity.
Qed.

Lemma keepAlbum_single (a : SpotifyAlbum) :
  album_type a = Some "single" ->
  keepAlbum a
  = match total_tracks a with
    | None => Some (setAlbumType a "ep")
    | Some n => if 2 <=? n then Some (setAlbumType a "ep") else None
    end.
Proof.
  unfold keepAlbum. intros H. rewrite H. reflexivity.
Qed.

(** Every entry the filter lets through had one of the three types. *)
Lemma keepAlbum_some_type (a a' : SpotifyAlbum) :
  keepAlbum a = Some a' ->
  exists t, album_type a = Some t
            /\ (toLowerCase t = "album" \/ toLowerCase t = "ep" \/ t = "single").
Proof.
  unfold keepAlbum. destruct (album_type a) as [t|]; simpl.
  - destruct (toLowerCase t =? "album")%string eqn:E1.
    + apply String.eqb_eq in E1. eauto.
    + destruct (toLowerCase t =? "ep")%string eqn:E2.
      * apply String.eqb_eq in E2. eauto.
      * destruct (t =? "single")%string eqn:E3.
        -- apply String.eqb_eq in E3. eauto 6.
        -- discriminate.
  - discriminate.
Qed.

Lemma keepAlbum_unknown_type (a : SpotifyAlbum) :
  (forall t, album_type a = Some t ->
             toLowerCase t <> "album" /\ toLowerCase t <> "ep"
             /\ toLowerCase t <> "single") ->
  keepAlbum a = None.
Proof.
  intros Hunknown. destruct (keepAlbum a) as [a'|] eqn:Hkeep; [|reflexivity].
  destruct (keepAlbum_some_type _ Hkeep) as (t & Ht & Hcase).
  destruct (Hunknown t Ht) as (Halbum & Hep & Hsingle).
  destruct Hcase as [H | [H | H]]; try contradiction.
  subst t. now elim Hsingle.
Qed.

(** What [searchAlbums] returns once the token is there and the catalog has
    answered the search with [items]. *)
Lemma searchAlbums_fulfilled (D R : Type) (env : Env R) (query : string)
    (limit_ offset_ : Z) (w w1 : World D R) (token : string)
    (items : list SpotifyAlbum) (r' : R) :
  getAccessToken env w = (Fulfilled token, w1) ->
  get_search env (baseUrl ++ "/search") token
    {| q := if JsString.isLikelySpotifyId query then "id:" ++ query else query;
       limit := 50;
       offset := Z.min offset_ 950 |} (remote w1)
  = (AxiosResponse items, r') ->
  searchAlbums env query limit_ offset_ w
  = (Fulfilled (formattedResults items limit_),
     mkWorld (store w1) (accessToken w1) (tokenExpiry w1) r').
Proof.
  intros Htoken Hsearch. unfold searchAlbums, bind, request, ret.
  rewrite Htoken, Hsearch. reflexivity.
Qed.

End PostFilter.

(** C2.  Once the catalog has answered the search with [items],
    [searchAlbums] returns the formatted first [limit] entries of the
    filtered list, where the filter, entry by entry and in place, keeps an
    entry of type "album" or "ep" as it is, keeps an entry of type "single"
    with at least two tracks or with no track count as the same entry retyped
    "ep" (and reported with [albumType] "ep"), and leaves out an entry of type
    "single" with exactly one track: the filtered list and the returned
    records are those of the list without that entry. *)
Theorem searchAlbums_post_filter :
  forall (D R : Type) (env : Env R) (query : string) (limit_ offset_ : Z)
         (w w1 : World D R) (token : string) (items : list SpotifyAlbum) (r' : R),
    MusicApiService.getAccessToken env w = (Fulfilled token, w1) ->
    get_search env (MusicApiService.baseUrl ++ "/search") token
      {| q := if JsString.isLikelySpotifyId query then "id:" ++ query else query;
         limit := 50;
         offset := Z.min offset_ 950 |} (remote w1)
    = (AxiosResponse items, r') ->
    fst (MusicApiService.searchAlbums env query limit_ offset_ w)
    = Fulfilled
        (map MusicApiService.formatAlbum
           (slice0 (MusicApiService.filteredItems items) limit_))
    /\ forall (before after : list SpotifyAlbum) (a : SpotifyAlbum),
         items = (before ++ a :: after)%list ->
         (album_type a = Some "album" \/ album_type a = Some "ep" ->
          MusicApiService.filteredItems items
          = (MusicApiService.filteredItems before
             ++ a :: MusicApiService.filteredItems after)%list)
         /\ (album_type a = Some "single" ->
             (total_tracks a = None
              \/ exists n, total_tracks a = Some n /\ 2 <= n) ->
             MusicApiService.filteredItems items
             = (MusicApiService.filteredItems before
                ++ MusicApiService.setAlbumType a "ep"
                   :: MusicApiService.filteredItems after)%list
             /\ s_albumType
                  (MusicApiService.formatAlbum (MusicApiService.setAlbumType a "ep"))
                = Some "ep")
         /\ (album_type a = Some "single" ->
             total_tracks a = Some 1 ->
             MusicApiService.filteredItems items
             = MusicApiService.filteredItems (before ++ after)
             /\ fst (MusicApiService.searchAlbums env query limit_ offset_ w)
                = Fulfilled
                    (MusicApiService.formattedResults (before ++ after) limit_)).
Proof.
  intros D R env query limit_ offset_ w w1 token items r' Htoken Hsearch.
  pose proof (searchAlbums_fulfilled env query limit_ offset_ w Htoken Hsearch)
    as Hrun.
  split.
  - rewrite Hrun. reflexivity.
  - intros before after a ->. split; [|split].
    + intros Htype. apply filteredItems_kept.
      now apply keepAlbum_album_or_ep.
    + intros Hsingle Htracks. split; [|reflexivity].
      apply filteredItems_kept. rewrite (keepAlbum_single _ Hsingle).
      destruct Htracks as [-> | (n & -> & Hn)]; [reflexivity|].
      apply Z.leb_le in Hn. now rewrite Hn.
    + intros Hsingle Hone.
      assert (Hdrop : MusicApiService.keepAlbum a = None).
      { rewrite (keepAlbum_single _ Hsingle), Hone. reflexivity. }
      split; [now apply filteredItems_dropped|].
      rewrite Hrun. simpl. unfold MusicApiService.formattedResults.
      now rewrite (filteredItems_dropped before after a Hdrop).
Qed.

(** The theorem at the demo catalog, for the search "dark side": the album
    comes first, the one-track single that follows it is left out, and the
    two-track single is reported as an EP. *)
Lemma searchAlbums_post_filter_witness :
  let items :=
    [ Demo.entry "album123" "album" (Some 10);
      Demo.entry "single1" "single" (Some 1);
      Demo.entry "single2" "single" (Some 2);
      Demo.entry "single0" "single" None;
      Demo.entry "ep1" "ep" (Some 4);
      Demo.entry "comp1" "compilation" (Some 20) ] in
  map s_externalId
    (map MusicApiService.formatAlbum
       (slice0 (MusicApiService.filteredItems items) 10))
  = [Some "album123"; Some "single2"; Some "single0"; Some "ep1"]
  /\ fst (MusicApiService.searchAlbums Demo.catalog "dark side" 10 0
            (Demo.world Demo.emptyDb))
     = Fulfilled
         (map MusicApiService.formatAlbum
            (slice0 (MusicApiService.filteredItems items) 10))
  /\ MusicApiService.filteredItems items
     = MusicApiService.filteredItems
         ([Demo.entry "album123" "album" (Some 10)]
          ++ [ Demo.entry "single2" "single" (Some 2);
               Demo.entry "single0" "single" None;
               Demo.entry "ep1" "ep" (Some 4);
               Demo.entry "comp1" "compilation" (Some 20) ])%list.
Proof.
  intros items.
  destruct (@searchAlbums_post_filter MemPrisma.Db Demo.Log Demo.catalog
              "dark side" 10 0 (Demo.world Demo.emptyDb) _ _ items _
              eq_refl eq_refl) as [Hout Hentries].
  split; [reflexivity|]. split; [exact Hout|].
  destruct (Hentries [Demo.entry "album123" "album" (Some 10)]
              [ Demo.entry "single2" "single" (Some 2);
                Demo.entry "single0" "single" None;
                Demo.entry "ep1" "ep" (Some 4);
                Demo.entry "comp1" "compilation" (Some 20) ]
              (Demo.entry "single1" "single" (Some 1)) eq_refl)
    as (_ & _ & Hsingle).
  exact (proj1 (Hsingle eq_refl eq_refl)).
Defined.

(** C10.  An entry whose album type, lowered, is none of "album", "ep" and
    "single" (or that has no album type) is left out: the filtered list and
    the records [searchAlbums] builds from it are those of the list without
    the entry, and nothing the filter lets through comes from such an
    entry. *)
Theorem searchAlbums_excludes_other_types :
  forall (items before after : list SpotifyAlbum) (a : SpotifyAlbum) (limit_ : Z),
    items = (before ++ a :: after)%list ->
    (forall t, album_type a = Some t ->
               toLowerCase t <> "album" /\ toLowerCase t <> "ep"
               /\ toLowerCase t <> "single") ->
    MusicApiService.keepAlbum a = None
    /\ MusicApiService.filteredItems items
       = MusicApiService.filteredItems (before ++ after)
    /\ MusicApiService.formattedResults items limit_
       = MusicApiService.formattedResults (before ++ after) limit_.
Proof.
  intros items before after a limit_ -> Hunknown.
  pose proof (keepAlbum_unknown_type a Hunknown) as Hdrop.
  split; [exact Hdrop|].
  unfold MusicApiService.formattedResults.
  rewrite (filteredItems_dropped before after a Hdrop). split; reflexivity.
Qed.

(** The theorem at a compilation between an album and an EP. *)
Lemma searchAlbums_excludes_other_types_witness :
  MusicApiService.formattedResults
    [ Demo.entry "album123" "album" (Some 10);
      Demo.entry "comp1" "Compilation" (Some 20);
      Demo.entry "ep1" "ep" (Some 4) ] 10
  = MusicApiService.formattedResults
      [ Demo.entry "album123" "album" (Some 10);
        Demo.entry "ep1" "ep" (Some 4) ] 10.
Proof.
  refine (proj2 (proj2 (@searchAlbums_excludes_other_types _
            [Demo.entry "album123" "album" (Some 10)]
            [Demo.entry "ep1" "ep" (Some 4)]
            (Demo.entry "comp1" "Compilation" (Some 20)) 10 eq_refl _))).
  intros t Ht. injection Ht as <-.
  repeat split; discriminate.
Defined.

(** ** The fallback chain of [getAlbumDetails] *)

Section Fallback.

Import MusicApiService.

Variables D R : Type.
Variable env : Env R.

Lemma exactMatch_found (searchResults : list AlbumSearchRecord)
    (externalId : string) (found : AlbumSearchRecord) :
  exactMatch searchResults externalId = Some found ->
  In found searchResults /\ s_externalId found = Some externalId.
Proof.
  unfold exactMatch. intros Hfind.
  apply find_some in Hfind. destruct Hfind as [Hin Heq].
  split; [exact Hin|].
  destruct (s_externalId found) as [e|]; [|discriminate].
  apply String.eqb_eq in Heq. now subst e.
Qed.

(** A direct lookup the catalog answers with 404 ends in the not-found
    error, after the token request and the lookup. *)
Lemma directLookup_not_found (externalId token : string) (w w1 : World D R) (r' : R) :
  getAccessToken env w = (Fulfilled token, w1) ->
  get_album env (baseUrl ++ "/albums/" ++ JsString.trim externalId) token (remote w1)
  = (AxiosError (Some 404), r') ->
  directLookup env externalId w
  = (Rejected
       (NotFoundException
          ("Album with ID " ++ JsString.trim externalId ++ " not found in Spotify")),
     mkWorld (store w1) (accessToken w1) (tokenExpiry w1) r').
Proof.
  intros Htoken Hget. unfold directLookup, bind, request.
  rewrite Htoken, Hget. reflexivity.
Qed.

Lemma getAlbumDetails_after_not_found (externalId message : string)
    (w w2 : World D R) :
  directLookup env externalId w = (Rejected (NotFoundException message), w2) ->
  getAlbumDetails env externalId w
  = searchFallback env externalId (NotFoundException message) w2.
Proof.
  intros Hdirect. unfold getAlbumDetails, try_catch. rewrite Hdirect.
  reflexivity.
Qed.

Lemma alternativeLookup_fulfilled (externalId altToken : string) (error : Exception)
    (w3 w4 : World D R) (r4 : R) (altAlbum : SpotifyAlbum) :
  getAccessToken env w3 = (Fulfilled altToken, w4) ->
  get_album env (baseUrl ++ "/albums/" ++ JsString.encodeURIComponent externalId)
    altToken (remote w4)
  = (AxiosResponse (Some altAlbum), r4) ->
  alternativeLookup env externalId error w3
  = (Fulfilled (FromLookup (formatDetails altAlbum)),
     mkWorld (store w4) (accessToken w4) (tokenExpiry w4) r4).
Proof.
  intros Htoken Hget. unfold alternativeLookup, bind, request.
  rewrite Htoken, Hget. reflexivity.
Qed.

End Fallback.

(** C8, as the code has it.  When the catalog answers the direct lookup with
    404, [getAlbumDetails] searches for the id (five results at most).
    - The search fails, or returns no result: the original not-found error
      is raised and the URL-encoded lookup is not requested (the world is the
      one the search left).
    - A result has exactly the requested external id: the first such result
      is returned.
    - There are results and none matches: the lookup is retried under the
      URL-encoded id; its album is returned when the catalog answers with
      one, and the original not-found error is raised when the retry fails,
      whatever the retry failed with. *)
Theorem getAlbumDetails_fallback :
  forall (D R : Type) (env : Env R) (externalId token : string)
         (w w1 : World D R) (r' : R),
    MusicApiService.getAccessToken env w = (Fulfilled token, w1) ->
    get_album env
      (MusicApiService.baseUrl ++ "/albums/" ++ JsString.trim externalId)
      token (remote w1)
    = (AxiosError (Some 404), r') ->
    let error :=
      NotFoundException
        ("Album with ID " ++ JsString.trim externalId ++ " not found in Spotify") in
    let w2 := mkWorld (store w1) (accessToken w1) (tokenExpiry w1) r' in
    (forall e w3,
        MusicApiService.searchAlbums env externalId 5 0 w2 = (Rejected e, w3) ->
        MusicApiService.getAlbumDetails env externalId w = (Rejected error, w3))
    /\ (forall searchResults w3,
          MusicApiService.searchAlbums env externalId 5 0 w2
          = (Fulfilled searchResults, w3) ->
          (searchResults = [] ->
           MusicApiService.getAlbumDetails env externalId w = (Rejected error, w3))
          /\ (forall found,
                 MusicApiService.exactMatch searchResults externalId = Some found ->
                 In found searchResults
                 /\ s_externalId found = Some externalId
                 /\ MusicApiService.getAlbumDetails env externalId w
                    = (Fulfilled (FromSearch found), w3))
          /\ (searchResults <> [] ->
              MusicApiService.exactMatch searchResults externalId = None ->
              (forall altToken w4 r4 altAlbum,
                  MusicApiService.getAccessToken env w3 = (Fulfilled altToken, w4) ->
                  get_album env
                    (MusicApiService.baseUrl ++ "/albums/"
                     ++ JsString.encodeURIComponent externalId)
                    altToken (remote w4)
                  = (AxiosResponse (Some altAlbum), r4) ->
                  MusicApiService.getAlbumDetails env externalId w
                  = (Fulfilled (FromLookup (MusicApiService.formatDetails altAlbum)),
                     mkWorld (store w4) (accessToken w4) (tokenExpiry w4) r4))
              /\ (forall e w4,
                     MusicApiService.alternativeLookup env externalId error w3
                     = (Rejected e, w4) ->
                     MusicApiService.getAlbumDetails env externalId w
                     = (Rejected error, w4)))).
Proof.
  intros D R env externalId token w w1 r' Htoken Hget error w2.
  pose proof (directLookup_not_found env externalId w Htoken Hget) as Hdirect.
  pose proof (getAlbumDetails_after_not_found env externalId w Hdirect) as Hrun.
  fold error in Hrun. fold w2 in Hrun.
  split.
  - intros e w3 Hsearch. rewrite Hrun.
    unfold MusicApiService.searchFallback, try_catch, bind.
    rewrite Hsearch. reflexivity.
  - intros searchResults w3 Hsearch. split; [|split].
    + intros ->. rewrite Hrun.
      unfold MusicApiService.searchFallback, try_catch, bind.
      rewrite Hsearch. reflexivity.
    + intros found Hmatch.
      destruct (exactMatch_found _ _ Hmatch) as [Hin Hid].
      split; [exact Hin|]. split; [exact Hid|].
      rewrite Hrun.
      unfold MusicApiService.searchFallback, try_catch, bind.
      rewrite Hsearch.
      destruct searchResults as [|first rest]; [discriminate|].
      rewrite Hmatch. reflexivity.
    + intros Hnonempty Hnone. split.
      * intros altToken w4 r4 altAlbum Halt Haltget. rewrite Hrun.
        unfold MusicApiService.searchFallback, try_catch, bind.
        rewrite Hsearch.
        destruct searchResults as [|first rest]; [now elim Hnonempty|].
        rewrite Hnone.
        rewrite (alternativeLookup_fulfilled env externalId error w3 Halt Haltget).
        reflexivity.
      * intros e w4 Hretry. rewrite Hrun.
        unfold MusicApiService.searchFallback, try_catch, bind.
        rewrite Hsearch.
        destruct searchResults as [|first rest]; [now elim Hnonempty|].
        rewrite Hnone, Hretry. reflexivity.
Qed.

(** The theorem at the demo catalog: "b side" is not found directly, the
    search has results but none with that id, and the URL-encoded lookup
    gives the album. *)
Lemma getAlbumDetails_fallback_witness :
  fst (MusicApiService.getAlbumDetails Demo.catalog "b side"
         (Demo.world Demo.emptyDb))
  = Fulfilled
      (FromLookup
         (MusicApiService.formatDetails (Demo.entry "b side" "album" (Some 12)))).
Proof.
  destruct (@getAlbumDetails_fallback MemPrisma.Db Demo.Log Demo.catalog
              "b side" _ (Demo.world Demo.emptyDb) _ _ eq_refl eq_refl)
    as [_ Hsearch].
  destruct (Hsearch _ _ eq_refl) as (_ & _ & Hretry).
  destruct (Hretry ltac:(discriminate) eq_refl) as [Hok _].
  rewrite (Hok _ _ _ _ eq_refl eq_refl). reflexivity.
Defined.

(** C8 as stated does not hold: for "AC/DC" at the demo catalog the direct
    lookup is not found and the search returns nothing, so [getAlbumDetails]
    raises the not-found error without the retry, while the chain of the
    specification goes on to the URL-encoded lookup, which has the album. *)
Lemma fallback_chain_as_specified_fails : ~ FallbackAsSpecified.holds.
Proof.
  intros Hholds.
  specialize (Hholds MemPrisma.Db Demo.Log Demo.catalog "AC/DC"
                (Demo.world Demo.emptyDb)).
  specialize (Hholds _ _ eq_refl eq_refl).
  vm_compute in Hholds. discriminate Hholds.
Qed.

Example getAlbumDetails_skips_retry_on_empty_search :
  MusicApiService.getAlbumDetails Demo.catalog "AC/DC" (Demo.world Demo.emptyDb)
  = (Rejected (NotFoundException "Album with ID AC/DC not found in Spotify"),
     mkWorld Demo.emptyDb (Some "token") (Some 3601000)
       [ "POST https://accounts.spotify.com/api/token";
         "GET https://api.spotify.com/v1/albums/AC/DC";
         "GET https://api.spotify.com/v1/search?q=AC/DC" ]).
Proof. reflexivity. Qed.

Example getAlbumDetails_exact_match :
  fst (MusicApiService.getAlbumDetails Demo.catalog "album123"
         (Demo.world Demo.emptyDb))
  = Fulfilled
      (FromSearch
         (MusicApiService.formatAlbum (Demo.entry "album123" "album" (Some 10)))).
Proof. reflexivity. Qed.

Example getAlbumDetails_retry_fails :
  fst (MusicApiService.getAlbumDetails Demo.catalog "gone" (Demo.world Demo.emptyDb))
  = Rejected (NotFoundException "Album with ID gone not found in Spotify").
Proof. reflexivity. Qed.

(** ** The catalog client does not touch the store *)

Section Frame.

Import MusicApiService.

Variables D R : Type.
Variable env : Env R.

Lemma request_store {A} (call : R -> AxiosResult A * R)
    (handler : option Z -> Exception) (w : World D R) :
  store (snd (request call handler w)) = store w.
Proof.
  unfold request. destruct (call (remote w)) as [[data|status] r']; reflexivity.
Qed.

Lemma refreshAccessToken_store (w : World D R) :
  store (snd (refreshAccessToken env w)) = store w.
Proof.
  unfold refreshAccessToken.
  destruct (config_get env "SPOTIFY_CLIENT_ID") as [clientId|]; [|reflexivity].
  destruct (config_get env "SPOTIFY_CLIENT_SECRET") as [clientSecret|];
    [|reflexivity].
  destruct (negb (clientId =? EmptyString)%string
            && negb (clientSecret =? EmptyString)%string);
    [|reflexivity].
  destruct (post_token env clientId clientSecret (remote w)) as [[data|status] r'];
    reflexivity.
Qed.

Lemma getAccessToken_store (w : World D R) :
  store (snd (getAccessToken env w)) = store w.
Proof.
  unfold getAccessToken.
  destruct (accessToken w) as [token|].
  - destruct (tokenStillValid env w);
      [reflexivity | apply refreshAccessToken_store].
  - apply refreshAccessToken_store.
Qed.

Lemma bind_request_store {A B} (call : string -> R -> AxiosResult A * R)
    (handler : option Z -> Exception) (k : A -> B) (w : World D R) :
  store (snd ((token <- getAccessToken env ;;
               data <- request (call token) handler ;;
               ret (k data)) w))
  = store w.
Proof.
  unfold bind, ret.
  pose proof (getAccessToken_store w) as Htoken.
  destruct (getAccessToken env w) as [[token|e] w1]; simpl in *; [|exact Htoken].
  pose proof (request_store (call token) handler w1) as Hrequest.
  destruct (request (call token) handler w1) as [[data|e] w2]; simpl in *;
    congruence.
Qed.

Lemma getArtistDetails_store (externalId : string) (w : World D R) :
  store (snd (getArtistDetails env externalId w)) = store w.
Proof.
  unfold getArtistDetails.
  apply (bind_request_store
           (fun token => get_artist env (baseUrl ++ "/artists/" ++ externalId) token)).
Qed.

Lemma getArtistAlbums_store (artistExternalId : string) (limit_ : Z) (w : World D R) :
  store (snd (getArtistAlbums env artistExternalId limit_ w)) = store w.
Proof.
  unfold getArtistAlbums.
  apply (bind_request_store
           (fun token =>
              get_artist_albums env
                (baseUrl ++ "/artists/" ++ artistExternalId ++ "/albums")
                token limit_)).
Qed.

Lemma getArtistDetails_id (externalId canonical : string) (w w1 : World D R)
    (details : ArtistDetailsRecord) :
  answersWithId env externalId canonical ->
  getArtistDetails env externalId w = (Fulfilled details, w1) ->
  a_externalId details = canonical.
Proof.
  intros Hcontract. unfold getArtistDetails, bind, request, ret.
  destruct (getAccessToken env w) as [[token|e] w0]; [|discriminate].
  destruct (get_artist env (baseUrl ++ "/artists/" ++ externalId) token (remote w0))
    as [[a|status] r'] eqn:Hget; [|discriminate].
  intros Hrun. injection Hrun as <- _. simpl.
  exact (Hcontract _ _ _ _ Hget).
Qed.

End Frame.

(** ** Rows of the in-memory store *)

Section Rows.

Import MemPrisma.

Lemma find_app_last {A} (f : A -> bool) (l : list A) (x : A) :
  find f l = None ->
  find f (l ++ [x]) = if f x then Some x else None.
Proof.
  induction l as [|y l IH]; simpl; [reflexivity|].
  destruct (f y); [discriminate|]. exact IH.
Qed.

Lemma find_none_iff {A} (f : A -> bool) (l : list A) :
  find f l = None <-> forall x, In x l -> f x = false.
Proof.
  split.
  - intros Hnone x Hin. exact (find_none f l Hnone x Hin).
  - induction l as [|y l IH]; simpl; [reflexivity|].
    intros Hall. rewrite (Hall y (or_introl eq_refl)).
    apply IH. intros x Hin. apply Hall. now right.
Qed.

(** No album with the id: what [findAlbum] answering [None] means. *)
Lemma findAlbum_none_iff (db : Db) (i : Z) :
  findAlbum db (AlbumById i) = None
  <-> forall a, In a (db_albums db) -> album_id a <> i.
Proof.
  unfold findAlbum. rewrite find_none_iff. simpl.
  split; intros H a Hin; specialize (H a Hin).
  - now apply Z.eqb_neq.
  - now apply Z.eqb_neq.
Qed.

Lemma findReview_pair_none_iff (db : Db) (u a : Z) :
  findReview db (ReviewByUserIdAlbumId u a) = None
  <-> forall r, In r (db_reviews db) -> ~ (userId r = u /\ albumId r = a).
Proof.
  unfold findReview. rewrite find_none_iff. simpl.
  split; intros H r Hin; specialize (H r Hin).
  - intros [<- <-]. now rewrite !Z.eqb_refl in H.
  - destruct (userId r =? u) eqn:Eu; [|reflexivity].
    destruct (albumId r =? a) eqn:Ea; [|reflexivity].
    apply Z.eqb_eq in Eu, Ea. now elim H.
Qed.

Lemma findReview_id_none_iff (db : Db) (i : Z) :
  findReview db (ReviewById i) = None
  <-> forall r, In r (db_reviews db) -> review_id r <> i.
Proof.
  unfold findReview. rewrite find_none_iff. simpl.
  split; intros H r Hin; specialize (H r Hin); now apply Z.eqb_neq.
Qed.

Lemma findUser_none_iff (db : Db) (i : Z) :
  findUser db i = None <-> forall u, In u (db_users db) -> user_id u <> i.
Proof.
  unfold findUser. rewrite find_none_iff.
  split; intros H u Hin; specialize (H u Hin); now apply Z.eqb_neq.
Qed.

Lemma findArtist_some (db : Db) (where_ : ArtistWhereUnique) (a : Artist) :
  findArtist db where_ = Some a ->
  In a (db_artists db) /\ matchesArtist where_ a = true.
Proof. unfold findArtist. apply find_some. Qed.

Lemma albumsOf_in (db : Db) (i : Z) (al : Album) :
  In al (albumsOf db i) <-> In al (db_albums db) /\ artistId al = i.
Proof.
  unfold albumsOf. rewrite filter_In. now rewrite Z.eqb_eq.
Qed.

End Rows.

(** ** Resolving an artist by external id *)

Section ResolveArtist.

Import MemPrisma.

Variable R : Type.
Variable env : Env R.

Lemma withStore_same (w : World Db R) : withStore w (store w) = w.
Proof. destruct w; reflexivity. Qed.

Lemma resolve_hit (externalId : string) (w : World Db R) (a : Artist) :
  findArtist (store w) (ArtistByExternalId externalId) = Some a ->
  ArtistsService.getArtistDetailsByExternalId client env externalId w
  = (Fulfilled {| artist := a;
                  artist_albums := Some (albumsOf (store w) (artist_id a)) |},
     w).
Proof.
  intros Hfind.
  unfold ArtistsService.getArtistDetailsByExternalId, bind, liftStore, ret.
  simpl. unfold artist_findUnique. rewrite Hfind. simpl.
  now rewrite withStore_same.
Qed.

Lemma resolve_miss (externalId : string) (w : World Db R) :
  findArtist (store w) (ArtistByExternalId externalId) = None ->
  ArtistsService.getArtistDetailsByExternalId client env externalId w
  = match MusicApiService.getArtistDetails env externalId w with
    | (Fulfilled artistDetails, w') =>
        ArtistsService.create client
          {| ca_externalId := a_externalId artistDetails;
             ca_name := a_name artistDetails;
             ca_imageUrl := a_imageUrl artistDetails |} w'
    | (Rejected e, w') => (Rejected e, w')
    end.
Proof.
  intros Hfind.
  unfold ArtistsService.getArtistDetailsByExternalId, bind, liftStore.
  simpl. unfold artist_findUnique. rewrite Hfind. simpl.
  rewrite withStore_same. reflexivity.
Qed.

Lemma create_inserts (data : CreateArtistDto) (w : World Db R) :
  findArtist (store w) (ArtistByExternalId (ca_externalId data)) = None ->
  ArtistsService.create client data w
  = (Fulfilled {| artist := insertedArtist (store w) data; artist_albums := None |},
     withStore w
       (mkDb (db_users (store w))
          (db_artists (store w) ++ [insertedArtist (store w) data])
          (db_albums (store w)) (db_reviews (store w))
          (artist_seq (store w) + 1) (album_seq (store w)) (review_seq (store w))
          (db_now (store w)))).
Proof.
  intros Hfind.
  unfold ArtistsService.create, try_catch, bind, liftStore, ret.
  simpl. unfold artist_findUnique, artist_create. rewrite Hfind. simpl.
  rewrite withStore_same. rewrite Hfind. reflexivity.
Qed.

Lemma create_existing (data : CreateArtistDto) (w : World Db R) (a : Artist) :
  findArtist (store w) (ArtistByExternalId (ca_externalId data)) = Some a ->
  ArtistsService.create client data w
  = (Fulfilled {| artist := a; artist_albums := None |}, w).
Proof.
  intros Hfind.
  unfold ArtistsService.create, try_catch, bind, liftStore, ret.
  simpl. unfold artist_findUnique. rewrite Hfind. simpl.
  now rewrite withStore_same.
Qed.

(** After a first resolution that missed locally: the row it returned is the
    one the store finds under the catalog's id, and the store has a row under
    the requested id only if the two ids are the same. *)
Lemma resolve_first (externalId canonical : string) (w w1 : World Db R)
    (first : ArtistPayload) :
  answersWithId env externalId canonical ->
  findArtist (store w) (ArtistByExternalId externalId) = None ->
  ArtistsService.getArtistDetailsByExternalId client env externalId w
  = (Fulfilled first, w1) ->
  findArtist (store w1) (ArtistByExternalId canonical) = Some (artist first)
  /\ (canonical <> externalId ->
      findArtist (store w1) (ArtistByExternalId externalId) = None)
  /\ (db_artists (store w1) = db_artists (store w)
      \/ db_artists (store w1) = (db_artists (store w) ++ [artist first])%list).
Proof.
  intros Hcontract Hmiss Hfirst.
  rewrite (resolve_miss externalId w Hmiss) in Hfirst.
  pose proof (getArtistDetails_store env externalId w) as Hframe.
  destruct (MusicApiService.getArtistDetails env externalId w)
    as [[artistDetails|e] w'] eqn:Hdetails; [|discriminate].
  simpl in Hframe.
  pose proof (getArtistDetails_id w Hcontract Hdetails) as Hid.
  destruct (findArtist (store w') (ArtistByExternalId canonical)) as [a|] eqn:Hcanon.
  - rewrite (create_existing _ w' (a:=a)) in Hfirst
      by (simpl; rewrite Hid; exact Hcanon).
    injection Hfirst as <- <-. simpl.
    split; [exact Hcanon|]. rewrite Hframe. split; [intros _; exact Hmiss|now left].
  - rewrite create_inserts in Hfirst by (simpl; rewrite Hid; exact Hcanon).
    injection Hfirst as <- <-. simpl.
    rewrite Hframe in Hcanon |- *.
    unfold findArtist in *. simpl.
    rewrite !find_app_last by assumption.
    simpl. rewrite Hid, String.eqb_refl.
    split; [reflexivity|]. split; [|now right].
    intros Hdiff. apply String.eqb_neq in Hdiff. now rewrite Hdiff.
Qed.

End ResolveArtist.

(** C1.  Over the in-memory store and any catalog.
    - Cache-aside: when a row with the external id exists, it is returned
      with its albums and the world is as before: no token was fetched and no
      request was made, whatever the catalog would have answered.
    - A miss asks the catalog and stores its answer: a failure of the
      catalog client's [getArtistDetails] is the failure of the call; its
      record is stored under the id the record carries, unless a row with
      that id exists, and the stored row is the one returned.
    - Idempotence: let the catalog name the artist consistently (see
      [answersWithId]) and let a first call return a row.  That row is in the
      store and the call added at most this one row.  A second call with the
      same external id leaves the store as it is and, when it returns a row,
      returns the same stored row, so the same local id; it does return when
      the catalog echoes the requested id, and then without any request. *)
Theorem getArtistDetailsByExternalId_idempotent :
  forall (R : Type) (env : Env R) (externalId canonical : string)
         (w : World MemPrisma.Db R),
    (forall a,
        MemPrisma.findArtist (store w) (ArtistByExternalId externalId) = Some a ->
        ArtistsService.getArtistDetailsByExternalId MemPrisma.client env externalId w
        = (Fulfilled
             {| artist := a;
                artist_albums := Some (MemPrisma.albumsOf (store w) (artist_id a)) |},
           w))
    /\ (MemPrisma.findArtist (store w) (ArtistByExternalId externalId) = None ->
        (forall e w',
            MusicApiService.getArtistDetails env externalId w = (Rejected e, w') ->
            ArtistsService.getArtistDetailsByExternalId MemPrisma.client env
              externalId w
            = (Rejected e, w'))
        /\ (forall details w',
               MusicApiService.getArtistDetails env externalId w
               = (Fulfilled details, w') ->
               let data :=
                 {| ca_externalId := a_externalId details;
                    ca_name := a_name details;
                    ca_imageUrl := a_imageUrl details |} in
               exists first w1,
                 ArtistsService.getArtistDetailsByExternalId MemPrisma.client env
                   externalId w
                 = (Fulfilled first, w1)
                 /\ artist_externalId (artist first) = a_externalId details
                 /\ MemPrisma.findArtist (store w1)
                      (ArtistByExternalId (a_externalId details))
                    = Some (artist first)
                 /\ In (artist first) (MemPrisma.db_artists (store w1))
                 /\ accessToken w1 = accessToken w'
                 /\ tokenExpiry w1 = tokenExpiry w'
                 /\ remote w1 = remote w'
                 /\ ((MemPrisma.findArtist (store w)
                        (ArtistByExternalId (a_externalId details))
                      = Some (artist first)
                      /\ store w1 = store w)
                     \/ (artist first = MemPrisma.insertedArtist (store w) data
                         /\ MemQueries.artistAdded (store w) data (store w1)))))
    /\ (answersWithId env externalId canonical ->
        forall first w1,
          ArtistsService.getArtistDetailsByExternalId MemPrisma.client env
            externalId w
          = (Fulfilled first, w1) ->
          In (artist first) (MemPrisma.db_artists (store w1))
          /\ (MemPrisma.db_artists (store w1) = MemPrisma.db_artists (store w)
              \/ MemPrisma.db_artists (store w1)
                 = (MemPrisma.db_artists (store w) ++ [artist first])%list)
          /\ store (snd (ArtistsService.getArtistDetailsByExternalId
                           MemPrisma.client env externalId w1))
             = store w1
          /\ (forall second w2,
                 ArtistsService.getArtistDetailsByExternalId MemPrisma.client env
                   externalId w1
                 = (Fulfilled second, w2) ->
                 artist second = artist first
                 /\ artist_id (artist second) = artist_id (artist first)
                 /\ In (artist second) (MemPrisma.db_artists (store w2)))
          /\ (canonical = externalId ->
              exists second,
                ArtistsService.getArtistDetailsByExternalId MemPrisma.client env
                  externalId w1
                = (Fulfilled second, w1)
                /\ artist second = artist first)).
Proof.
  intros R env externalId canonical w. split; [|split].
  - intros a Hfind. now apply resolve_hit.
  - intros Hmiss. rewrite (resolve_miss env externalId w Hmiss).
    pose proof (getArtistDetails_store env externalId w) as Hframe.
    split.
    + intros e w' Hdetails. now rewrite Hdetails.
    + intros details w' Hdetails data. rewrite Hdetails in Hframe |- *.
      simpl in Hframe. fold data.
      destruct (MemPrisma.findArtist (store w') (ArtistByExternalId (ca_externalId data)))
        as [a|] eqn:Hcanon.
      * rewrite (create_existing data w' Hcanon).
        exists {| artist := a; artist_albums := None |}, w'.
        pose proof (find_some _ _ Hcanon) as [Hin Hext]. simpl in Hext.
        apply String.eqb_eq in Hext.
        split; [reflexivity|]. split; [exact Hext|]. split; [exact Hcanon|].
        split; [exact Hin|]. repeat (split; [reflexivity|]).
        left. rewrite <- Hframe. now split.
      * rewrite (create_inserts data w' Hcanon).
        eexists. eexists. split; [reflexivity|]. simpl.
        split; [reflexivity|].
        split.
        { unfold MemPrisma.findArtist in *. simpl.
          rewrite find_app_last by exact Hcanon. simpl.
          now rewrite String.eqb_refl. }
        split; [apply in_or_app; right; now left|].
        repeat (split; [reflexivity|]).
        right. rewrite Hframe in *. split; [reflexivity|].
        split; [exact Hcanon|reflexivity].
  - intros Hcontract first w1 Hfirst.
    assert (Hafter :
      (exists a, MemPrisma.findArtist (store w1) (ArtistByExternalId externalId)
                 = Some a /\ a = artist first)
      \/ (canonical <> externalId
          /\ MemPrisma.findArtist (store w1) (ArtistByExternalId externalId) = None
          /\ MemPrisma.findArtist (store w1) (ArtistByExternalId canonical)
             = Some (artist first))).
    { destruct (MemPrisma.findArtist (store w) (ArtistByExternalId externalId))
        as [a|] eqn:Hfind.
      - rewrite (resolve_hit env externalId w Hfind) in Hfirst.
        injection Hfirst as <- <-. left. exists a. now split.
      - destruct (resolve_first w Hcontract Hfind Hfirst) as (Hcanon & Hother & _).
        destruct (String.eqb_spec canonical externalId) as [Heq | Hdiff].
        + left. exists (artist first). split; [now rewrite <- Heq|reflexivity].
        + right. split; [exact Hdiff|]. split; [now apply Hother|exact Hcanon]. }
    assert (Hstored : In (artist first) (MemPrisma.db_artists (store w1))).
    { destruct Hafter as [(a & Hhit & ->) | (_ & _ & Hcanon)].
      - exact (proj1 (find_some _ _ Hhit)).
      - exact (proj1 (find_some _ _ Hcanon)). }
    split; [exact Hstored|].
    split.
    { destruct (MemPrisma.findArtist (store w) (ArtistByExternalId externalId))
        as [a|] eqn:Hfind.
      - rewrite (resolve_hit env externalId w Hfind) in Hfirst.
        injection Hfirst as _ <-. now left.
      - now destruct (resolve_first w Hcontract Hfind Hfirst) as (_ & _ & Hrows). }
    destruct Hafter as [(a & Hhit & ->) | (Hdiff & Hmiss & Hcanon)].
    + rewrite (resolve_hit env externalId w1 Hhit).
      split; [reflexivity|]. split.
      * intros second w2 Hsecond. injection Hsecond as <- <-. simpl.
        split; [reflexivity|]. split; [reflexivity|exact Hstored].
      * intros _. eexists. split; reflexivity.
    + rewrite (resolve_miss env externalId w1 Hmiss).
      pose proof (getArtistDetails_store env externalId w1) as Hframe.
      destruct (MusicApiService.getArtistDetails env externalId w1)
        as [[artistDetails|e] w'] eqn:Hdetails; simpl in Hframe.
      * pose proof (getArtistDetails_id w1 Hcontract Hdetails) as Hid.
        rewrite (create_existing _ w' (a:=artist first))
          by (simpl; rewrite Hid, Hframe; exact Hcanon).
        split; [exact Hframe|]. split.
        -- intros second w2 Hsecond. injection Hsecond as <- <-. simpl.
           split; [reflexivity|]. split; [reflexivity|]. now rewrite Hframe.
        -- intros Heq. now elim Hdiff.
      * split; [exact Hframe|]. split.
        -- intros second w2 Hsecond. discriminate Hsecond.
        -- intros Heq. now elim Hdiff.
Qed.

(** The theorem at the demo catalog and the empty store: the first call
    creates artist 1 from the catalog's record, the second returns it. *)
Lemma getArtistDetailsByExternalId_idempotent_witness :
  answersWithId Demo.catalog "artist123" "artist123"
  /\ MemPrisma.findArtist Demo.emptyDb (ArtistByExternalId "artist123") = None
  /\ exists first w1 second,
       ArtistsService.getArtistDetailsByExternalId MemPrisma.client Demo.catalog
         "artist123" (Demo.world Demo.emptyDb)
       = (Fulfilled first, w1)
       /\ ArtistsService.getArtistDetailsByExternalId MemPrisma.client
            Demo.catalog "artist123" w1
          = (Fulfilled second, w1)
       /\ artist second = artist first
       /\ In (artist first) (MemPrisma.db_artists (store w1))
       /\ artist_name (artist first) = "Test Artist"
       /\ artist_id (artist first) = 1.
Proof.
  assert (Hcontract : answersWithId Demo.catalog "artist123" "artist123").
  { intros token r r' a. simpl. intros Hget. injection Hget as <- _.
    reflexivity. }
  split; [exact Hcontract|]. split; [reflexivity|].
  destruct (proj2 (proj2 (@getArtistDetailsByExternalId_idempotent Demo.Log
                            Demo.catalog "artist123" "artist123"
                            (Demo.world Demo.emptyDb)))
              Hcontract _ _ eq_refl)
    as (Hstored & _ & _ & _ & Hagain).
  destruct (Hagain eq_refl) as (second & Hsecond & Hsame).
  eexists. eexists. exists second.
  split; [reflexivity|]. split; [exact Hsecond|].
  split; [exact Hsame|]. split; [exact Hstored|]. split; reflexivity.
Defined.

(** C1, the specification's wording refuted: a catalog that answers the
    lookups of one external id with two different ids makes two successive
    resolutions create two rows and return the local ids 1 and 2. *)
Theorem resolution_idempotent_as_specified_fails : ~ IdempotenceAsSpecified.holds.
Proof.
  intros Hholds.
  destruct (ArtistsService.getArtistDetailsByExternalId MemPrisma.client
              Demo.renamingCatalog "artist123" (Demo.world Demo.emptyDb))
    as [[first|e] w1] eqn:Hfirst; [|vm_compute in Hfirst; discriminate Hfirst].
  destruct (ArtistsService.getArtistDetailsByExternalId MemPrisma.client
              Demo.renamingCatalog "artist123" w1)
    as [[second|e] w2] eqn:Hsecond.
  2: { vm_compute in Hfirst. injection Hfirst as _ <-.
       vm_compute in Hsecond. discriminate Hsecond. }
  destruct (Hholds _ _ _ _ _ _ _ _ Hfirst Hsecond) as [Hid _].
  vm_compute in Hfirst. injection Hfirst as <- <-.
  vm_compute in Hsecond. injection Hsecond as <- _.
  discriminate Hid.
Qed.

Example renaming_catalog_demo :
  exists first w1 second w2,
    ArtistsService.getArtistDetailsByExternalId MemPrisma.client
      Demo.renamingCatalog "artist123" (Demo.world Demo.emptyDb)
    = (Fulfilled first, w1)
    /\ ArtistsService.getArtistDetailsByExternalId MemPrisma.client
         Demo.renamingCatalog "artist123" w1
       = (Fulfilled second, w2)
    /\ map artist_externalId (MemPrisma.db_artists (store w2))
       = ["artist-a"; "artist-b"]
    /\ artist_id (artist first) = 1
    /\ artist_id (artist second) = 2.
Proof.
  eexists. eexists. eexists. eexists.
  split; [vm_compute; reflexivity|]. split; [vm_compute; reflexivity|].
  split; [reflexivity|]. split; reflexivity.
Qed.

(** ** The albums of an artist *)

(** C6.  Over the in-memory store and any catalog, for an artist the store
    has under [artistId]: when the store has album rows for the artist,
    exactly those rows are returned and the world is as before; when it has
    none, the outcome is the outcome of the catalog client's
    [getArtistAlbums] for the artist's external id, and the store is as
    before. *)
Theorem getArtistAlbums_local_first :
  forall (R : Type) (env : Env R) (artistId_ : Z) (w : World MemPrisma.Db R)
         (a : Artist),
    MemPrisma.findArtist (store w) (ArtistById artistId_) = Some a ->
    (MemPrisma.albumsOf (store w) artistId_ <> [] ->
     ArtistsService.getArtistAlbums MemPrisma.client env artistId_ w
     = (Fulfilled (StoredAlbums (MemPrisma.albumsOf (store w) artistId_)), w)
     /\ forall al,
          In al (MemPrisma.albumsOf (store w) artistId_)
          <-> In al (MemPrisma.db_albums (store w)) /\ artistId al = artistId_)
    /\ (MemPrisma.albumsOf (store w) artistId_ = [] ->
        store (snd (ArtistsService.getArtistAlbums MemPrisma.client env artistId_ w))
        = store w
        /\ ArtistsService.getArtistAlbums MemPrisma.client env artistId_ w
           = match MusicApiService.getArtistAlbums env (artist_externalId a) 50 w with
             | (Fulfilled externalAlbums, w') =>
                 (Fulfilled (CatalogAlbums externalAlbums), w')
             | (Rejected e, w') => (Rejected e, w')
             end).
Proof.
  intros R env artistId_ w a Hartist.
  assert (Hrun :
    ArtistsService.getArtistAlbums MemPrisma.client env artistId_ w
    = match MemPrisma.albumsOf (store w) artistId_ with
      | _ :: _ => (Fulfilled (StoredAlbums (MemPrisma.albumsOf (store w) artistId_)), w)
      | [] =>
          match MusicApiService.getArtistAlbums env (artist_externalId a) 50 w with
          | (Fulfilled externalAlbums, w') =>
              (Fulfilled (CatalogAlbums externalAlbums), w')
          | (Rejected e, w') => (Rejected e, w')
          end
      end).
  { unfold ArtistsService.getArtistAlbums, bind, liftStore, ret. simpl.
    unfold MemPrisma.artist_findUnique, MemPrisma.album_findMany.
    rewrite Hartist. simpl. rewrite !withStore_same.
    destruct (MemPrisma.albumsOf (store w) artistId_); reflexivity. }
  split.
  - intros Hsome. split; [|intros al; apply albumsOf_in].
    rewrite Hrun.
    destruct (MemPrisma.albumsOf (store w) artistId_); [now elim Hsome|reflexivity].
  - intros Hnone. rewrite Hrun, Hnone. split; [|reflexivity].
    pose proof (getArtistAlbums_store env (artist_externalId a) 50 w) as Hframe.
    destruct (MusicApiService.getArtistAlbums env (artist_externalId a) 50 w)
      as [[externalAlbums|e] w']; exact Hframe.
Qed.

(** The theorem at the demo artist, first without album rows (the catalog's
    records come back and the store keeps no album), then with one. *)
Lemma getArtistAlbums_local_first_witness :
  (exists externalAlbums w',
      ArtistsService.getArtistAlbums MemPrisma.client Demo.catalog 1
        (Demo.world Demo.artistOnlyDb)
      = (Fulfilled (CatalogAlbums externalAlbums), w')
      /\ store w' = Demo.artistOnlyDb)
  /\ ArtistsService.getArtistAlbums MemPrisma.client Demo.catalog 1
       (Demo.world Demo.albumDb)
     = (Fulfilled (StoredAlbums [Demo.testAlbum]), Demo.world Demo.albumDb).
Proof.
  split.
  - destruct (@getArtistAlbums_local_first Demo.Log Demo.catalog 1
                (Demo.world Demo.artistOnlyDb) Demo.testArtist eq_refl)
      as [_ Hcatalog].
    destruct (Hcatalog eq_refl) as [Hstore Hrun].
    eexists. eexists. split; [rewrite Hrun; reflexivity|reflexivity].
  - destruct (@getArtistAlbums_local_first Demo.Log Demo.catalog 1
                (Demo.world Demo.albumDb) Demo.testArtist eq_refl)
      as [Hlocal _].
    exact (proj1 (Hlocal ltac:(discriminate))).
Defined.

(** ** Duplicate rows at creation *)

Section Duplicate.

Variables W A : Type.

Lemma rethrowDuplicate_P2002 (message : string) (error : Exception) (w : W) :
  code error = Some "P2002" ->
  @rethrowDuplicate W A message error w = (Rejected (ConflictException message), w).
Proof.
  intros Hcode. unfold rethrowDuplicate. rewrite Hcode. reflexivity.
Qed.

Lemma rethrowDuplicate_other (message : string) (error : Exception) (w : W) :
  code error <> Some "P2002" ->
  @rethrowDuplicate W A message error w = (Rejected error, w).
Proof.
  intros Hcode. unfold rethrowDuplicate.
  destruct (code error) as [c|]; [|reflexivity].
  destruct (c =? "P2002")%string eqn:Ec; [|reflexivity].
  apply String.eqb_eq in Ec. subst c. now elim Hcode.
Qed.

End Duplicate.

Lemma rethrowDuplicate_translated (W A : Type) (message : string)
    (error : Exception) (w : W) :
  raisesTranslated message error (@rethrowDuplicate W A message error w) w.
Proof.
  split; intros Hcode.
  - now apply rethrowDuplicate_P2002.
  - now apply rethrowDuplicate_other.
Qed.

(** C7.  For any Prisma client and any catalog, by what the client and the
    catalog answer inside the creation.
    [ArtistsService.create]: when the lookup by external id finds a row, that
    row is returned and nothing is inserted; when it finds none, the row is
    inserted and returned.  An error of the lookup or of the insert is raised
    translated: as the [ConflictException] when its code is P2002, as it is
    otherwise (see [raisesTranslated]).
    [AlbumsService.create]: the same for the lookup of the album and its
    insert, made under the artist that was found or created; the artist is
    looked up by external id, and when none is found the catalog's record is
    created through [ArtistsService.create]; an error of the artist lookup,
    of the catalog or of the artist's creation is raised translated too. *)
Theorem create_translates_unique_violation :
  forall (D R : Type) (prisma : PrismaClient D) (env : Env R) (w : World D R),
    (forall (data : CreateArtistDto),
        let message := "Artist with this external ID already exists" in
        let lookup :=
          artist_findUnique prisma (ArtistByExternalId (ca_externalId data)) false
            (store w) in
        (forall existing d1,
            lookup = (Fulfilled (Some existing), d1) ->
            ArtistsService.create prisma data w
            = (Fulfilled existing, withStore w d1))
        /\ (forall error d1,
               lookup = (Rejected error, d1) ->
               raisesTranslated message error (ArtistsService.create prisma data w)
                 (withStore w d1))
        /\ (forall d1,
               lookup = (Fulfilled None, d1) ->
               (forall created d2,
                   artist_create prisma data d1 = (Fulfilled created, d2) ->
                   ArtistsService.create prisma data w
                   = (Fulfilled {| artist := created; artist_albums := None |},
                      withStore w d2))
               /\ (forall error d2,
                      artist_create prisma data d1 = (Rejected error, d2) ->
                      raisesTranslated message error
                        (ArtistsService.create prisma data w) (withStore w d2))))
    /\ (forall (data : CreateAlbumDto),
          let message := "Album with this external ID already exists" in
          let lookup :=
            album_findUnique prisma (AlbumByExternalId (cb_externalId data))
              (store w) in
          (forall existing d1,
              lookup = (Fulfilled (Some existing), d1) ->
              AlbumsService.create prisma env data w
              = (Fulfilled {| album := existing; album_artist := None |},
                 withStore w d1))
          /\ (forall error d1,
                 lookup = (Rejected error, d1) ->
                 raisesTranslated message error
                   (AlbumsService.create prisma env data w) (withStore w d1))
          /\ (forall d1,
                 lookup = (Fulfilled None, d1) ->
                 let w1 := withStore w d1 in
                 let artistLookup :=
                   artist_findUnique prisma
                     (ArtistByExternalId (cb_artistExternalId data)) false d1 in
                 (forall error d2,
                     artistLookup = (Rejected error, d2) ->
                     AlbumsService.findOrCreateArtist prisma env data w1
                     = (Rejected error, withStore w1 d2))
                 /\ (forall owner d2,
                        artistLookup = (Fulfilled (Some owner), d2) ->
                        AlbumsService.findOrCreateArtist prisma env data w1
                        = (Fulfilled owner, withStore w1 d2))
                 /\ (forall d2,
                        artistLookup = (Fulfilled None, d2) ->
                        AlbumsService.findOrCreateArtist prisma env data w1
                        = match MusicApiService.getArtistDetails env
                                  (cb_artistExternalId data) (withStore w1 d2) with
                          | (Rejected error, w3) => (Rejected error, w3)
                          | (Fulfilled artistDetails, w3) =>
                              ArtistsService.create prisma
                                {| ca_externalId := a_externalId artistDetails;
                                   ca_name := a_name artistDetails;
                                   ca_imageUrl := a_imageUrl artistDetails |} w3
                          end)
                 /\ (forall error w2,
                        AlbumsService.findOrCreateArtist prisma env data w1
                        = (Rejected error, w2) ->
                        raisesTranslated message error
                          (AlbumsService.create prisma env data w) w2)
                 /\ (forall owner w2,
                        AlbumsService.findOrCreateArtist prisma env data w1
                        = (Fulfilled owner, w2) ->
                        (forall created d3,
                            album_create prisma (AlbumsService.albumInput data owner)
                              (store w2)
                            = (Fulfilled created, d3) ->
                            AlbumsService.create prisma env data w
                            = (Fulfilled created, withStore w2 d3))
                        /\ (forall error d3,
                               album_create prisma
                                 (AlbumsService.albumInput data owner) (store w2)
                               = (Rejected error, d3) ->
                               raisesTranslated message error
                                 (AlbumsService.create prisma env data w)
                                 (withStore w2 d3))))).
Proof.
  intros D R prisma env w. split.
  - intros data message lookup. subst lookup. split; [|split].
    + intros existing d1 Hfind.
      unfold ArtistsService.create, try_catch, bind, liftStore, ret.
      rewrite Hfind. reflexivity.
    + intros error d1 Hfind.
      assert (Hrun :
        ArtistsService.create prisma data w
        = rethrowDuplicate message error (withStore w d1)).
      { unfold ArtistsService.create, try_catch, bind, liftStore, ret.
        rewrite Hfind. reflexivity. }
      rewrite Hrun. apply rethrowDuplicate_translated.
    + intros d1 Hfind. split.
      * intros created d2 Hinsert.
        unfold ArtistsService.create, try_catch, bind, liftStore, ret.
        rewrite Hfind. simpl. rewrite Hinsert. reflexivity.
      * intros error d2 Hinsert.
        assert (Hrun :
          ArtistsService.create prisma data w
          = rethrowDuplicate message error (withStore w d2)).
        { unfold ArtistsService.create, try_catch, bind, liftStore, ret.
          rewrite Hfind. simpl. rewrite Hinsert. reflexivity. }
        rewrite Hrun. apply rethrowDuplicate_translated.
  - intros data message lookup. subst lookup. split; [|split].
    + intros existing d1 Hfind.
      unfold AlbumsService.create, try_catch, bind, liftStore, ret.
      rewrite Hfind. reflexivity.
    + intros error d1 Hfind.
      assert (Hrun :
        AlbumsService.create prisma env data w
        = rethrowDuplicate message error (withStore w d1)).
      { unfold AlbumsService.create, try_catch, bind, liftStore, ret.
        rewrite Hfind. reflexivity. }
      rewrite Hrun. apply rethrowDuplicate_translated.
    + intros d1 Hfind w1 artistLookup. subst artistLookup.
      split; [|split; [|split; [|split]]].
      * intros error d2 Hartist.
        unfold AlbumsService.findOrCreateArtist, bind, liftStore.
        subst w1. simpl. rewrite Hartist. reflexivity.
      * intros owner d2 Hartist.
        unfold AlbumsService.findOrCreateArtist, bind, liftStore, ret.
        subst w1. simpl. rewrite Hartist. reflexivity.
      * intros d2 Hartist.
        unfold AlbumsService.findOrCreateArtist, bind, liftStore.
        subst w1. simpl. rewrite Hartist.
        destruct (MusicApiService.getArtistDetails env (cb_artistExternalId data) _)
          as [[artistDetails|e] w3]; reflexivity.
      * intros error w2 Howner.
        assert (Hrun :
          AlbumsService.create prisma env data w
          = rethrowDuplicate message error w2).
        { unfold AlbumsService.create, try_catch, bind, liftStore.
          rewrite Hfind. fold w1. rewrite Howner. reflexivity. }
        rewrite Hrun. apply rethrowDuplicate_translated.
      * intros owner w2 Howner. split.
        -- intros created d3 Hinsert.
           unfold AlbumsService.create, try_catch, bind, liftStore.
           rewrite Hfind. fold w1. rewrite Howner. rewrite Hinsert. reflexivity.
        -- intros error d3 Hinsert.
           assert (Hrun :
             AlbumsService.create prisma env data w
             = rethrowDuplicate message error (withStore w2 d3)).
           { unfold AlbumsService.create, try_catch, bind, liftStore.
             rewrite Hfind. fold w1. rewrite Howner. rewrite Hinsert. reflexivity. }
           rewrite Hrun. apply rethrowDuplicate_translated.
Qed.

(** The theorem at four clients: the store that has the rows, one where a
    concurrent request inserts the same artist or album between the lookup
    and the insert, one whose connection drops at the insert, and one whose
    connection is down at the lookup. *)
Lemma create_translates_unique_violation_witness :
  let data :=
    {| ca_externalId := "artist123"; ca_name := "Test Artist";
       ca_imageUrl := None |} in
  let albumData :=
    {| cb_externalId := "album123"; cb_title := "Test Album";
       cb_releaseDate := Some "2023-01-01"; cb_coverUrl := None;
       cb_artistExternalId := "artist123" |} in
  (fst (ArtistsService.create MemPrisma.client data (Demo.world Demo.albumDb))
   = Fulfilled {| artist := Demo.testArtist; artist_albums := None |}
   /\ fst (ArtistsService.create Demo.racingClient data (Demo.world Demo.emptyDb))
      = Rejected (ConflictException "Artist with this external ID already exists")
   /\ fst (ArtistsService.create Demo.failingClient data (Demo.world Demo.emptyDb))
      = Rejected (Error "Can't reach database server" (Some "P1001"))
   /\ fst (ArtistsService.create Demo.downClient data (Demo.world Demo.emptyDb))
      = Rejected (Error "Can't reach database server" (Some "P1001")))
  /\ (fst (AlbumsService.create MemPrisma.client Demo.catalog albumData
             (Demo.world Demo.albumDb))
      = Fulfilled {| album := Demo.testAlbum; album_artist := None |}
      /\ fst (AlbumsService.create Demo.racingClient Demo.catalog albumData
                (Demo.world Demo.artistOnlyDb))
         = Rejected (ConflictException "Album with this external ID already exists")
      /\ fst (AlbumsService.create Demo.failingClient Demo.catalog albumData
                (Demo.world Demo.artistOnlyDb))
         = Rejected (Error "Can't reach database server" (Some "P1001"))
      /\ fst (AlbumsService.create Demo.downClient Demo.catalog albumData
                (Demo.world Demo.artistOnlyDb))
         = Rejected (Error "Can't reach database server" (Some "P1001"))).
Proof.
  intros data albumData. split; split; [|split; [|split]| |split; [|split]].
  - destruct (@create_translates_unique_violation _ Demo.Log MemPrisma.client
                Demo.catalog (Demo.world Demo.albumDb)) as [Hartist _].
    destruct (Hartist data) as [Hexisting _].
    rewrite (Hexisting _ _ eq_refl). reflexivity.
  - destruct (@create_translates_unique_violation _ Demo.Log Demo.racingClient
                Demo.catalog (Demo.world Demo.emptyDb)) as [Hartist _].
    destruct (Hartist data) as (_ & _ & Hmiss).
    destruct (Hmiss _ eq_refl) as [_ Hinsert].
    destruct (Hinsert _ _ eq_refl) as [Hdup _].
    rewrite (Hdup eq_refl). reflexivity.
  - destruct (@create_translates_unique_violation _ Demo.Log Demo.failingClient
                Demo.catalog (Demo.world Demo.emptyDb)) as [Hartist _].
    destruct (Hartist data) as (_ & _ & Hmiss).
    destruct (Hmiss _ eq_refl) as [_ Hinsert].
    destruct (Hinsert _ _ eq_refl) as [_ Hother].
    rewrite (Hother ltac:(discriminate)). reflexivity.
  - destruct (@create_translates_unique_violation _ Demo.Log Demo.downClient
                Demo.catalog (Demo.world Demo.emptyDb)) as [Hartist _].
    destruct (Hartist data) as (_ & Hlookup & _).
    destruct (Hlookup _ _ eq_refl) as [_ Hother].
    rewrite (Hother ltac:(discriminate)). reflexivity.
  - destruct (@create_translates_unique_violation _ Demo.Log MemPrisma.client
                Demo.catalog (Demo.world Demo.albumDb)) as [_ Halbum].
    destruct (Halbum albumData) as [Hexisting _].
    rewrite (Hexisting _ _ eq_refl). reflexivity.
  - destruct (@create_translates_unique_violation _ Demo.Log Demo.racingClient
                Demo.catalog (Demo.world Demo.artistOnlyDb)) as [_ Halbum].
    destruct (Halbum albumData) as (_ & _ & Hmiss).
    destruct (Hmiss _ eq_refl) as (_ & _ & _ & _ & Hinsert).
    destruct (Hinsert _ _ eq_refl) as [_ Hrejected].
    destruct (Hrejected _ _ eq_refl) as [Hdup _].
    rewrite (Hdup eq_refl). reflexivity.
  - destruct (@create_translates_unique_violation _ Demo.Log Demo.failingClient
                Demo.catalog (Demo.world Demo.artistOnlyDb)) as [_ Halbum].
    destruct (Halbum albumData) as (_ & _ & Hmiss).
    destruct (Hmiss _ eq_refl) as (_ & _ & _ & _ & Hinsert).
    destruct (Hinsert _ _ eq_refl) as [_ Hrejected].
    destruct (Hrejected _ _ eq_refl) as [_ Hother].
    rewrite (Hother ltac:(discriminate)). reflexivity.
  - destruct (@create_translates_unique_violation _ Demo.Log Demo.downClient
                Demo.catalog (Demo.world Demo.artistOnlyDb)) as [_ Halbum].
    destruct (Halbum albumData) as (_ & Hlookup & _).
    destruct (Hlookup _ _ eq_refl) as [_ Hother].
    rewrite (Hother ltac:(discriminate)). reflexivity.
Defined.

(** ** Reviews: creation, ownership *)

Section ReviewRows.

Import MemPrisma.

Lemma find_some_of {A} (f : A -> bool) (l : list A) (x : A) :
  In x l -> f x = true -> exists y, find f l = Some y.
Proof.
  intros Hin Hfx. destruct (find f l) as [y|] eqn:Hfind; [eauto|].
  rewrite (find_none f l Hfind x Hin) in Hfx. discriminate.
Qed.

Lemma findAlbum_of_hasAlbum (db : Db) (i : Z) :
  hasAlbum db i -> exists a, findAlbum db (AlbumById i) = Some a.
Proof.
  intros (a & Hin & Hid). apply (find_some_of _ _ a Hin).
  simpl. now apply Z.eqb_eq.
Qed.

Lemma findUser_of_hasUser (db : Db) (i : Z) :
  hasUser db i -> exists u, findUser db i = Some u.
Proof.
  intros (u & Hin & Hid). apply (find_some_of _ _ u Hin). now apply Z.eqb_eq.
Qed.

Lemma findReview_of_hasReviewOf (db : Db) (u a : Z) :
  hasReviewOf db u a -> exists r, findReview db (ReviewByUserIdAlbumId u a) = Some r.
Proof.
  intros (r & Hin & Hu & Ha). apply (find_some_of _ _ r Hin).
  simpl. subst. now rewrite !Z.eqb_refl.
Qed.

Lemma findAlbum_none_of (db : Db) (i : Z) :
  ~ hasAlbum db i -> findAlbum db (AlbumById i) = None.
Proof.
  intros Hnone. apply findAlbum_none_iff. intros a Hin Hid.
  apply Hnone. now exists a.
Qed.

Lemma findReview_pair_none_of (db : Db) (u a : Z) :
  ~ hasReviewOf db u a -> findReview db (ReviewByUserIdAlbumId u a) = None.
Proof.
  intros Hnone. apply findReview_pair_none_iff. intros r Hin [Hu Ha].
  apply Hnone. now exists r.
Qed.

Lemma findReview_id_none_of (db : Db) (i : Z) :
  ~ hasReview db i -> findReview db (ReviewById i) = None.
Proof.
  intros Hnone. apply findReview_id_none_iff. intros r Hin Hid.
  apply Hnone. now exists r.
Qed.

(** [create] in terms of what the store finds. *)
Lemma review_create_run (db : Db) (userId_ : Z) (dto : CreateReviewDto) :
  ReviewsService.create client userId_ dto db
  = match findAlbum db (AlbumById (cr_albumId dto)) with
    | None =>
        (Rejected
           (NotFoundException
              ("Album with ID " ++ showZ (cr_albumId dto) ++ " not found")), db)
    | Some _ =>
        match findReview db (ReviewByUserIdAlbumId userId_ (cr_albumId dto)) with
        | Some _ =>
            (Rejected (ConflictException "You have already reviewed this album"), db)
        | None =>
            review_create
              {| ri_userId := userId_;
                 ri_albumId := cr_albumId dto;
                 ri_rating := cr_rating dto;
                 ri_comment := cr_comment dto |} db
        end
    end.
Proof.
  unfold ReviewsService.create, bind, throw. simpl.
  unfold album_findUnique, review_findUnique.
  destruct (findAlbum db (AlbumById (cr_albumId dto))); [|reflexivity].
  destruct (findReview db (ReviewByUserIdAlbumId userId_ (cr_albumId dto)));
    reflexivity.
Qed.

End ReviewRows.

(** C3.  Over the in-memory store.
    - No album row has the id: NotFound, store unchanged.
    - The album exists and a review row of (userId, albumId) exists:
      Conflict, store unchanged.
    - The album exists and no such review exists: the outcome is the store's
      insert of the row with the given user, album, rating and comment.
    - When moreover the acting user is a row of the store (the insert checks
      the foreign key), that row is appended to the reviews, nothing else
      changes, and any further creation for the same user and album is
      rejected with Conflict. *)
Theorem review_create_once :
  forall (db : MemPrisma.Db) (userId_ : Z) (dto : CreateReviewDto),
    (~ MemPrisma.hasAlbum db (cr_albumId dto) ->
     ReviewsService.create MemPrisma.client userId_ dto db
     = (Rejected
          (NotFoundException
             ("Album with ID " ++ showZ (cr_albumId dto) ++ " not found")), db))
    /\ (MemPrisma.hasAlbum db (cr_albumId dto) ->
        MemPrisma.hasReviewOf db userId_ (cr_albumId dto) ->
        ReviewsService.create MemPrisma.client userId_ dto db
        = (Rejected (ConflictException "You have already reviewed this album"), db))
    /\ (MemPrisma.hasAlbum db (cr_albumId dto) ->
        ~ MemPrisma.hasReviewOf db userId_ (cr_albumId dto) ->
        ReviewsService.create MemPrisma.client userId_ dto db
        = MemPrisma.review_create
            {| ri_userId := userId_;
               ri_albumId := cr_albumId dto;
               ri_rating := cr_rating dto;
               ri_comment := cr_comment dto |} db)
    /\ (MemPrisma.hasAlbum db (cr_albumId dto) ->
        ~ MemPrisma.hasReviewOf db userId_ (cr_albumId dto) ->
        MemPrisma.hasUser db userId_ ->
        exists payload db',
          ReviewsService.create MemPrisma.client userId_ dto db
          = (Fulfilled payload, db')
          /\ rating (review payload) = cr_rating dto
          /\ comment (review payload) = cr_comment dto
          /\ userId (review payload) = userId_
          /\ albumId (review payload) = cr_albumId dto
          /\ MemPrisma.db_reviews db'
             = (MemPrisma.db_reviews db ++ [review payload])%list
          /\ MemPrisma.db_users db' = MemPrisma.db_users db
          /\ MemPrisma.db_artists db' = MemPrisma.db_artists db
          /\ MemPrisma.db_albums db' = MemPrisma.db_albums db
          /\ forall dto2,
               cr_albumId dto2 = cr_albumId dto ->
               ReviewsService.create MemPrisma.client userId_ dto2 db'
               = (Rejected (ConflictException "You have already reviewed this album"),
                  db')).
Proof.
  intros db userId_ dto. split; [|split; [|split]].
  - intros Hnone. rewrite review_create_run.
    now rewrite (findAlbum_none_of Hnone).
  - intros Halbum Hreview. rewrite review_create_run.
    destruct (findAlbum_of_hasAlbum Halbum) as [al ->].
    destruct (findReview_of_hasReviewOf Hreview) as [r ->]. reflexivity.
  - intros Halbum Hnone. rewrite review_create_run.
    destruct (findAlbum_of_hasAlbum Halbum) as [al ->].
    now rewrite (findReview_pair_none_of Hnone).
  - intros Halbum Hnone Huser. rewrite review_create_run.
    destruct (findAlbum_of_hasAlbum Halbum) as [al Hal].
    destruct (findUser_of_hasUser Huser) as [u Hu].
    pose proof (findReview_pair_none_of Hnone) as Hrev.
    rewrite Hal, Hrev. unfold MemPrisma.review_create. simpl.
    rewrite Hrev, Hu, Hal.
    eexists. eexists. split; [reflexivity|]. simpl.
    repeat (split; [reflexivity|]).
    intros dto2 Hsame. rewrite review_create_run. rewrite Hsame.
    unfold MemPrisma.findAlbum, MemPrisma.findReview. simpl.
    fold (MemPrisma.findAlbum db (AlbumById (cr_albumId dto))). rewrite Hal.
    rewrite find_app_last by exact Hrev.
    simpl. rewrite !Z.eqb_refl. reflexivity.
Qed.

(** The theorem at the demo store: album 9 does not exist; Alice has reviewed
    album 1 in [reviewedDb]; in [albumDb] she has not, and her review is
    stored as given. *)
Lemma review_create_once_witness :
  fst (ReviewsService.create MemPrisma.client 1
         {| cr_albumId := 9; cr_rating := 5; cr_comment := None |} Demo.albumDb)
  = Rejected (NotFoundException "Album with ID 9 not found")
  /\ fst (ReviewsService.create MemPrisma.client 1
            {| cr_albumId := 1; cr_rating := 5; cr_comment := None |}
            Demo.reviewedDb)
     = Rejected (ConflictException "You have already reviewed this album")
  /\ exists payload db',
       ReviewsService.create MemPrisma.client 1
         {| cr_albumId := 1; cr_rating := 5; cr_comment := Some "Superb" |}
         Demo.albumDb
       = (Fulfilled payload, db')
       /\ rating (review payload) = 5
       /\ comment (review payload) = Some "Superb"
       /\ fst (ReviewsService.create MemPrisma.client 1
                 {| cr_albumId := 1; cr_rating := 2; cr_comment := None |} db')
          = Rejected (ConflictException "You have already reviewed this album").
Proof.
  assert (Halbum : MemPrisma.hasAlbum Demo.albumDb 1).
  { exists Demo.testAlbum. split; [now left|reflexivity]. }
  split; [|split].
  - destruct (review_create_once Demo.albumDb 1
                {| cr_albumId := 9; cr_rating := 5; cr_comment := None |})
      as (Hnotfound & _ & _ & _).
    rewrite Hnotfound; [reflexivity|].
    intros (a & [<- | []] & Hid). discriminate Hid.
  - destruct (review_create_once Demo.reviewedDb 1
                {| cr_albumId := 1; cr_rating := 5; cr_comment := None |})
      as (_ & Hconflict & _ & _).
    rewrite Hconflict; [reflexivity| |].
    + exists Demo.testAlbum. split; [now left|reflexivity].
    + exists Demo.aliceReview. split; [now left|split; reflexivity].
  - destruct (review_create_once Demo.albumDb 1
                {| cr_albumId := 1; cr_rating := 5; cr_comment := Some "Superb" |})
      as (_ & _ & _ & Hinsert).
    destruct Hinsert as (payload & db' & Hrun & Hrating & Hcomment & _ & _ & _
                         & _ & _ & _ & Hagain).
    + exact Halbum.
    + intros (r & [] & _).
    + exists Demo.alice. split; [now left|reflexivity].
    + exists payload, db'. split; [exact Hrun|].
      split; [exact Hrating|]. split; [exact Hcomment|].
      rewrite (Hagain {| cr_albumId := 1; cr_rating := 2; cr_comment := None |}
                 eq_refl).
      reflexivity.
Defined.

Section ReviewOwnership.

Import MemPrisma.

Lemma review_update_run (db : Db) (id_ actor : Z) (patch : UpdateReviewDto) :
  ReviewsService.update client id_ actor patch db
  = match findReview db (ReviewById id_) with
    | None =>
        (Rejected (NotFoundException ("Review with ID " ++ showZ id_ ++ " not found")),
         db)
    | Some r =>
        if userId r =? actor then review_update id_ patch db
        else (Rejected (ForbiddenException "You can only update your own reviews"), db)
    end.
Proof.
  unfold ReviewsService.update, bind, throw. simpl. unfold review_findUnique.
  destruct (findReview db (ReviewById id_)) as [r|]; [|reflexivity].
  destruct (userId r =? actor); reflexivity.
Qed.

Lemma review_remove_run (db : Db) (id_ actor : Z) :
  ReviewsService.remove client id_ actor db
  = match findReview db (ReviewById id_) with
    | None =>
        (Rejected (NotFoundException ("Review with ID " ++ showZ id_ ++ " not found")),
         db)
    | Some r =>
        if userId r =? actor then review_delete id_ db
        else (Rejected (ForbiddenException "You can only delete your own reviews"), db)
    end.
Proof.
  unfold ReviewsService.remove, bind, throw. simpl. unfold review_findUnique.
  destruct (findReview db (ReviewById id_)) as [r|]; [|reflexivity].
  destruct (userId r =? actor); reflexivity.
Qed.

Lemma in_map_other (f : Review -> Review) (i : Z) (l : list Review) (x : Review) :
  review_id x <> i ->
  In x l ->
  In x (map (fun y => if review_id y =? i then f y else y) l).
Proof.
  intros Hother Hin. apply in_map_iff. exists x. split; [|exact Hin].
  apply Z.eqb_neq in Hother. now rewrite Hother.
Qed.

End ReviewOwnership.

(** C4.  Over the in-memory store, for [update] and [remove] of the review
    [id_] by the user [actor].
    - No review row has the id: both fail NotFound, store unchanged.
    - The store finds the row [r] and [r] is another user's: both fail
      Forbidden, store unchanged.
    - [r] is the actor's: [update] returns [r] with the rating and the comment
      of the patch where the patch gives them, and its other columns as they
      were; the stored rows with that id become the patched row and every
      other row and table stays; [remove] returns [r], after it no row has
      the id and every other review row stays. *)
Theorem review_update_remove_by_owner :
  forall (db : MemPrisma.Db) (id_ actor : Z) (patch : UpdateReviewDto),
    (~ MemPrisma.hasReview db id_ ->
     ReviewsService.update MemPrisma.client id_ actor patch db
     = (Rejected (NotFoundException ("Review with ID " ++ showZ id_ ++ " not found")),
        db)
     /\ ReviewsService.remove MemPrisma.client id_ actor db
        = (Rejected (NotFoundException ("Review with ID " ++ showZ id_ ++ " not found")),
           db))
    /\ (forall r,
          MemPrisma.findReview db (ReviewById id_) = Some r ->
          (In r (MemPrisma.db_reviews db) /\ review_id r = id_)
          /\ (userId r <> actor ->
              ReviewsService.update MemPrisma.client id_ actor patch db
              = (Rejected (ForbiddenException "You can only update your own reviews"),
                 db)
              /\ ReviewsService.remove MemPrisma.client id_ actor db
                 = (Rejected (ForbiddenException "You can only delete your own reviews"),
                    db))
          /\ (userId r = actor ->
              (exists payload db',
                  ReviewsService.update MemPrisma.client id_ actor patch db
                  = (Fulfilled payload, db')
                  /\ rating (review payload)
                     = match up_rating patch with Some x => x | None => rating r end
                  /\ comment (review payload)
                     = match up_comment patch with
                       | Some c => Some c
                       | None => comment r
                       end
                  /\ review_id (review payload) = review_id r
                  /\ userId (review payload) = userId r
                  /\ albumId (review payload) = albumId r
                  /\ createdAt (review payload) = createdAt r
                  /\ MemPrisma.db_reviews db'
                     = map (fun x =>
                              if review_id x =? id_
                              then MemPrisma.applyPatch patch x else x)
                         (MemPrisma.db_reviews db)
                  /\ (forall x, In x (MemPrisma.db_reviews db) ->
                                review_id x <> id_ ->
                                In x (MemPrisma.db_reviews db'))
                  /\ MemPrisma.db_users db' = MemPrisma.db_users db
                  /\ MemPrisma.db_artists db' = MemPrisma.db_artists db
                  /\ MemPrisma.db_albums db' = MemPrisma.db_albums db)
              /\ (exists db',
                     ReviewsService.remove MemPrisma.client id_ actor db
                     = (Fulfilled r, db')
                     /\ ~ MemPrisma.hasReview db' id_
                     /\ (forall x, In x (MemPrisma.db_reviews db') <->
                                   In x (MemPrisma.db_reviews db)
                                   /\ review_id x <> id_)
                     /\ MemPrisma.db_users db' = MemPrisma.db_users db
                     /\ MemPrisma.db_artists db' = MemPrisma.db_artists db
                     /\ MemPrisma.db_albums db' = MemPrisma.db_albums db))).
Proof.
  intros db id_ actor patch. split.
  - intros Hnone. rewrite review_update_run, review_remove_run.
    rewrite (findReview_id_none_of Hnone). split; reflexivity.
  - intros r Hfind.
    assert (Hrow : In r (MemPrisma.db_reviews db) /\ review_id r = id_).
    { apply find_some in Hfind. destruct Hfind as [Hin Hid].
      split; [exact Hin|]. now apply Z.eqb_eq. }
    split; [exact Hrow|]. split.
    + intros Hother. rewrite review_update_run, review_remove_run, Hfind.
      apply Z.eqb_neq in Hother. rewrite Hother. split; reflexivity.
    + intros Howner. apply Z.eqb_eq in Howner. split.
      * rewrite review_update_run, Hfind, Howner.
        unfold MemPrisma.review_update. rewrite Hfind.
        eexists. eexists. split; [reflexivity|]. simpl.
        repeat (split; [reflexivity|]).
        split; [|repeat split].
        intros x Hin Hother. now apply in_map_other.
      * rewrite review_remove_run, Hfind, Howner.
        unfold MemPrisma.review_delete. rewrite Hfind.
        eexists. split; [reflexivity|]. simpl.
        split; [|split; [|repeat split]].
        -- intros (x & Hin & Hid). simpl in Hin.
           apply filter_In in Hin. destruct Hin as [_ Hkeep].
           apply Z.eqb_eq in Hid. rewrite Hid in Hkeep. discriminate.
        -- intros x. rewrite filter_In.
           rewrite negb_true_iff, Z.eqb_neq. reflexivity.
Qed.

(** The theorem at the demo store with a review by Alice (1) and one by Bob
    (2): review 7 does not exist; Bob may not touch review 1; Alice changes
    its rating only, then deletes it. *)
Lemma review_update_remove_by_owner_witness :
  fst (ReviewsService.update MemPrisma.client 7 1
         {| up_rating := Some 5; up_comment := None |} Demo.reviewedDb)
  = Rejected (NotFoundException "Review with ID 7 not found")
  /\ ReviewsService.remove MemPrisma.client 1 2 Demo.reviewedDb
     = (Rejected (ForbiddenException "You can only delete your own reviews"),
        Demo.reviewedDb)
  /\ (exists payload db',
         ReviewsService.update MemPrisma.client 1 1
           {| up_rating := Some 5; up_comment := None |} Demo.reviewedDb
         = (Fulfilled payload, db')
         /\ rating (review payload) = 5
         /\ comment (review payload) = Some "Great album!")
  /\ exists db',
       ReviewsService.remove MemPrisma.client 1 1 Demo.reviewedDb
       = (Fulfilled Demo.aliceReview, db')
       /\ ~ MemPrisma.hasReview db' 1.
Proof.
  split; [|split; [|split]].
  - destruct (review_update_remove_by_owner Demo.reviewedDb 7 1
                {| up_rating := Some 5; up_comment := None |}) as [Hnone _].
    destruct Hnone as [Hupdate _].
    + intros (r & [<- | [<- | []]] & Hid); discriminate Hid.
    + rewrite Hupdate. reflexivity.
  - destruct (review_update_remove_by_owner Demo.reviewedDb 1 2
                {| up_rating := None; up_comment := None |}) as [_ Hfound].
    destruct (Hfound Demo.aliceReview eq_refl) as (_ & Hforbidden & _).
    exact (proj2 (Hforbidden ltac:(discriminate))).
  - destruct (review_update_remove_by_owner Demo.reviewedDb 1 1
                {| up_rating := Some 5; up_comment := None |}) as [_ Hfound].
    destruct (Hfound Demo.aliceReview eq_refl) as (_ & _ & Howner).
    destruct (Howner eq_refl) as [(payload & db' & Hrun & Hrating & Hcomment & _) _].
    exists payload, db'. repeat split; assumption.
  - destruct (review_update_remove_by_owner Demo.reviewedDb 1 1
                {| up_rating := None; up_comment := None |}) as [_ Hfound].
    destruct (Hfound Demo.aliceReview eq_refl) as (_ & _ & Howner).
    destruct (Howner eq_refl) as [_ (db' & Hrun & Hgone & _)].
    exists db'. split; assumption.
Defined.

(** ** Reviews: listings *)

Section Listings.

Import MemPrisma.

Lemma insertDesc_perm (r : Review) (l : list Review) :
  Permutation (insertDesc r l) (r :: l).
Proof.
  induction l as [|x l IH]; simpl.
  - apply Permutation_refl.
  - destruct (createdAt x <=? createdAt r).
    + apply Permutation_refl.
    + apply perm_trans with (x :: r :: l).
      * now apply perm_skip.
      * apply perm_swap.
Qed.

Lemma orderByCreatedAtDesc_perm (l : list Review) :
  Permutation (orderByCreatedAtDesc l) l.
Proof.
  induction l as [|x l IH]; simpl.
  - apply perm_nil.
  - apply perm_trans with (x :: orderByCreatedAtDesc l).
    + apply insertDesc_perm.
    + now apply perm_skip.
Qed.

Lemma insertDesc_descending (r : Review) (l : list Review) :
  descending l -> descending (insertDesc r l).
Proof.
  unfold descending. induction l as [|x l IH]; simpl; intros Hsorted.
  - constructor; constructor.
  - inversion Hsorted as [|? ? Hrest Hhead]; subst.
    destruct (createdAt x <=? createdAt r) eqn:Hcmp.
    + apply Z.leb_le in Hcmp. constructor; [exact Hsorted|].
      constructor; [exact Hcmp|].
      apply Forall_forall. intros y Hy.
      rewrite Forall_forall in Hhead. specialize (Hhead y Hy). lia.
    + apply Z.leb_gt in Hcmp. constructor; [now apply IH|].
      apply Forall_forall. intros y Hy.
      apply (Permutation_in _ (insertDesc_perm r l)) in Hy.
      destruct Hy as [<- | Hy]; [lia|].
      rewrite Forall_forall in Hhead. now apply Hhead.
Qed.

Lemma orderByCreatedAtDesc_descending (l : list Review) :
  descending (orderByCreatedAtDesc l).
Proof.
  induction l as [|x l IH]; simpl.
  - constructor.
  - now apply insertDesc_descending.
Qed.

Lemma descending_skipn (n : nat) (l : list Review) :
  descending l -> descending (skipn n l).
Proof.
  unfold descending. revert l. induction n as [|n IH]; intros l Hsorted.
  - exact Hsorted.
  - destruct l as [|x l]; [exact Hsorted|]. simpl.
    inversion Hsorted; subst. now apply IH.
Qed.

Lemma descending_firstn (n : nat) (l : list Review) :
  descending l -> descending (firstn n l).
Proof.
  unfold descending. revert l. induction n as [|n IH]; intros l Hsorted.
  - constructor.
  - destruct l as [|x l]; [constructor|]. simpl.
    inversion Hsorted as [|? ? Hrest Hhead]; subst.
    constructor; [now apply IH|].
    apply Forall_forall. intros y Hy.
    rewrite Forall_forall in Hhead. apply Hhead.
    revert Hy. clear. revert l. induction n as [|n IHn]; intros l Hy.
    + destruct Hy.
    + destruct l as [|z l]; [destruct Hy|].
      destruct Hy as [<- | Hy]; [now left|right; now apply IHn].
Qed.

Lemma map_review_withRelations (db : Db) (l : list Review) :
  map review (map (withRelations db) l) = l.
Proof.
  rewrite map_map. simpl. apply map_id.
Qed.

Lemma page_run (db : Db) (where_ : ReviewWhere) (skip_ take_ : nat) :
  ReviewsService.page client where_ skip_ take_ db
  = (Fulfilled
       {| reviews :=
            map (withRelations db)
              (firstn take_
                 (skipn skip_ (orderByCreatedAtDesc (selectReviews db where_))));
          meta :=
            {| total := List.length (selectReviews db where_);
               skip := skip_;
               take := take_;
               hasMore :=
                 (skip_ + take_ <? List.length (selectReviews db where_))%nat |} |},
     db).
Proof. reflexivity. Qed.

Lemma page_isPage (db : Db) (where_ : ReviewWhere) (matching : Review -> bool)
    (skip_ take_ : nat) :
  (forall r, satisfies where_ r = matching r) ->
  exists pg,
    ReviewsService.page client where_ skip_ take_ db = (Fulfilled pg, db)
    /\ isPage db matching skip_ take_ pg.
Proof.
  intros Hsame. rewrite page_run. eexists. split; [reflexivity|].
  assert (Hrows : selectReviews db where_ = filter matching (db_reviews db)).
  { unfold selectReviews. apply filter_ext. exact Hsame. }
  exists (orderByCreatedAtDesc (selectReviews db where_)). simpl.
  rewrite map_review_withRelations, <- Hrows.
  split; [apply orderByCreatedAtDesc_perm|].
  split; [apply orderByCreatedAtDesc_descending|].
  split; [reflexivity|].
  split.
  { apply descending_firstn, descending_skipn, orderByCreatedAtDesc_descending. }
  split; [reflexivity|]. split; [reflexivity|]. split; [reflexivity|].
  apply Nat.ltb_lt.
Qed.

End Listings.

(** C9.  Over the in-memory store, for every [skip] and [take].
    [findAll] returns the page of all reviews; [findByAlbumId] fails NotFound
    when no album row has the id and otherwise returns the page of the
    album's reviews; [findByUserId] fails NotFound when no user row has the
    id and otherwise returns the page of the user's reviews.  A page (see
    [isPage]) has as items the rows [skip], ..., [skip + take - 1] of the
    matching rows ordered newest first, [total] the number of matching rows,
    the [skip] and [take] it was asked for, and [hasMore] true exactly when
    [skip + take < total].  No listing changes the store. *)
Theorem review_listings_paginate :
  forall (db : MemPrisma.Db) (skip_ take_ : nat),
    (exists pg,
        ReviewsService.findAll MemPrisma.client skip_ take_ db = (Fulfilled pg, db)
        /\ isPage db (fun _ => true) skip_ take_ pg)
    /\ (forall albumId_,
           (~ MemPrisma.hasAlbum db albumId_ ->
            ReviewsService.findByAlbumId MemPrisma.client albumId_ skip_ take_ db
            = (Rejected
                 (NotFoundException
                    ("Album with ID " ++ showZ albumId_ ++ " not found")), db))
           /\ (MemPrisma.hasAlbum db albumId_ ->
               exists pg,
                 ReviewsService.findByAlbumId MemPrisma.client albumId_ skip_ take_ db
                 = (Fulfilled pg, db)
                 /\ isPage db (fun r => albumId r =? albumId_) skip_ take_ pg))
    /\ (forall userId_,
           (~ MemPrisma.hasUser db userId_ ->
            ReviewsService.findByUserId MemPrisma.client userId_ skip_ take_ db
            = (Rejected
                 (NotFoundException
                    ("User with ID " ++ showZ userId_ ++ " not found")), db))
           /\ (MemPrisma.hasUser db userId_ ->
               exists pg,
                 ReviewsService.findByUserId MemPrisma.client userId_ skip_ take_ db
                 = (Fulfilled pg, db)
                 /\ isPage db (fun r => userId r =? userId_) skip_ take_ pg)).
Proof.
  intros db skip_ take_. split; [|split].
  - unfold ReviewsService.findAll. apply page_isPage. reflexivity.
  - intros albumId_. split.
    + intros Hnone.
      unfold ReviewsService.findByAlbumId, bind, throw. simpl.
      unfold MemPrisma.album_findUnique.
      now rewrite (findAlbum_none_of Hnone).
    + intros Halbum. destruct (findAlbum_of_hasAlbum Halbum) as [al Hal].
      destruct (page_isPage db
                  {| where_albumId := Some albumId_; where_userId := None |}
                  (fun r => albumId r =? albumId_) skip_ take_) as (pg & Hrun & Hpage).
      { intros r. unfold MemPrisma.satisfies. simpl. apply andb_true_r. }
      exists pg. split; [|exact Hpage].
      unfold ReviewsService.findByAlbumId, bind. simpl.
      unfold MemPrisma.album_findUnique. rewrite Hal. exact Hrun.
  - intros userId_. split.
    + intros Hnone.
      unfold ReviewsService.findByUserId, bind, throw. simpl.
      unfold MemPrisma.user_findUnique.
      assert (Hfind : MemPrisma.findUser db userId_ = None).
      { apply findUser_none_iff. intros u Hin Hid. apply Hnone. now exists u. }
      now rewrite Hfind.
    + intros Huser. destruct (findUser_of_hasUser Huser) as [u Hu].
      destruct (page_isPage db
                  {| where_albumId := None; where_userId := Some userId_ |}
                  (fun r => userId r =? userId_) skip_ take_) as (pg & Hrun & Hpage).
      { intros r. reflexivity. }
      exists pg. split; [|exact Hpage].
      unfold ReviewsService.findByUserId, bind. simpl.
      unfold MemPrisma.user_findUnique. rewrite Hu. exact Hrun.
Qed.

(** The theorem at the demo store with two reviews of album 1: the first page
    of size one holds Bob's review, the newer one, and there is more; album 9
    and user 9 do not exist. *)
Lemma review_listings_paginate_witness :
  (exists pg,
      ReviewsService.findByAlbumId MemPrisma.client 1 0 1 Demo.reviewedDb
      = (Fulfilled pg, Demo.reviewedDb)
      /\ isPage Demo.reviewedDb (fun r => albumId r =? 1) 0 1 pg)
  /\ fst (ReviewsService.findByAlbumId MemPrisma.client 9 0 10 Demo.reviewedDb)
     = Rejected (NotFoundException "Album with ID 9 not found")
  /\ fst (ReviewsService.findByUserId MemPrisma.client 9 0 10 Demo.reviewedDb)
     = Rejected (NotFoundException "User with ID 9 not found").
Proof.
  split; [|split].
  - destruct (review_listings_paginate Demo.reviewedDb 0 1) as (_ & Halbum & _).
    destruct (Halbum 1) as [_ Hpage]. apply Hpage.
    exists Demo.testAlbum. split; [now left|reflexivity].
  - destruct (review_listings_paginate Demo.reviewedDb 0 10) as (_ & Halbum & _).
    destruct (Halbum 9) as [Hnone _]. rewrite Hnone; [reflexivity|].
    intros (a & [<- | []] & Hid). discriminate Hid.
  - destruct (review_listings_paginate Demo.reviewedDb 0 10) as (_ & _ & Huser).
    destruct (Huser 9) as [Hnone _]. rewrite Hnone; [reflexivity|].
    intros (u & [<- | [<- | []]] & Hid); discriminate Hid.
Defined.

Example findByAlbumId_first_page :
  fst (ReviewsService.findByAlbumId MemPrisma.client 1 0 1 Demo.reviewedDb)
  = Fulfilled
      {| reviews := [MemPrisma.withRelations Demo.reviewedDb Demo.bobReview];
         meta := {| total := 2; skip := 0; take := 1; hasMore := true |} |}.
Proof. reflexivity. Qed.

(** ** Division in binary64 *)

Section Rounding.

Import Binary64.

Unset Implicit Arguments.

Lemma roundHalfEven_cases (num den : Z) :
  roundHalfEven num den = num / den \/ roundHalfEven num den = num / den + 1.
Proof.
  unfold roundHalfEven. cbv zeta.
  destruct (2 * (num mod den) ?= den); [destruct (Z.even _)| |]; auto.
Qed.

Lemma roundHalfEven_nearest (num den i : Z) :
  0 < den ->
  Z.abs (roundHalfEven num den * den - num) <= Z.abs (i * den - num).
Proof.
  intros Hden.
  pose proof (Z.div_mod num den ltac:(lia)) as Hdiv.
  pose proof (Z.mod_pos_bound num den Hden) as Hmod.
  unfold roundHalfEven. cbv zeta.
  set (f := num / den) in *. set (r := num mod den) in *.
  assert (Hnum : num = f * den + r) by lia. clearbody f r. clear Hdiv. subst num.
  assert (Hfar : i <= f /\ (i - f) * den <= 0 \/ f < i /\ den <= (i - f) * den)
    by (destruct (Z_le_gt_dec i f); [left|right]; split; nia).
  assert (E0 : i * den - (f * den + r) = (i - f) * den - r) by ring.
  assert (E1 : f * den - (f * den + r) = - r) by ring.
  assert (E2 : (f + 1) * den - (f * den + r) = den - r) by ring.
  rewrite E0. clear E0.
  set (X := (i - f) * den) in *. clearbody X.
  destruct (2 * r ?= den) eqn:Hcmp.
  - apply Z.compare_eq in Hcmp.
    destruct (Z.even f); rewrite ?E1, ?E2; clear E1 E2; lia.
  - rewrite Z.compare_lt_iff in Hcmp. rewrite E1. clear E1 E2. lia.
  - rewrite Z.compare_gt_iff in Hcmp. rewrite E2. clear E1 E2. lia.
Qed.

Lemma roundHalfEven_bounds (num den : Z) :
  0 <= num -> 0 < den ->
  0 <= roundHalfEven num den <= num / den + 1.
Proof.
  intros Hnum Hden.
  pose proof (Z.div_pos num den Hnum Hden).
  destruct (roundHalfEven_cases num den) as [-> | ->]; lia.
Qed.

Lemma log2_div_bound (A B : Z) :
  0 <= A -> 0 < B -> A < B * 2 ^ (Z.log2 (A / B) + 1).
Proof.
  intros HA HB.
  pose proof (Z.div_pos A B HA HB) as Hq.
  assert (Hlt : A / B < 2 ^ (Z.log2 (A / B) + 1)).
  { destruct (Z.eq_dec (A / B) 0) as [-> | Hne]; [reflexivity|].
    rewrite Z.add_1_r. apply Z.log2_spec. lia. }
  pose proof (Z.div_mod A B ltac:(lia)) as Hdiv.
  pose proof (Z.mod_pos_bound A B HB) as Hmod.
  nia.
Qed.

Lemma log2_div_lower (A B : Z) :
  0 <= A -> 0 < B -> 0 < A / B -> B * 2 ^ Z.log2 (A / B) <= A.
Proof.
  intros HA HB Hq.
  pose proof (proj1 (Z.log2_spec (A / B) Hq)) as Hlow.
  pose proof (Z.div_mod A B ltac:(lia)) as Hdiv.
  pose proof (Z.mod_pos_bound A B HB) as Hmod.
  nia.
Qed.

(** The exponent of [roundScaled]. *)
Lemma roundScaled_mantissa (A B : Z) :
  0 <= A -> 0 < B ->
  let j := Z.max (Z.log2 (A / B) - 52) 0 in
  0 <= roundHalfEven A (B * 2 ^ j) <= 2 ^ 53.
Proof.
  intros HA HB j.
  assert (Hj : 0 <= j) by (subst j; lia).
  assert (Hpow : 0 < 2 ^ j) by (apply Z.pow_pos_nonneg; lia).
  assert (Hden : 0 < B * 2 ^ j) by nia.
  pose proof (roundHalfEven_bounds A (B * 2 ^ j) HA Hden) as Hround.
  split; [lia|].
  assert (Hlt : A < (B * 2 ^ j) * 2 ^ 53).
  { pose proof (log2_div_bound A B HA HB) as Hup.
    assert (Hexp : Z.log2 (A / B) + 1 <= j + 53) by (subst j; lia).
    assert (Hmono : 2 ^ (Z.log2 (A / B) + 1) <= 2 ^ (j + 53)).
    { apply Z.pow_le_mono_r; lia. }
    rewrite (Z.pow_add_r 2 j 53) in Hmono by lia. nia. }
  assert (A / (B * 2 ^ j) < 2 ^ 53); [|lia].
  apply Z.div_lt_upper_bound; [exact Hden|]. lia.
Qed.

Lemma isMantissa_pow (m j : Z) :
  0 <= j -> 0 <= m <= 2 ^ 53 -> isMantissa (m * 2 ^ j).
Proof.
  intros Hj Hm.
  destruct (Z.eq_dec m (2 ^ 53)) as [-> | Hlt].
  - exists (2 ^ 52), (j + 1). split; [lia|]. split; [reflexivity|].
    rewrite Z.pow_add_r by lia. change (2 ^ 53) with (2 ^ 52 * 2 ^ 1). ring.
  - exists m, j. split; [exact Hj|]. split; [lia|reflexivity].
Qed.

Lemma roundScaled_isMantissa (A B : Z) :
  0 <= A -> 0 < B -> isMantissa (roundScaled A B) /\ 0 <= roundScaled A B.
Proof.
  intros HA HB. pose proof (roundScaled_mantissa A B HA HB) as Hm.
  unfold roundScaled. cbv zeta in Hm.
  set (j := Z.max (Z.log2 (A / B) - 52) 0) in *.
  assert (Hj : 0 <= j) by (subst j; lia).
  split.
  - apply isMantissa_pow; [exact Hj|exact Hm].
  - apply Z.mul_nonneg_nonneg; [lia|]. apply Z.pow_nonneg. lia.
Qed.

(** No integer of at most 53 significant bits is nearer to [A / B]. *)
Lemma roundScaled_nearest (A B N : Z) :
  0 <= A -> 0 < B -> isMantissa N ->
  Z.abs (roundScaled A B * B - A) <= Z.abs (N * B - A).
Proof.
  intros HA HB (m & j' & Hj' & Hm & ->).
  unfold roundScaled.
  set (j := Z.max (Z.log2 (A / B) - 52) 0).
  assert (Hj : 0 <= j) by (subst j; lia).
  assert (Hpow : 0 < 2 ^ j) by (apply Z.pow_pos_nonneg; lia).
  assert (Hden : 0 < B * 2 ^ j) by nia.
  assert (Hmultiple : forall i,
             Z.abs (roundHalfEven A (B * 2 ^ j) * 2 ^ j * B - A)
             <= Z.abs (i * 2 ^ j * B - A)).
  { intros i. pose proof (roundHalfEven_nearest A (B * 2 ^ j) i Hden) as Hnear.
    replace (roundHalfEven A (B * 2 ^ j) * 2 ^ j * B)
      with (roundHalfEven A (B * 2 ^ j) * (B * 2 ^ j)) by ring.
    replace (i * 2 ^ j * B) with (i * (B * 2 ^ j)) by ring. exact Hnear. }
  destruct (Z_le_gt_dec j j') as [Hge | Hlt].
  - replace (m * 2 ^ j') with (m * 2 ^ (j' - j) * 2 ^ j).
    + apply Hmultiple.
    + rewrite <- Z.mul_assoc, <- Z.pow_add_r by lia. f_equal. f_equal. lia.
  - assert (Hjpos : j = Z.log2 (A / B) - 52) by (subst j; lia).
    assert (Hq : 0 < A / B).
    { destruct (Z.eq_dec (A / B) 0) as [Hz|]; [rewrite Hz in Hjpos; simpl in Hjpos; lia|].
      pose proof (Z.div_pos A B HA HB). lia. }
    pose proof (log2_div_lower A B HA HB Hq) as Hlow.
    replace (Z.log2 (A / B)) with (52 + j) in Hlow by lia.
    rewrite Z.pow_add_r in Hlow by lia.
    specialize (Hmultiple (2 ^ 52)).
    eapply Z.le_trans; [exact Hmultiple|].
    assert (Hsmall : Z.abs (m * 2 ^ j') * B <= 2 ^ 52 * 2 ^ j * B).
    { assert (Hpow' : 0 < 2 ^ j') by (apply Z.pow_pos_nonneg; lia).
      rewrite Z.abs_mul, (Z.abs_eq (2 ^ j')) by lia.
      assert (Hstep : 2 * 2 ^ j' <= 2 ^ j).
      { replace (2 * 2 ^ j') with (2 ^ (j' + 1))
          by (rewrite Z.pow_add_r by lia; ring).
        apply Z.pow_le_mono_r; lia. }
      apply Z.mul_le_mono_nonneg_r; [lia|].
      apply Z.le_trans with (2 ^ 53 * 2 ^ j').
      - apply Z.mul_le_mono_nonneg_r; lia.
      - change (2 ^ 53) with (2 ^ 52 * 2). rewrite <- Z.mul_assoc.
        apply Z.mul_le_mono_nonneg_l; [|exact Hstep]. apply Z.pow_nonneg. lia. }
    assert (Hle : m * 2 ^ j' * B <= Z.abs (m * 2 ^ j') * B).
    { apply Z.mul_le_mono_nonneg_r; lia. }
    replace (B * (2 ^ 52 * 2 ^ j)) with (2 ^ 52 * 2 ^ j * B) in Hlow by ring.
    set (near := 2 ^ 52 * 2 ^ j * B) in *. set (far := m * 2 ^ j' * B) in *.
    set (bound := Z.abs (m * 2 ^ j') * B) in *. clearbody near far bound. lia.
Qed.

Lemma scale_pos : 0 < scale.
Proof. unfold scale. apply Z.pow_pos_nonneg; lia. Qed.

Lemma scale_id : Zpos (Z.to_pos scale) = scale.
Proof. apply Z2Pos.id, scale_pos. Qed.

Lemma Qabs_diff (n a : Z) (P p : positive) :
  (Qabs ((n # P) - (a # p)) == Z.abs (n * Zpos p - a * Zpos P) # (P * p))%Q.
Proof.
  unfold Qminus, Qplus, Qopp, Qabs. simpl Qnum. simpl Qden.
  replace (n * Zpos p + - a * Zpos P) with (n * Zpos p - a * Zpos P) by ring.
  reflexivity.
Qed.

Lemma Qle_same_den (u v : Z) (d : positive) : (u # d <= v # d)%Q <-> u <= v.
Proof.
  unfold Qle. simpl. split; intros H.
  - apply Z.mul_le_mono_pos_r in H; [exact H|reflexivity].
  - apply Z.mul_le_mono_pos_r; [reflexivity|exact H].
Qed.

Lemma isMantissa_opp (N : Z) : isMantissa N -> isMantissa (- N).
Proof.
  intros (m & j & Hj & Hm & ->). exists (- m), j.
  split; [exact Hj|]. split; [now rewrite Z.abs_opp|ring].
Qed.

Lemma isMantissa_0 : isMantissa 0.
Proof. exists 0, 0. split; [lia|]. split; [reflexivity|reflexivity]. Qed.

Lemma isMantissa_pow2 (j : Z) : 0 <= j -> isMantissa (2 ^ j).
Proof. intros Hj. exists 1, j. split; [exact Hj|]. split; [reflexivity|ring]. Qed.

(** The scaled integer of [quotient a b], with its sign. *)
Lemma signed_nearest (a b N : Z) :
  0 < b -> isMantissa N ->
  Z.abs (Z.sgn a * roundScaled (Z.abs a * scale) b * b - a * scale)
  <= Z.abs (N * b - a * scale).
Proof.
  intros Hb HN. pose proof scale_pos as Hscale.
  assert (HA : 0 <= Z.abs a * scale) by (apply Z.mul_nonneg_nonneg; lia).
  destruct (Z.abs_spec a) as [[Ha Habs] | [Ha Habs]]; rewrite Habs in *.
  - destruct (Z.eq_dec a 0) as [-> | Hne].
    + change (Z.sgn 0) with 0. rewrite !Z.mul_0_l. lia.
    + rewrite Z.sgn_pos by lia. rewrite Z.mul_1_l.
      now apply roundScaled_nearest.
  - rewrite Z.sgn_neg by lia.
    pose proof (roundScaled_nearest (- a * scale) b (- N) HA Hb (isMantissa_opp N HN))
      as Hnear.
    replace (-1 * roundScaled (- a * scale) b * b - a * scale)
      with (- (roundScaled (- a * scale) b * b - - a * scale)) by ring.
    replace (N * b - a * scale) with (- (- N * b - - a * scale)) by ring.
    now rewrite !Z.abs_opp.
Qed.

Lemma quotient_cases (a b : Z) :
  0 < b ->
  let N := roundScaled (Z.abs a * scale) b in
  (overflow <= N /\ exists inf, quotient a b = inf /\ forall x, inf <> Finite x)
  \/ (N < overflow
      /\ quotient a b = Finite (Qred ((Z.sgn a * N) # Z.to_pos scale))).
Proof.
  intros Hb N. unfold quotient. rewrite (Z.abs_eq b) by lia.
  rewrite (Z.sgn_pos b) by lia. rewrite Z.mul_1_r. fold N.
  destruct (overflow <=? N) eqn:Hover.
  - left. apply Z.leb_le in Hover. split; [exact Hover|].
    destruct (0 <? Z.sgn a); eexists; (split; [reflexivity|discriminate]).
  - right. apply Z.leb_gt in Hover. split; [exact Hover|reflexivity].
Qed.

(** [quotient a b] is a double, and no double is nearer to [a / b]. *)
Lemma quotient_nearest (a b : Z) (x : Q) :
  0 < b ->
  quotient a b = Finite x ->
  isDouble x
  /\ forall y, isDouble y ->
               (Qabs (x - (a # Z.to_pos b)) <= Qabs (y - (a # Z.to_pos b)))%Q.
Proof.
  intros Hb Hrun. pose proof scale_pos as Hscale.
  destruct (quotient_cases a b Hb) as [(_ & inf & Hinf & Hno) | (Hsmall & Hfinite)].
  { rewrite Hinf in Hrun. now elim (Hno x). }
  set (N := roundScaled (Z.abs a * scale) b) in *.
  assert (Hx : x = Qred ((Z.sgn a * N) # Z.to_pos scale)) by congruence.
  clear Hrun Hfinite. subst x.
  assert (HA : 0 <= Z.abs a * scale) by (apply Z.mul_nonneg_nonneg; lia).
  destruct (roundScaled_isMantissa (Z.abs a * scale) b HA Hb) as [Hmant Hpos].
  fold N in Hmant, Hpos.
  split.
  - exists (Z.sgn a * N). split; [|split; [|apply Qred_correct]].
    + destruct (Z.sgn_spec a) as [[_ ->] | [[_ ->] | [_ ->]]].
      * now rewrite Z.mul_1_l.
      * simpl. apply isMantissa_0.
      * replace (-1 * N) with (- N) by ring. now apply isMantissa_opp.
    + destruct (Z.sgn_spec a) as [[_ ->] | [[_ ->] | [_ ->]]]; lia.
  - intros y (Ny & HNy & _ & Hy).
    rewrite Qred_correct, Hy, !Qabs_diff. apply Qle_same_den.
    rewrite scale_id, Z2Pos.id by exact Hb.
    now apply signed_nearest.
Qed.

(** Far from the overflow threshold the quotient is finite. *)
Lemma quotient_finite (a b : Z) :
  0 < b -> Z.abs a <= b * 2 ^ 1023 -> exists x, quotient a b = Finite x.
Proof.
  intros Hb Hbound. pose proof scale_pos as Hscale.
  destruct (quotient_cases a b Hb) as [(Hover & _) | (_ & Hfinite)];
    [|eexists; exact Hfinite].
  exfalso.
  assert (HA : 0 <= Z.abs a * scale) by (apply Z.mul_nonneg_nonneg; lia).
  pose proof (roundScaled_nearest (Z.abs a * scale) b (2 ^ 2097) HA Hb
                (isMantissa_pow2 2097 ltac:(lia))) as Hnear.
  set (N := roundScaled (Z.abs a * scale) b) in *.
  assert (Hle : Z.abs a * scale <= 2 ^ 2097 * b).
  { change (2 ^ 2097) with (2 ^ 1023 * scale).
    replace (2 ^ 1023 * scale * b) with (b * 2 ^ 1023 * scale) by ring.
    apply Z.mul_le_mono_nonneg_r; lia. }
  assert (Hbig : 2 ^ 2097 * b < N * b).
  { apply Z.mul_lt_mono_pos_r; [exact Hb|].
    apply Z.lt_le_trans with overflow; [reflexivity|exact Hover]. }
  set (A := Z.abs a * scale) in *. set (T := 2 ^ 2097 * b) in *.
  set (NB := N * b) in *. clearbody A T NB. lia.
Qed.

Lemma Qmake_quotient (a b : Z) :
  0 < b -> (a # Z.to_pos b == inject_Z a / inject_Z b)%Q.
Proof.
  intros Hb. rewrite Qmake_Qdiv. now rewrite Z2Pos.id.
Qed.

(** [divide] by a positive count: the result is a double, no double is
    nearer to the exact quotient, and it is finite unless the quotient
    reaches [2^1023]. *)
Lemma divide_nearest (a b : Z) (x : Q) :
  0 < b ->
  divide a b = Finite x ->
  isDouble x
  /\ forall y, isDouble y ->
               (Qabs (x - inject_Z a / inject_Z b)
                <= Qabs (y - inject_Z a / inject_Z b))%Q.
Proof.
  intros Hb Hrun. unfold divide in Hrun.
  destruct (b =? 0) eqn:Hzero; [apply Z.eqb_eq in Hzero; lia|].
  destruct (quotient_nearest a b x Hb Hrun) as [Hdouble Hnear].
  split; [exact Hdouble|]. intros y Hy.
  rewrite <- (Qmake_quotient a b Hb). now apply Hnear.
Qed.

Lemma divide_finite (a b : Z) :
  0 < b -> Z.abs a <= b * 2 ^ 1023 -> exists x, divide a b = Finite x.
Proof.
  intros Hb Hbound. unfold divide.
  destruct (b =? 0) eqn:Hzero; [apply Z.eqb_eq in Hzero; lia|].
  now apply quotient_finite.
Qed.

(** A safe integer is a double. *)
Lemma isDouble_safe (z : Z) : isSafeInteger z -> isDouble (inject_Z z).
Proof.
  intros Hsafe. pose proof scale_pos as Hscale. unfold isSafeInteger in Hsafe.
  exists (z * scale). split; [|split].
  - exists z, 1074. split; [lia|]. split; [lia|reflexivity].
  - rewrite Z.abs_mul, (Z.abs_eq scale) by lia.
    change overflow with (2 ^ 1024 * scale).
    apply Z.mul_lt_mono_pos_r; [exact Hscale|]. lia.
  - unfold inject_Z, Qeq. cbn [Qnum Qden]. rewrite scale_id. ring.
Qed.

(** What no double is nearer to than [x] lies on the same side of every
    double as [x] does, and is [x] when it is a double. *)
Lemma nearest_above (x q lo : Q) :
  (forall y, isDouble y -> Qabs (x - q) <= Qabs (y - q))%Q ->
  isDouble lo -> (lo <= q)%Q -> (lo <= x)%Q.
Proof.
  intros Hnear Hlo Hle. specialize (Hnear lo Hlo).
  destruct (Qlt_le_dec x lo) as [Hlt | Hge]; [exfalso|exact Hge].
  rewrite (Qabs_neg (x - q)), (Qabs_neg (lo - q)) in Hnear by lra. lra.
Qed.

Lemma nearest_below (x q hi : Q) :
  (forall y, isDouble y -> Qabs (x - q) <= Qabs (y - q))%Q ->
  isDouble hi -> (q <= hi)%Q -> (x <= hi)%Q.
Proof.
  intros Hnear Hhi Hle. specialize (Hnear hi Hhi).
  destruct (Qlt_le_dec hi x) as [Hlt | Hge]; [exfalso|exact Hge].
  rewrite (Qabs_pos (x - q)), (Qabs_pos (hi - q)) in Hnear by lra. lra.
Qed.

Lemma nearest_exact (x q : Q) :
  (forall y, isDouble y -> Qabs (x - q) <= Qabs (y - q))%Q ->
  isDouble q -> (x == q)%Q.
Proof.
  intros Hnear Hq.
  pose proof (nearest_above x q q Hnear Hq (Qle_refl q)).
  pose proof (nearest_below x q q Hnear Hq (Qle_refl q)). lra.
Qed.

End Rounding.

Set Implicit Arguments.

(** ** The rating of an album *)

Section Rating.

Import MemPrisma.

Lemma fold_left_sum (l : list Z) (start : Z) :
  fold_left (fun sum rating_ => sum + rating_) l start
  = start + fold_right Z.add 0 l.
Proof.
  revert start. induction l as [|x l IH]; intros start; simpl.
  - lia.
  - rewrite IH. lia.
Qed.

Lemma review_ratings_rows (db : Db) (id_ : Z) :
  review_ratings id_ db
  = (Fulfilled (map rating (filter (fun r => albumId r =? id_) (db_reviews db))), db).
Proof.
  unfold review_ratings, selectReviews.
  rewrite (filter_ext (satisfies {| where_albumId := Some id_; where_userId := None |})
             (fun r => albumId r =? id_)); [reflexivity|].
  intros r. unfold satisfies. simpl. apply andb_true_r.
Qed.

Lemma getAlbumRating_run (R : Type) (id_ : Z) (w : World Db R) :
  AlbumsService.getAlbumRating client id_ w
  = let ratings :=
      map rating (filter (fun r => albumId r =? id_) (db_reviews (store w))) in
    if Nat.eqb (List.length ratings) 0
    then (Fulfilled {| averageRating := Finite 0; reviewCount := 0 |}, w)
    else (Fulfilled
            {| averageRating :=
                 divide (fold_right Z.add 0 ratings) (Z.of_nat (List.length ratings));
               reviewCount := List.length ratings |}, w).
Proof.
  unfold AlbumsService.getAlbumRating, bind, liftStore, ret.
  unfold client. cbn [review_ratings].
  rewrite review_ratings_rows. cbv zeta. rewrite withStore_same.
  rewrite fold_left_sum, Z.add_0_l.
  destruct (Nat.eqb
              (List.length
                 (map rating
                    (filter (fun r => albumId r =? id_) (db_reviews (store w)))))
              0); reflexivity.
Qed.

(** The whole sum of an exact sum is a safe integer. *)
Lemma exactSum_total (ratings : list Z) :
  exactSum ratings -> isSafeInteger (fold_right Z.add 0 ratings).
Proof.
  intros [_ Hsums]. specialize (Hsums (List.length ratings)).
  now rewrite firstn_all in Hsums.
Qed.

End Rating.

(** C5.  Over the in-memory store, with [rows] the review rows of the album
    and [exact] the quotient of the sum of their ratings by their number.
    - Without rows the rating is [{ averageRating: 0, reviewCount: 0 }], and
      the division is not reached.
    - With rows whose ratings are summed exactly (see [exactSum]),
      [reviewCount] is their number and [averageRating] is the double nearest
      to [exact]: it is a double, no double is nearer to [exact], and it is
      [exact] itself when [exact] is a double.
    - In every case the call returns, [reviewCount] is the number of rows,
      and the world is not changed. *)
Theorem getAlbumRating_mean :
  forall (R : Type) (id_ : Z) (w : World MemPrisma.Db R),
    let rows := filter (fun r => albumId r =? id_) (MemPrisma.db_reviews (store w)) in
    let exact :=
      (inject_Z (fold_right Z.add 0%Z (map rating rows))
       / inject_Z (Z.of_nat (List.length rows)))%Q in
    (rows = [] ->
     AlbumsService.getAlbumRating MemPrisma.client id_ w
     = (Fulfilled {| averageRating := Finite 0; reviewCount := 0 |}, w))
    /\ (rows <> [] ->
        exactSum (map rating rows) ->
        exists mean,
          AlbumsService.getAlbumRating MemPrisma.client id_ w
          = (Fulfilled {| averageRating := Finite mean;
                          reviewCount := List.length rows |}, w)
          /\ Binary64.isDouble mean
          /\ (forall y, Binary64.isDouble y ->
                        (Qabs (mean - exact) <= Qabs (y - exact))%Q)
          /\ (Binary64.isDouble exact -> (mean == exact)%Q))
    /\ (exists result,
          AlbumsService.getAlbumRating MemPrisma.client id_ w = (Fulfilled result, w)
          /\ reviewCount result = List.length rows).
Proof.
  intros R id_ w rows exact. rewrite getAlbumRating_run. cbv zeta. fold rows.
  rewrite length_map.
  split; [|split].
  - intros Hempty. now rewrite Hempty.
  - intros Hrows Hexact.
    assert (Hlen : List.length rows <> 0%nat).
    { destruct rows; [now elim Hrows|discriminate]. }
    destruct (Nat.eqb (List.length rows) 0) eqn:Hzero;
      [apply Nat.eqb_eq in Hzero; contradiction|].
    assert (Hcount : 0 < Z.of_nat (List.length rows)) by lia.
    pose proof (exactSum_total Hexact) as Hsafe. unfold isSafeInteger in Hsafe.
    destruct (divide_finite (fold_right Z.add 0 (map rating rows))
                (Z.of_nat (List.length rows)) Hcount) as [mean Hmean].
    { assert (Hone : 1 * 2 ^ 1023 <= Z.of_nat (List.length rows) * 2 ^ 1023).
      { apply Z.mul_le_mono_nonneg_r; lia. }
      lia. }
    destruct (divide_nearest _ _ _ Hcount Hmean) as [Hdouble Hnear].
    exists mean. rewrite Hmean. split; [reflexivity|]. split; [exact Hdouble|].
    split; [exact Hnear|]. intros Hrepresentable.
    exact (nearest_exact _ _ Hnear Hrepresentable).
  - destruct (Nat.eqb (List.length rows) 0) eqn:Hzero.
    + apply Nat.eqb_eq in Hzero. eexists. split; [reflexivity|]. now rewrite Hzero.
    + eexists. split; reflexivity.
Qed.

(** The theorem at album 1 of the demo store, rated 4 and 3 (mean 7/2, a
    double), and at an album without reviews. *)
Lemma getAlbumRating_mean_witness :
  AlbumsService.getAlbumRating MemPrisma.client 1 (Demo.world Demo.albumDb)
  = (Fulfilled {| averageRating := Finite 0; reviewCount := 0 |},
     Demo.world Demo.albumDb)
  /\ exactSum [4; 3]
  /\ exists mean,
       AlbumsService.getAlbumRating MemPrisma.client 1 (Demo.world Demo.reviewedDb)
       = (Fulfilled {| averageRating := Finite mean; reviewCount := 2 |},
          Demo.world Demo.reviewedDb)
       /\ Binary64.isDouble mean
       /\ (mean == 7 # 2)%Q.
Proof.
  assert (Hexact : exactSum [4; 3]).
  { split.
    - repeat constructor; unfold isSafeInteger; simpl; lia.
    - intros [|[|[|k]]]; unfold isSafeInteger; simpl; lia. }
  split; [|split; [exact Hexact|]].
  - exact (proj1 (@getAlbumRating_mean Demo.Log 1 (Demo.world Demo.albumDb)) eq_refl).
  - destruct (proj1 (proj2 (@getAlbumRating_mean Demo.Log 1
                              (Demo.world Demo.reviewedDb)))
                ltac:(discriminate) Hexact) as (mean & Hrun & Hdouble & _ & _).
    exists mean. split; [exact Hrun|]. split; [exact Hdouble|].
    vm_compute in Hrun. injection Hrun as <-. reflexivity.
Defined.

(** C5, the specification's wording refuted: the album rated 1, 1 and 2 has
    the mean 4/3, which no double holds; [averageRating] is
    6004799503160661 / 2^52, and three times it is not 4. *)
Theorem exact_mean_as_specified_fails : ~ ExactMeanAsSpecified.holds.
Proof.
  intros Hholds.
  destruct (Hholds Demo.Log 1 (Demo.world Demo.thirdsDb) ltac:(discriminate))
    as (mean & Hrun & Hmean).
  vm_compute in Hrun. injection Hrun as <-.
  vm_compute in Hmean. discriminate Hmean.
Qed.

Example getAlbumRating_demo :
  fst (AlbumsService.getAlbumRating MemPrisma.client 1 (Demo.world Demo.reviewedDb))
  = Fulfilled {| averageRating := Finite (7 # 2)%Q; reviewCount := 2 |}.
Proof. vm_compute. reflexivity. Qed.

Example getAlbumRating_thirds :
  fst (AlbumsService.getAlbumRating MemPrisma.client 1 (Demo.world Demo.thirdsDb))
  = Fulfilled {| averageRating := Finite (6004799503160661 # 4503599627370496)%Q;
                 reviewCount := 3 |}.
Proof. vm_compute. reflexivity. Qed.

(** * Further properties of the services *)

(** ** The token cache of the catalog client *)

(** X1.  [getAccessToken] serves a cached token that is still valid without
    any request (the world is unchanged); whenever it returns a token, that
    token is the cached one afterwards and is served again, without request,
    for as long as it is valid; a failed call leaves the cached token and its
    expiry as they were; the store is never touched. *)
Theorem getAccessToken_cache :
  forall (D R : Type) (env : Env R) (w : World D R),
    (MusicApiService.tokenStillValid env w = true ->
     exists token,
       accessToken w = Some token
       /\ MusicApiService.getAccessToken env w = (Fulfilled token, w))
    /\ (forall token w1,
           MusicApiService.getAccessToken env w = (Fulfilled token, w1) ->
           accessToken w1 = Some token
           /\ store w1 = store w
           /\ (MusicApiService.tokenStillValid env w1 = true ->
               MusicApiService.getAccessToken env w1 = (Fulfilled token, w1)))
    /\ (forall e w1,
           MusicApiService.getAccessToken env w = (Rejected e, w1) ->
           accessToken w1 = accessToken w
           /\ tokenExpiry w1 = tokenExpiry w
           /\ store w1 = store w).
Proof.
  intros D R env w.
  assert (Hvalid : forall v : World D R,
             MusicApiService.tokenStillValid env v = true ->
             exists token,
               accessToken v = Some token
               /\ MusicApiService.getAccessToken env v = (Fulfilled token, v)).
  { intros v Hv. unfold MusicApiService.getAccessToken.
    destruct (accessToken v) as [token|] eqn:Htoken.
    - exists token. rewrite Hv. now split.
    - unfold MusicApiService.tokenStillValid in Hv. rewrite Htoken in Hv.
      discriminate. }
  split; [apply Hvalid|]. split.
  - intros token w1 Hrun.
    assert (Hcached : accessToken w1 = Some token /\ store w1 = store w).
    { revert Hrun. unfold MusicApiService.getAccessToken.
      assert (Hrefresh :
        MusicApiService.refreshAccessToken env w = (Fulfilled token, w1) ->
        accessToken w1 = Some token /\ store w1 = store w).
      { unfold MusicApiService.refreshAccessToken.
        destruct (config_get env "SPOTIFY_CLIENT_ID") as [clientId|];
          [|discriminate].
        destruct (config_get env "SPOTIFY_CLIENT_SECRET") as [clientSecret|];
          [|discriminate].
        destruct (negb (clientId =? EmptyString)%string
                  && negb (clientSecret =? EmptyString)%string); [|discriminate].
        destruct (post_token env clientId clientSecret (remote w))
          as [[data|status] r']; [|discriminate].
        intros Heq. injection Heq as <- <-. now split. }
      destruct (accessToken w) as [cached|] eqn:Hcache; [|exact Hrefresh].
      destruct (MusicApiService.tokenStillValid env w); [|exact Hrefresh].
      intros Heq. injection Heq as <- <-. now split. }
    destruct Hcached as [Hcached Hstore].
    split; [exact Hcached|]. split; [exact Hstore|].
    intros Hstill. destruct (Hvalid w1 Hstill) as (token' & Htoken' & Hagain).
    rewrite Hcached in Htoken'. injection Htoken' as <-. exact Hagain.
  - intros e w1. unfold MusicApiService.getAccessToken.
    assert (Hrefresh :
      MusicApiService.refreshAccessToken env w = (Rejected e, w1) ->
      accessToken w1 = accessToken w /\ tokenExpiry w1 = tokenExpiry w
      /\ store w1 = store w).
    { unfold MusicApiService.refreshAccessToken.
      destruct (config_get env "SPOTIFY_CLIENT_ID") as [clientId|];
        [|intros Heq; injection Heq as _ <-; now repeat split].
      destruct (config_get env "SPOTIFY_CLIENT_SECRET") as [clientSecret|];
        [|intros Heq; injection Heq as _ <-; now repeat split].
      destruct (negb (clientId =? EmptyString)%string
                && negb (clientSecret =? EmptyString)%string);
        [|intros Heq; injection Heq as _ <-; now repeat split].
      destruct (post_token env clientId clientSecret (remote w))
        as [[data|status] r']; [discriminate|].
      intros Heq. injection Heq as _ <-. now repeat split. }
    destruct (accessToken w) as [cached|]; [|exact Hrefresh].
    destruct (MusicApiService.tokenStillValid env w); [discriminate|exact Hrefresh].
Qed.

(** The theorem at the demo catalog: the first call fetches a token, the
    second serves it from the cache and adds no request to the log. *)
Lemma getAccessToken_cache_witness :
  exists token w1,
    MusicApiService.getAccessToken Demo.catalog (Demo.world Demo.emptyDb)
    = (Fulfilled token, w1)
    /\ remote w1 = ["POST https://accounts.spotify.com/api/token"]
    /\ MusicApiService.getAccessToken Demo.catalog w1 = (Fulfilled token, w1).
Proof.
  destruct (@getAccessToken_cache MemPrisma.Db Demo.Log Demo.catalog
              (Demo.world Demo.emptyDb)) as (_ & Hfulfilled & _).
  destruct (Hfulfilled _ _ eq_refl) as (_ & _ & Hagain).
  eexists. eexists. split; [reflexivity|]. split; [reflexivity|].
  exact (Hagain eq_refl).
Defined.

(** ** What the catalog client returns and raises *)

Section CatalogResults.

Import MusicApiService.

Variables D R : Type.
Variable env : Env R.

Lemma keepAlbum_kept_type (a a' : SpotifyAlbum) :
  keepAlbum a = Some a' ->
  s_albumType (formatAlbum a') = Some "album"
  \/ s_albumType (formatAlbum a') = Some "ep".
Proof.
  unfold keepAlbum. destruct (album_type a) as [t|] eqn:Ht; simpl.
  - destruct (toLowerCase t =? "album")%string eqn:E1.
    + intros Heq. injection Heq as <-. left.
      unfold formatAlbum. simpl. rewrite Ht. simpl.
      apply String.eqb_eq in E1. now rewrite E1.
    + destruct (toLowerCase t =? "ep")%string eqn:E2.
      * intros Heq. injection Heq as <-. right.
        unfold formatAlbum. simpl. rewrite Ht. simpl.
        apply String.eqb_eq in E2. now rewrite E2.
      * destruct (t =? "single")%string; [|discriminate].
        destruct (total_tracks a) as [n|].
        -- destruct (2 <=? n); [|discriminate].
           intros Heq. injection Heq as <-. now right.
        -- intros Heq. injection Heq as <-. now right.
  - discriminate.
Qed.

Lemma filterRewrite_Forall {A} (f : A -> option A) (P : A -> Prop) (l : list A) :
  (forall x x', f x = Some x' -> P x') -> Forall P (filterRewrite f l).
Proof.
  intros Hf. induction l as [|x l IH]; simpl; [constructor|].
  destruct (f x) as [x'|] eqn:Hx; [|exact IH].
  constructor; [now apply (Hf x)|exact IH].
Qed.

Lemma Forall_firstn {A} (P : A -> Prop) (n : nat) (l : list A) :
  Forall P l -> Forall P (firstn n l).
Proof.
  intros Hall. apply Forall_forall. intros x Hin.
  rewrite Forall_forall in Hall. apply Hall.
  rewrite <- (firstn_skipn n l). apply in_or_app. now left.
Qed.

Lemma slice0_Forall {A} (P : A -> Prop) (l : list A) (end_ : Z) :
  Forall P l -> Forall P (slice0 l end_).
Proof.
  intros Hall. unfold slice0. destruct (end_ <? 0); now apply Forall_firstn.
Qed.

Lemma slice0_length {A} (l : list A) (end_ : Z) :
  0 <= end_ -> (List.length (slice0 l end_) <= Z.to_nat end_)%nat.
Proof.
  intros Hend. unfold slice0.
  destruct (end_ <? 0) eqn:Hneg; [apply Z.ltb_lt in Hneg; lia|].
  apply firstn_le_length.
Qed.

Lemma formattedResults_types (items : list SpotifyAlbum) (limit_ : Z) :
  Forall (fun record => s_albumType record = Some "album"
                        \/ s_albumType record = Some "ep")
    (formattedResults items limit_).
Proof.
  unfold formattedResults. apply Forall_map. apply slice0_Forall.
  unfold filteredItems. apply filterRewrite_Forall.
  intros x x'. apply keepAlbum_kept_type.
Qed.

Lemma searchAlbums_fulfilled_inv (query : string) (limit_ offset_ : Z)
    (w w1 : World D R) (results : list AlbumSearchRecord) :
  searchAlbums env query limit_ offset_ w = (Fulfilled results, w1) ->
  exists items, results = formattedResults items limit_.
Proof.
  unfold searchAlbums, bind, request, ret.
  destruct (getAccessToken env w) as [[token|e] w0]; [|discriminate].
  destruct (get_search env _ token _ (remote w0)) as [[items|status] r'];
    [|discriminate].
  intros Heq. injection Heq as <- _. now exists items.
Qed.

Lemma searchAlbums_store (query : string) (limit_ offset_ : Z) (w : World D R) :
  store (snd (searchAlbums env query limit_ offset_ w)) = store w.
Proof.
  unfold searchAlbums.
  apply (bind_request_store env
           (fun token =>
              get_search env (baseUrl ++ "/search") token
                {| q := if JsString.isLikelySpotifyId query
                        then "id:" ++ query else query;
                   limit := 50;
                   offset := Z.min offset_ 950 |})).
Qed.

(** The [catchError] of the direct lookup on a status that is not 404. *)
Lemma lookup_handler_other (status : option Z) (notFound other : Exception) :
  status <> Some 404 ->
  match status with
  | Some 404 => notFound
  | _ => other
  end = other.
Proof.
  intros Hstatus. destruct status as [[|p|p]|]; try reflexivity.
  repeat (destruct p as [p|p|]; try reflexivity).
  exfalso. now apply Hstatus.
Qed.

Lemma alternativeLookup_store (externalId : string) (error : Exception)
    (w : World D R) :
  store (snd (alternativeLookup env externalId error w)) = store w.
Proof.
  unfold alternativeLookup, bind, ret, throw.
  pose proof (getAccessToken_store env w) as Htoken.
  destruct (getAccessToken env w) as [[token|e] w1]; simpl in *; [|exact Htoken].
  pose proof (request_store (D:=D)
                (get_album env
                   (baseUrl ++ "/albums/" ++ JsString.encodeURIComponent externalId)
                   token)
                (fun _ => error) w1) as Hrequest.
  destruct (request _ _ w1) as [[[altAlbum|]|e] w2]; simpl in *; congruence.
Qed.

(** The search fallback raises nothing but the error it was given. *)
Lemma searchFallback_outcome (externalId : string) (error : Exception)
    (w : World D R) :
  store (snd (searchFallback env externalId error w)) = store w
  /\ forall e w1,
       searchFallback env externalId error w = (Rejected e, w1) -> e = error.
Proof.
  unfold searchFallback, try_catch, bind, ret, throw.
  pose proof (searchAlbums_store externalId 5 0 w) as Hsearch.
  destruct (searchAlbums env externalId 5 0 w) as [[results|e0] w1]; simpl in *.
  - destruct results as [|first rest].
    + split; [exact Hsearch|]. intros e w2 Heq. now injection Heq as <- _.
    + destruct (exactMatch (first :: rest) externalId) as [found|].
      * split; [exact Hsearch|]. intros e w2 Heq. discriminate.
      * pose proof (alternativeLookup_store externalId error w1) as Halt.
        destruct (alternativeLookup env externalId error w1) as [[r|e1] w2];
          simpl in *.
        -- split; [congruence|]. intros e w3 Heq. discriminate.
        -- split; [congruence|]. intros e w3 Heq. now injection Heq as <- _.
  - split; [exact Hsearch|]. intros e w2 Heq. now injection Heq as <- _.
Qed.

(** The direct lookup, outcome by outcome. *)
Lemma directLookup_cases (externalId : string) (w : World D R) :
  directLookup env externalId w
  = match getAccessToken env w with
    | (Rejected e, w1) => (Rejected e, w1)
    | (Fulfilled token, w1) =>
        match get_album env (baseUrl ++ "/albums/" ++ JsString.trim externalId)
                token (remote w1) with
        | (AxiosError status, r') =>
            (Rejected
               match status with
               | Some 404 =>
                   NotFoundException
                     ("Album with ID " ++ JsString.trim externalId
                      ++ " not found in Spotify")
               | _ =>
                   InternalServerErrorException
                     "Failed to get album details from Spotify API"
               end,
             mkWorld (store w1) (accessToken w1) (tokenExpiry w1) r')
        | (AxiosResponse None, r') =>
            (Rejected
               (InternalServerErrorException
                  "Invalid album data received from Spotify"),
             mkWorld (store w1) (accessToken w1) (tokenExpiry w1) r')
        | (AxiosResponse (Some album_), r') =>
            if truthy (id album_)
            then (Fulfilled (FromLookup (formatDetails album_)),
                  mkWorld (store w1) (accessToken w1) (tokenExpiry w1) r')
            else (Rejected
                    (InternalServerErrorException
                       "Invalid album data received from Spotify"),
                  mkWorld (store w1) (accessToken w1) (tokenExpiry w1) r')
        end
    end.
Proof.
  unfold directLookup, bind, request, ret, throw.
  destruct (getAccessToken env w) as [[token|e] w1]; [|reflexivity].
  destruct (get_album env _ token (remote w1)) as [[[album_|]|status] r'];
    try reflexivity.
  destruct (truthy (id album_)); reflexivity.
Qed.

Lemma getAccessToken_rejection (w w1 : World D R) (e : Exception) :
  getAccessToken env w = (Rejected e, w1) -> instanceofHttpException e = false
                                             /\ instanceofNotFoundException e = false.
Proof.
  unfold getAccessToken.
  assert (Hrefresh :
    refreshAccessToken env w = (Rejected e, w1) ->
    instanceofHttpException e = false /\ instanceofNotFoundException e = false).
  { unfold refreshAccessToken.
    destruct (config_get env "SPOTIFY_CLIENT_ID") as [clientId|];
      [|intros Heq; injection Heq as <- _; now split].
    destruct (config_get env "SPOTIFY_CLIENT_SECRET") as [clientSecret|];
      [|intros Heq; injection Heq as <- _; now split].
    destruct (negb (clientId =? EmptyString)%string
              && negb (clientSecret =? EmptyString)%string);
      [|intros Heq; injection Heq as <- _; now split].
    destruct (post_token env clientId clientSecret (remote w))
      as [[data|status] r']; [discriminate|].
    intros Heq. injection Heq as <- _. now split. }
  destruct (accessToken w) as [cached|]; [|exact Hrefresh].
  destruct (tokenStillValid env w); [discriminate|exact Hrefresh].
Qed.

End CatalogResults.

Section AlbumLookup.

Import MusicApiService.

Variables D R : Type.
Variable env : Env R.

(** [getAlbumDetails] by the outcome of the token fetch and of the direct
    lookup. *)
Lemma getAlbumDetails_cases (externalId : string) (w : World D R) :
  getAlbumDetails env externalId w
  = match getAccessToken env w with
    | (Rejected e, w1) =>
        (Rejected
           (InternalServerErrorException
              "An error occurred while fetching album details"), w1)
    | (Fulfilled token, w1) =>
        match get_album env (baseUrl ++ "/albums/" ++ JsString.trim externalId)
                token (remote w1) with
        | (AxiosError status, r') =>
            match status with
            | Some 404 =>
                searchFallback env externalId
                  (NotFoundException
                     ("Album with ID " ++ JsString.trim externalId
                      ++ " not found in Spotify"))
                  (mkWorld (store w1) (accessToken w1) (tokenExpiry w1) r')
            | _ =>
                (Rejected
                   (InternalServerErrorException
                      "Failed to get album details from Spotify API"),
                 mkWorld (store w1) (accessToken w1) (tokenExpiry w1) r')
            end
        | (AxiosResponse None, r') =>
            (Rejected
               (InternalServerErrorException
                  "Invalid album data received from Spotify"),
             mkWorld (store w1) (accessToken w1) (tokenExpiry w1) r')
        | (AxiosResponse (Some album_), r') =>
            if truthy (id album_)
            then (Fulfilled (FromLookup (formatDetails album_)),
                  mkWorld (store w1) (accessToken w1) (tokenExpiry w1) r')
            else (Rejected
                    (InternalServerErrorException
                       "Invalid album data received from Spotify"),
                  mkWorld (store w1) (accessToken w1) (tokenExpiry w1) r')
        end
    end.
Proof.
  unfold getAlbumDetails, try_catch. rewrite directLookup_cases.
  destruct (getAccessToken env w) as [[token|e] w1] eqn:Htoken.
  - destruct (get_album env _ token (remote w1)) as [[[album_|]|status] r'];
      try reflexivity.
    + destruct (truthy (id album_)); reflexivity.
    + destruct status as [[|p|p]|]; try reflexivity.
      repeat (destruct p as [p|p|]; try reflexivity).
  - destruct (getAccessToken_rejection env w Htoken) as [Hhttp Hnotfound].
    rewrite Hnotfound, Hhttp. reflexivity.
Qed.

Lemma getAlbumDetails_store (externalId : string) (w : World D R) :
  store (snd (getAlbumDetails env externalId w)) = store w.
Proof.
  rewrite getAlbumDetails_cases.
  pose proof (getAccessToken_store env w) as Htoken.
  destruct (getAccessToken env w) as [[token|e] w1]; simpl in *; [|exact Htoken].
  destruct (get_album env _ token (remote w1)) as [[[album_|]|status] r'];
    simpl; try exact Htoken.
  - destruct (truthy (id album_)); exact Htoken.
  - assert (Hfallback : forall error,
              store (snd (searchFallback env externalId error
                            (mkWorld (store w1) (accessToken w1)
                               (tokenExpiry w1) r')))
              = store w).
    { intros error.
      rewrite (proj1 (searchFallback_outcome env externalId error _)).
      exact Htoken. }
    destruct status as [[|p|p]|]; try exact Htoken.
    repeat (destruct p as [p|p|]; try exact Htoken).
    apply Hfallback.
Qed.

End AlbumLookup.

(** X2.  Whatever the catalog answers, the records [searchAlbums] returns all
    have [albumType] "album" or "ep" (never "single" or another type), there
    are at most [limit] of them when [limit] is not negative, and the store
    is as before. *)
Theorem searchAlbums_only_albums_and_eps :
  forall (D R : Type) (env : Env R) (query : string) (limit_ offset_ : Z)
         (w w1 : World D R) (results : list AlbumSearchRecord),
    MusicApiService.searchAlbums env query limit_ offset_ w
    = (Fulfilled results, w1) ->
    Forall (fun record => s_albumType record = Some "album"
                          \/ s_albumType record = Some "ep") results
    /\ (0 <= limit_ -> (List.length results <= Z.to_nat limit_)%nat)
    /\ store w1 = store w.
Proof.
  intros D R env query limit_ offset_ w w1 results Hrun.
  destruct (searchAlbums_fulfilled_inv env query limit_ offset_ w Hrun)
    as [items ->].
  split; [apply formattedResults_types|]. split.
  - intros Hlimit. unfold MusicApiService.formattedResults.
    rewrite length_map. now apply slice0_length.
  - pose proof (searchAlbums_store env query limit_ offset_ w) as Hstore.
    now rewrite Hrun in Hstore.
Qed.

(** The theorem at the demo catalog with a limit of three: of the six entries
    the album, the two-track single and the single without track count come
    back, the last two as EPs. *)
Lemma searchAlbums_only_albums_and_eps_witness :
  exists results w1,
    MusicApiService.searchAlbums Demo.catalog "dark side" 3 0
      (Demo.world Demo.emptyDb)
    = (Fulfilled results, w1)
    /\ map s_albumType results = [Some "album"; Some "ep"; Some "ep"]
    /\ Forall (fun record => s_albumType record = Some "album"
                             \/ s_albumType record = Some "ep") results
    /\ (List.length results <= 3)%nat.
Proof.
  eexists. eexists. split; [vm_compute; reflexivity|]. split; [reflexivity|].
  destruct (@searchAlbums_only_albums_and_eps MemPrisma.Db Demo.Log Demo.catalog
              "dark side" 3 0 (Demo.world Demo.emptyDb) _ _ eq_refl)
    as (Htypes & Hlength & _).
  split; [exact Htypes|]. exact (Hlength ltac:(lia)).
Defined.

(** X3.  [getAlbumDetails] raises nothing but a [NotFoundException] or an
    [InternalServerErrorException]: the not-found error names the trimmed id
    and is raised only after the catalog answered the direct lookup with 404;
    a failed token fetch, any other failure of the lookup and a body without
    id each become one of three internal-server errors.  Whatever happens,
    the store is as before. *)
Theorem getAlbumDetails_rejections :
  forall (D R : Type) (env : Env R) (externalId : string) (w : World D R),
    store (snd (MusicApiService.getAlbumDetails env externalId w)) = store w
    /\ forall e w1,
         MusicApiService.getAlbumDetails env externalId w = (Rejected e, w1) ->
         (e = NotFoundException
                ("Album with ID " ++ JsString.trim externalId
                 ++ " not found in Spotify")
          /\ exists token w0 r',
               MusicApiService.getAccessToken env w = (Fulfilled token, w0)
               /\ get_album env
                    (MusicApiService.baseUrl ++ "/albums/"
                     ++ JsString.trim externalId) token (remote w0)
                  = (AxiosError (Some 404), r'))
         \/ e = InternalServerErrorException
                  "Failed to get album details from Spotify API"
         \/ e = InternalServerErrorException
                  "Invalid album data received from Spotify"
         \/ e = InternalServerErrorException
                  "An error occurred while fetching album details".
Proof.
  intros D R env externalId w. split; [apply getAlbumDetails_store|].
  intros e w1. rewrite getAlbumDetails_cases.
  destruct (MusicApiService.getAccessToken env w) as [[token|e0] w0].
  - destruct (get_album env _ token (remote w0)) as [[[album_|]|status] r']
      eqn:Hget.
    + destruct (truthy (id album_)); [discriminate|].
      intros Heq. injection Heq as <- _. auto.
    + intros Heq. injection Heq as <- _. auto.
    + assert (Hother :
        (Rejected
           (InternalServerErrorException
              "Failed to get album details from Spotify API"),
         mkWorld (store w0) (accessToken w0) (tokenExpiry w0) r')
        = (@Rejected AlbumDetailsResult e, w1) ->
        e = InternalServerErrorException
              "Failed to get album details from Spotify API").
      { intros Heq. now injection Heq as <- _. }
      destruct status as [[|p|p]|]; try (intros Heq; right; left; now apply Hother).
      repeat (destruct p as [p|p|];
              try (intros Heq; right; left; now apply Hother)).
      intros Hfallback. left.
      split.
      * exact (proj2 (searchFallback_outcome env externalId _ _) _ _ Hfallback).
      * exists token, w0, r'. now split.
  - intros Heq. injection Heq as <- _. auto.
Qed.

(** The theorem at the demo catalog for an id that is nowhere: the original
    not-found error comes back after the direct lookup, the search and the
    retry. *)
Lemma getAlbumDetails_rejections_witness :
  exists w1,
    MusicApiService.getAlbumDetails Demo.catalog " gone " (Demo.world Demo.emptyDb)
    = (Rejected (NotFoundException "Album with ID gone not found in Spotify"), w1)
    /\ store w1 = Demo.emptyDb.
Proof.
  destruct (@getAlbumDetails_rejections MemPrisma.Db Demo.Log Demo.catalog
              " gone " (Demo.world Demo.emptyDb)) as [Hstore Hrejected].
  eexists. split; [vm_compute; reflexivity|].
  destruct (Hrejected _ _ eq_refl) as [[_ _] | [H | [H | H]]];
    [reflexivity | discriminate H | discriminate H | discriminate H].
Defined.

(** X4.  With a token at hand, [getAlbumDetails] falls back on the search
    only after a 404: an album the catalog returns with an id is formatted
    and returned, and a failure with any other status (or none) is raised as
    "Failed to get album details from Spotify API"; in both cases the world
    is the one the lookup left, so nothing more was requested. *)
Theorem getAlbumDetails_direct :
  forall (D R : Type) (env : Env R) (externalId token : string)
         (w w0 : World D R),
    MusicApiService.getAccessToken env w = (Fulfilled token, w0) ->
    (forall album_ r',
        get_album env
          (MusicApiService.baseUrl ++ "/albums/" ++ JsString.trim externalId)
          token (remote w0)
        = (AxiosResponse (Some album_), r') ->
        truthy (id album_) = true ->
        MusicApiService.getAlbumDetails env externalId w
        = (Fulfilled (FromLookup (MusicApiService.formatDetails album_)),
           mkWorld (store w0) (accessToken w0) (tokenExpiry w0) r'))
    /\ (forall status r',
           get_album env
             (MusicApiService.baseUrl ++ "/albums/" ++ JsString.trim externalId)
             token (remote w0)
           = (AxiosError status, r') ->
           status <> Some 404 ->
           MusicApiService.getAlbumDetails env externalId w
           = (Rejected
                (InternalServerErrorException
                   "Failed to get album details from Spotify API"),
              mkWorld (store w0) (accessToken w0) (tokenExpiry w0) r')).
Proof.
  intros D R env externalId token w w0 Htoken. split.
  - intros album_ r' Hget Hid.
    rewrite getAlbumDetails_cases, Htoken, Hget, Hid. reflexivity.
  - intros status r' Hget Hstatus.
    rewrite getAlbumDetails_cases, Htoken, Hget.
    destruct status as [[|p|p]|]; try reflexivity.
    repeat (destruct p as [p|p|]; try reflexivity).
    now elim Hstatus.
Qed.

(** The theorem at the demo catalog: the lookup of "AC%2FDC" is answered, so
    the document of the catalog is returned and no search is made. *)
Lemma getAlbumDetails_direct_witness :
  fst (MusicApiService.getAlbumDetails Demo.catalog "AC%2FDC"
         (Demo.world Demo.emptyDb))
  = Fulfilled
      (FromLookup
         (MusicApiService.formatDetails (Demo.entry "AC/DC" "album" (Some 9)))).
Proof.
  destruct (@getAlbumDetails_direct MemPrisma.Db Demo.Log Demo.catalog "AC%2FDC"
              _ (Demo.world Demo.emptyDb) _ eq_refl) as [Hok _].
  rewrite (Hok _ _ eq_refl eq_refl). reflexivity.
Defined.

Section SearchMatch.

Import MusicApiService.

Variables D R : Type.
Variable env : Env R.

Lemma searchFallback_found (externalId : string) (error : Exception)
    (w w1 : World D R) (found : AlbumSearchRecord) :
  searchFallback env externalId error w = (Fulfilled (FromSearch found), w1) ->
  s_externalId found = Some externalId
  /\ (s_albumType found = Some "album" \/ s_albumType found = Some "ep").
Proof.
  unfold searchFallback, try_catch, bind, ret, throw.
  destruct (searchAlbums env externalId 5 0 w) as [[results|e0] w0] eqn:Hsearch;
    [|discriminate].
  destruct results as [|first rest]; [discriminate|].
  destruct (exactMatch (first :: rest) externalId) as [hit|] eqn:Hmatch.
  - intros Heq. injection Heq as <- _.
    destruct (exactMatch_found _ _ Hmatch) as [Hin Hid].
    split; [exact Hid|].
    destruct (searchAlbums_fulfilled_inv env externalId 5 0 w Hsearch)
      as [items Hitems].
    pose proof (formattedResults_types items 5) as Htypes.
    rewrite <- Hitems in Htypes. rewrite Forall_forall in Htypes.
    now apply Htypes.
  - unfold alternativeLookup, bind, request, ret, throw.
    destruct (getAccessToken env w0) as [[token|e] w2]; [|discriminate].
    destruct (get_album env _ token (remote w2)) as [[[altAlbum|]|status] r'];
      discriminate.
Qed.

End SearchMatch.

(** X5.  When [getAlbumDetails] answers with a record of the search, that
    record has exactly the requested external id (untrimmed) and its
    [albumType] is "album" or "ep": the fallback never returns another album,
    nor a one-track single. *)
Theorem getAlbumDetails_search_result_matches :
  forall (D R : Type) (env : Env R) (externalId : string) (w w1 : World D R)
         (found : AlbumSearchRecord),
    MusicApiService.getAlbumDetails env externalId w
    = (Fulfilled (FromSearch found), w1) ->
    s_externalId found = Some externalId
    /\ (s_albumType found = Some "album" \/ s_albumType found = Some "ep").
Proof.
  intros D R env externalId w w1 found. rewrite getAlbumDetails_cases.
  destruct (MusicApiService.getAccessToken env w) as [[token|e0] w0];
    [|discriminate].
  destruct (get_album env _ token (remote w0)) as [[[album_|]|status] r'].
  - destruct (truthy (id album_)); discriminate.
  - discriminate.
  - destruct status as [[|p|p]|]; try discriminate.
    repeat (destruct p as [p|p|]; try discriminate).
    apply searchFallback_found.
Qed.

(** The theorem at the demo catalog, where "album123" is found by the search
    only. *)
Lemma getAlbumDetails_search_result_matches_witness :
  exists found w1,
    MusicApiService.getAlbumDetails Demo.catalog "album123"
      (Demo.world Demo.emptyDb)
    = (Fulfilled (FromSearch found), w1)
    /\ s_externalId found = Some "album123"
    /\ s_albumType found = Some "album".
Proof.
  eexists. eexists. split; [vm_compute; reflexivity|].
  split; [|reflexivity].
  exact (proj1 (@getAlbumDetails_search_result_matches MemPrisma.Db Demo.Log
                  Demo.catalog "album123" (Demo.world Demo.emptyDb) _ _ eq_refl)).
Defined.

(** X6.  [testAlbumId] never raises: it answers [true] exactly when a token
    was obtained and the catalog answered the lookup of the id (as given, not
    trimmed) with a response, and [false] otherwise; the store is as
    before. *)
Theorem testAlbumId_never_rejects :
  forall (D R : Type) (env : Env R) (albumId_ : string) (w : World D R),
    exists isValid w1,
      MusicApiChecks.testAlbumId env albumId_ w = (Fulfilled isValid, w1)
      /\ store w1 = store w
      /\ (isValid = true <->
          exists token w0 data r',
            MusicApiService.getAccessToken env w = (Fulfilled token, w0)
            /\ get_album env (MusicApiService.baseUrl ++ "/albums/" ++ albumId_)
                 token (remote w0)
               = (AxiosResponse data, r')).
Proof.
  intros D R env albumId_ w.
  unfold MusicApiChecks.testAlbumId, try_catch, bind, MusicApiService.request, ret.
  pose proof (getAccessToken_store env w) as Hstore.
  destruct (MusicApiService.getAccessToken env w) as [[token|e] w0];
    simpl in Hstore.
  - destruct (get_album env _ token (remote w0)) as [[data|status] r'] eqn:Hget.
    + eexists. eexists. split; [reflexivity|]. split; [exact Hstore|].
      split; [intros _|reflexivity].
      exists token, w0, data, r'. now split.
    + eexists. eexists. split; [reflexivity|]. split; [exact Hstore|].
      split; [discriminate|].
      intros (token' & w0' & data & r'' & Htoken & Hget').
      injection Htoken as <- <-. rewrite Hget in Hget'. discriminate.
  - eexists. eexists. split; [reflexivity|]. split; [exact Hstore|].
    split; [discriminate|].
    intros (token' & w0' & data & r'' & Htoken & _). discriminate.
Qed.

Example testAlbumId_demo :
  fst (MusicApiChecks.testAlbumId Demo.catalog "b%20side" (Demo.world Demo.emptyDb))
  = Fulfilled true
  /\ fst (MusicApiChecks.testAlbumId Demo.catalog "gone" (Demo.world Demo.emptyDb))
     = Fulfilled false.
Proof. split; reflexivity. Qed.

(** ** Keys and unique columns *)

Section Keys.

Import MemPrisma MemQueries.

Lemma NoDup_app_last {A} (l : list A) (x : A) :
  NoDup l -> ~ In x l -> NoDup (l ++ [x]).
Proof.
  intros Hnodup Hnew.
  apply (Permutation_NoDup (l:=x :: l)).
  - apply Permutation_cons_append.
  - now constructor.
Qed.

Lemma find_key_NoDup {A} (key : A -> Z) (l : list A) (x : A) :
  NoDup (map key l) -> In x l -> find (fun y => key y =? key x) l = Some x.
Proof.
  induction l as [|y l IH]; simpl; intros Hnodup Hin; [destruct Hin|].
  inversion Hnodup as [|? ? Hfresh Hrest]; subst.
  destruct Hin as [-> | Hin].
  - now rewrite Z.eqb_refl.
  - destruct (key y =? key x) eqn:Heq.
    + apply Z.eqb_eq in Heq. elim Hfresh. rewrite Heq. now apply in_map.
    + now apply IH.
Qed.

Lemma keysOk_add {A} (key : A -> Z) (rows : list A) (seq : Z) (row : A) :
  keysOk key rows seq ->
  key row = seq + 1 ->
  keysOk key (rows ++ [row]) (seq + 1).
Proof.
  intros [Hnodup Hbound] Hkey. split.
  - rewrite map_app. simpl. apply NoDup_app_last; [exact Hnodup|].
    intros Hin. apply in_map_iff in Hin. destruct Hin as (y & Hy & Hin).
    rewrite Forall_forall in Hbound. specialize (Hbound y Hin). lia.
  - apply Forall_app. split.
    + apply Forall_forall. intros y Hin.
      rewrite Forall_forall in Hbound. specialize (Hbound y Hin). lia.
    + constructor; [lia|constructor].
Qed.

Lemma findArtist_none_fresh (db : Db) (e : string) :
  findArtist db (ArtistByExternalId e) = None ->
  ~ In e (map artist_externalId (db_artists db)).
Proof.
  intros Hnone Hin. apply in_map_iff in Hin. destruct Hin as (a & Ha & Hin).
  pose proof (find_none _ _ Hnone a Hin) as Hfalse. simpl in Hfalse.
  rewrite Ha, String.eqb_refl in Hfalse. discriminate.
Qed.

Lemma findAlbum_none_fresh (db : Db) (e : string) :
  findAlbum db (AlbumByExternalId e) = None ->
  ~ In e (map album_externalId (db_albums db)).
Proof.
  intros Hnone Hin. apply in_map_iff in Hin. destruct Hin as (a & Ha & Hin).
  pose proof (find_none _ _ Hnone a Hin) as Hfalse. simpl in Hfalse.
  rewrite Ha, String.eqb_refl in Hfalse. discriminate.
Qed.

Lemma artistAdded_keeps (db db' : Db) (data : CreateArtistDto) :
  artistAdded db data db' ->
  (keysOk artist_id (db_artists db) (artist_seq db) ->
   keysOk artist_id (db_artists db') (artist_seq db'))
  /\ (uniqueArtists db -> uniqueArtists db')
  /\ (albumsHaveArtists db -> albumsHaveArtists db')
  /\ db_albums db' = db_albums db
  /\ db_reviews db' = db_reviews db
  /\ db_users db' = db_users db
  /\ album_seq db' = album_seq db
  /\ review_seq db' = review_seq db
  /\ In (insertedArtist db data) (db_artists db')
  /\ (forall a, In a (db_artists db) -> In a (db_artists db')).
Proof.
  intros [Hnone ->]. simpl.
  split; [|split; [|split; [|repeat (split; [reflexivity|]); split]]].
  - intros Hkeys. now apply keysOk_add.
  - intros Hunique. unfold uniqueArtists in *. simpl. rewrite map_app. simpl.
    apply NoDup_app_last; [exact Hunique|]. now apply findArtist_none_fresh.
  - intros Hfk a Hin. simpl in *. destruct (Hfk a Hin) as (owner & Hown & Hid).
    exists owner. split; [apply in_or_app; now left|exact Hid].
  - apply in_or_app. right. now left.
  - intros a Hin. apply in_or_app. now left.
Qed.

End Keys.

(** ** Artists: lookups by id and what resolution does to the store *)

Section ArtistStore.

Import MemPrisma MemQueries.

Variable R : Type.
Variable env : Env R.

(** [ArtistsService.create] over the in-memory store never raises: it returns
    the row the store has, or inserts one. *)
Lemma artist_create_cases (data : CreateArtistDto) (w : World Db R) :
  exists p w1,
    ArtistsService.create client data w = (Fulfilled p, w1)
    /\ accessToken w1 = accessToken w
    /\ tokenExpiry w1 = tokenExpiry w
    /\ remote w1 = remote w
    /\ artist_externalId (artist p) = ca_externalId data
    /\ findArtist (store w1) (ArtistByExternalId (ca_externalId data))
       = Some (artist p)
    /\ ((store w1 = store w
         /\ findArtist (store w) (ArtistByExternalId (ca_externalId data))
            = Some (artist p))
        \/ (artistAdded (store w) data (store w1)
            /\ artist p = insertedArtist (store w) data)).
Proof.
  destruct (findArtist (store w) (ArtistByExternalId (ca_externalId data)))
    as [a|] eqn:Hfind.
  - exists {| artist := a; artist_albums := None |}, w.
    split; [now apply create_existing|]. simpl.
    repeat (split; [reflexivity|]).
    split; [|split; [exact Hfind|now left]].
    apply find_some in Hfind. destruct Hfind as [_ Heq]. simpl in Heq.
    now apply String.eqb_eq.
  - eexists. eexists. split; [now apply create_inserts|]. simpl.
    repeat (split; [reflexivity|]).
    split.
    + unfold findArtist. simpl. rewrite find_app_last by exact Hfind.
      simpl. now rewrite String.eqb_refl.
    + right. split; [|reflexivity]. split; [exact Hfind|reflexivity].
Qed.

(** What [getArtistDetailsByExternalId] does to the store, whatever its
    outcome, and where the row it returns is. *)
Lemma resolve_artist_store (externalId : string) (w : World Db R) :
  (store (snd (ArtistsService.getArtistDetailsByExternalId client env externalId w))
   = store w
   \/ exists data,
        artistAdded (store w) data
          (store (snd (ArtistsService.getArtistDetailsByExternalId client env
                         externalId w))))
  /\ forall p w1,
       ArtistsService.getArtistDetailsByExternalId client env externalId w
       = (Fulfilled p, w1) ->
       In (artist p) (db_artists (store w1))
       /\ findArtist (store w1) (ArtistByExternalId (artist_externalId (artist p)))
          = Some (artist p).
Proof.
  destruct (findArtist (store w) (ArtistByExternalId externalId)) as [a|] eqn:Hfind.
  - rewrite (resolve_hit env externalId w Hfind). simpl. split; [now left|].
    intros p w1 Heq. injection Heq as <- <-. simpl.
    pose proof (find_some _ _ Hfind) as [Hin Hext]. simpl in Hext.
    apply String.eqb_eq in Hext. split; [exact Hin|]. now rewrite Hext.
  - rewrite (resolve_miss env externalId w Hfind).
    pose proof (getArtistDetails_store env externalId w) as Hframe.
    destruct (MusicApiService.getArtistDetails env externalId w)
      as [[artistDetails|e] w'] eqn:Hdetails; simpl in Hframe.
    + destruct (artist_create_cases
                  {| ca_externalId := a_externalId artistDetails;
                     ca_name := a_name artistDetails;
                     ca_imageUrl := a_imageUrl artistDetails |} w')
        as (p & w1 & Hcreate & _ & _ & _ & Hext & Hnow & Hcases).
      rewrite Hcreate. simpl. split.
      * destruct Hcases as [[Hsame _] | [Hadded _]].
        -- left. congruence.
        -- right. eexists. rewrite <- Hframe. exact Hadded.
      * intros p' w1' Heq. injection Heq as <- <-.
        simpl in Hext, Hnow. rewrite Hext. split; [|exact Hnow].
        now apply find_some in Hnow.
    + simpl. split; [now left|]. discriminate.
Qed.

End ArtistStore.

(** X7.  [getArtistAlbums] for an id no artist row has raises NotFound and
    leaves the world as it is: neither a token nor the catalog's albums are
    requested.  For an id that is a safe integer the message is "Artist with
    ID <id> not found", with the digits of the id. *)
Theorem getArtistAlbums_unknown_artist :
  forall (R : Type) (env : Env R) (artistId_ : Z) (w : World MemPrisma.Db R),
    ~ MemQueries.hasArtist (store w) artistId_ ->
    exists message,
      ArtistsService.getArtistAlbums MemPrisma.client env artistId_ w
      = (Rejected (NotFoundException message), w)
      /\ (isSafeInteger artistId_ ->
          message = "Artist with ID " ++ showZ artistId_ ++ " not found").
Proof.
  intros R env artistId_ w Hnone.
  assert (Hfind : MemPrisma.findArtist (store w) (ArtistById artistId_) = None).
  { apply find_none_iff. intros a Hin. simpl. apply Z.eqb_neq.
    intros Hid. apply Hnone. now exists a. }
  unfold ArtistsService.getArtistAlbums, bind, liftStore, throw. simpl.
  unfold MemPrisma.artist_findUnique. rewrite Hfind. simpl.
  rewrite withStore_same. eexists. split; [reflexivity|]. intros _. reflexivity.
Qed.

Lemma getArtistAlbums_unknown_artist_witness :
  ArtistsService.getArtistAlbums MemPrisma.client Demo.catalog 999
    (Demo.world Demo.albumDb)
  = (Rejected (NotFoundException "Artist with ID 999 not found"),
     Demo.world Demo.albumDb).
Proof.
  destruct (@getArtistAlbums_unknown_artist Demo.Log Demo.catalog 999
              (Demo.world Demo.albumDb)) as (message & Hrun & Hmessage).
  { intros (a & [<- | []] & Hid). discriminate Hid. }
  rewrite Hrun, Hmessage; [reflexivity|].
  unfold isSafeInteger. simpl. lia.
Defined.

Lemma resolve_artist_keeps :
  forall (R : Type) (env : Env R) (externalId : string)
         (w : World MemPrisma.Db R),
    let db := store w in
    let db' :=
      store (snd (ArtistsService.getArtistDetailsByExternalId MemPrisma.client env
                    externalId w)) in
    (MemQueries.keysOk artist_id (MemPrisma.db_artists db) (MemPrisma.artist_seq db) ->
     MemQueries.keysOk artist_id (MemPrisma.db_artists db')
       (MemPrisma.artist_seq db'))
    /\ (MemQueries.uniqueArtists db -> MemQueries.uniqueArtists db')
    /\ (MemQueries.albumsHaveArtists db -> MemQueries.albumsHaveArtists db')
    /\ MemPrisma.db_albums db' = MemPrisma.db_albums db
    /\ MemPrisma.db_reviews db' = MemPrisma.db_reviews db
    /\ MemPrisma.db_users db' = MemPrisma.db_users db.
Proof.
  intros R env externalId w db db'.
  destruct (proj1 (resolve_artist_store env externalId w)) as [Hsame | [data Hadded]].
  - subst db db'. rewrite Hsame.
    split; [|split; [|split; [|split; [|split]]]]; auto.
  - destruct (artistAdded_keeps Hadded)
      as (Hkeys & Hunique & Hfk & Halbums & Hreviews & Husers & _).
    subst db db'.
    split; [|split; [|split; [|split; [|split]]]]; assumption.
Qed.

(** X8.  Resolving an artist keeps the store well formed, whatever the
    catalog answers and whether the call returns or raises: artist ids stay
    distinct and behind the sequence, external ids stay distinct, every album
    keeps an artist, and no other table changes. *)
Theorem artist_resolution_keeps_store_well_formed :
  forall (R : Type) (env : Env R) (externalId : string)
         (w : World MemPrisma.Db R),
    let db := store w in
    let db' :=
      store (snd (ArtistsService.getArtistDetailsByExternalId MemPrisma.client env
                    externalId w)) in
    (MemQueries.keysOk artist_id (MemPrisma.db_artists db) (MemPrisma.artist_seq db) ->
     MemQueries.keysOk artist_id (MemPrisma.db_artists db')
       (MemPrisma.artist_seq db'))
    /\ (MemQueries.uniqueArtists db -> MemQueries.uniqueArtists db')
    /\ (MemQueries.albumsHaveArtists db -> MemQueries.albumsHaveArtists db')
    /\ MemPrisma.db_albums db' = MemPrisma.db_albums db
    /\ MemPrisma.db_reviews db' = MemPrisma.db_reviews db
    /\ MemPrisma.db_users db' = MemPrisma.db_users db.
Proof.
  intros R env externalId w. exact (resolve_artist_keeps env externalId w).
Qed.

(** The theorem at the first resolution of "artist123" on the empty store. *)
Lemma artist_resolution_keeps_store_well_formed_witness :
  MemQueries.uniqueArtists Demo.emptyDb
  /\ MemQueries.uniqueArtists
       (store (snd (ArtistsService.getArtistDetailsByExternalId MemPrisma.client
                      Demo.catalog "artist123" (Demo.world Demo.emptyDb))))
  /\ MemQueries.keysOk artist_id
       (MemPrisma.db_artists
          (store (snd (ArtistsService.getArtistDetailsByExternalId MemPrisma.client
                         Demo.catalog "artist123" (Demo.world Demo.emptyDb)))))
       1.
Proof.
  assert (Hunique : MemQueries.uniqueArtists Demo.emptyDb) by constructor.
  assert (Hkeys : MemQueries.keysOk artist_id (MemPrisma.db_artists Demo.emptyDb)
                    (MemPrisma.artist_seq Demo.emptyDb)).
  { split; constructor. }
  destruct (@artist_resolution_keeps_store_well_formed Demo.Log Demo.catalog
              "artist123" (Demo.world Demo.emptyDb)) as (Hk & Hu & _).
  split; [exact Hunique|]. split; [exact (Hu Hunique)|].
  exact (Hk Hkeys).
Defined.

(** X9.  [findOne] of an artist: NotFound, with the world unchanged, when no
    artist row has the id; for a safe integer id the message is "Artist with
    ID <id> not found".  On a store whose artist ids are distinct and none of
    them ahead of the sequence of the table (see [MemQueries.keysOk]), the
    row a resolution by external id returned is the one [findOne] returns
    for its id, together with the album rows of that artist. *)
Theorem artist_findOne_after_resolution :
  forall (R : Type) (env : Env R) (w : World MemPrisma.Db R),
    (forall id_,
        ~ MemQueries.hasArtist (store w) id_ ->
        exists message,
          ArtistsQueries.findOne MemPrisma.client id_ w
          = (Rejected (NotFoundException message), w)
          /\ (isSafeInteger id_ ->
              message = "Artist with ID " ++ showZ id_ ++ " not found"))
    /\ (forall externalId first w1,
           MemQueries.keysOk artist_id (MemPrisma.db_artists (store w))
             (MemPrisma.artist_seq (store w)) ->
           ArtistsService.getArtistDetailsByExternalId MemPrisma.client env
             externalId w
           = (Fulfilled first, w1) ->
           ArtistsQueries.findOne MemPrisma.client (artist_id (artist first)) w1
           = (Fulfilled
                {| artist := artist first;
                   artist_albums :=
                     Some (MemPrisma.albumsOf (store w1) (artist_id (artist first))) |},
              w1)).
Proof.
  intros R env w. split.
  - intros id_ Hnone.
    assert (Hfind : MemPrisma.findArtist (store w) (ArtistById id_) = None).
    { apply find_none_iff. intros a Hin. simpl. apply Z.eqb_neq.
      intros Hid. apply Hnone. now exists a. }
    unfold ArtistsQueries.findOne, bind, liftStore, throw. simpl.
    unfold MemPrisma.artist_findUnique. rewrite Hfind. simpl.
    rewrite withStore_same. eexists. split; [reflexivity|]. intros _. reflexivity.
  - intros externalId first w1 Hkeys Hfirst.
    pose proof (@resolve_artist_keeps R env externalId w) as Hkept.
    simpl in Hkept. rewrite Hfirst in Hkept. simpl in Hkept.
    destruct Hkept as (Hkeys1 & _). specialize (Hkeys1 Hkeys).
    destruct (proj2 (resolve_artist_store env externalId w) _ _ Hfirst) as [Hin _].
    assert (Hfind : MemPrisma.findArtist (store w1) (ArtistById (artist_id (artist first)))
                    = Some (artist first)).
    { unfold MemPrisma.findArtist. simpl.
      apply find_key_NoDup; [exact (proj1 Hkeys1)|exact Hin]. }
    unfold ArtistsQueries.findOne, bind, liftStore, ret. simpl.
    unfold MemPrisma.artist_findUnique. rewrite Hfind. simpl.
    now rewrite withStore_same.
Qed.

Lemma artist_findOne_after_resolution_witness :
  exists first w1,
    ArtistsService.getArtistDetailsByExternalId MemPrisma.client Demo.catalog
      "artist123" (Demo.world Demo.emptyDb)
    = (Fulfilled first, w1)
    /\ fst (ArtistsQueries.findOne MemPrisma.client (artist_id (artist first)) w1)
       = Fulfilled
           {| artist := artist first;
              artist_albums :=
                Some (MemPrisma.albumsOf (store w1) (artist_id (artist first))) |}
    /\ fst (ArtistsQueries.findOne (R:=Demo.Log) MemPrisma.client 5
              (Demo.world Demo.emptyDb))
       = Rejected (NotFoundException "Artist with ID 5 not found").
Proof.
  destruct (@artist_findOne_after_resolution Demo.Log Demo.catalog
              (Demo.world Demo.emptyDb)) as [Hnone Hround].
  destruct (ArtistsService.getArtistDetailsByExternalId MemPrisma.client
              Demo.catalog "artist123" (Demo.world Demo.emptyDb))
    as [[first|e] w1] eqn:Hrun; [|vm_compute in Hrun; discriminate Hrun].
  exists first, w1. split; [reflexivity|]. split.
  - rewrite (Hround "artist123" first w1); [reflexivity| |exact Hrun].
    split; constructor.
  - destruct (Hnone 5) as (message & Hmissing & Hmessage).
    { intros (a & [] & _). }
    rewrite Hmissing, Hmessage; [reflexivity|].
    unfold isSafeInteger. simpl. lia.
Defined.

(** ** Albums: what creation and resolution do to the store *)

Section AlbumStore.

Import MemPrisma MemQueries.

Lemma albumAdded_keeps (db db' : Db) (data : AlbumCreateInput) :
  albumAdded db data db' -> wellFormed db -> wellFormed db'.
Proof.
  intros (Hnone & (owner & Howner) & ->)
         (Hartists & Halbums & Hreviews & Huartists & Hualbums & Hureviews
          & Hfk & Hparents).
  unfold wellFormed. simpl.
  split; [exact Hartists|]. split; [now apply keysOk_add|].
  split; [exact Hreviews|]. split; [exact Huartists|].
  split; [|split; [exact Hureviews|split]].
  - unfold uniqueAlbums in *. simpl. rewrite map_app. simpl.
    apply NoDup_app_last; [exact Hualbums|]. now apply findAlbum_none_fresh.
  - intros a Hin. simpl in *. apply in_app_or in Hin. destruct Hin as [Hin | [<- | []]].
    + exact (Hfk a Hin).
    + apply find_some in Howner. destruct Howner as [Hin Hid]. simpl in Hid.
      exists owner. split; [exact Hin|]. now apply Z.eqb_eq.
  - intros r Hin. simpl in *. destruct (Hparents r Hin) as [Huser (a & Ha & Hid)].
    split; [exact Huser|]. exists a. split; [|exact Hid].
    simpl. apply in_or_app. now left.
Qed.

Lemma artistAdded_wellFormed (db db' : Db) (data : CreateArtistDto) :
  artistAdded db data db' -> wellFormed db -> wellFormed db'.
Proof.
  intros Hadded
         (Hartists & Halbums & Hreviews & Huartists & Hualbums & Hureviews
          & Hfk & Hparents).
  destruct (artistAdded_keeps Hadded)
    as (Hkeys & Hunique & Hfk' & Htable & Hrows & Husers & Hseq & Hrseq & _).
  unfold wellFormed, uniqueAlbums, uniqueReviews, reviewsHaveParents,
    hasUser, hasAlbum in *.
  rewrite Htable, Hrows, Husers, Hseq, Hrseq.
  repeat (split; [auto; fail|]). exact Hparents.
Qed.

Lemma getAccessToken_rejection_code (D' R' : Type) (env' : Env R')
    (w w1 : World D' R') (e : Exception) :
  MusicApiService.getAccessToken env' w = (Rejected e, w1) -> code e = None.
Proof.
  unfold MusicApiService.getAccessToken.
  assert (Hrefresh :
    MusicApiService.refreshAccessToken env' w = (Rejected e, w1) -> code e = None).
  { unfold MusicApiService.refreshAccessToken.
    destruct (config_get env' "SPOTIFY_CLIENT_ID") as [clientId|];
      [|intros Heq; now injection Heq as <- _].
    destruct (config_get env' "SPOTIFY_CLIENT_SECRET") as [clientSecret|];
      [|intros Heq; now injection Heq as <- _].
    destruct (negb (clientId =? EmptyString)%string
              && negb (clientSecret =? EmptyString)%string);
      [|intros Heq; now injection Heq as <- _].
    destruct (post_token env' clientId clientSecret (remote w))
      as [[data|status] r']; [discriminate|].
    intros Heq. now injection Heq as <- _. }
  destruct (accessToken w) as [cached|]; [|exact Hrefresh].
  destruct (MusicApiService.tokenStillValid env' w); [discriminate|exact Hrefresh].
Qed.

Lemma getArtistDetails_rejection_code (D' R' : Type) (env' : Env R')
    (externalId : string) (w w1 : World D' R') (e : Exception) :
  MusicApiService.getArtistDetails env' externalId w = (Rejected e, w1) ->
  code e = None.
Proof.
  unfold MusicApiService.getArtistDetails, bind, MusicApiService.request, ret.
  destruct (MusicApiService.getAccessToken env' w) as [[token|e0] w0] eqn:Htoken.
  - destruct (get_artist env' _ token (remote w0)) as [[a|status] r'];
      [discriminate|].
    intros Heq. now injection Heq as <- _.
  - intros Heq. injection Heq as <- _.
    exact (getAccessToken_rejection_code env' w Htoken).
Qed.

Variable R : Type.
Variable env : Env R.

(** [findOrCreateArtist] over the in-memory store: when it returns, the
    artist it returns is a row of the store. *)
Lemma findOrCreateArtist_store (data : CreateAlbumDto) (w : World Db R) :
  (store (snd (AlbumsService.findOrCreateArtist client env data w)) = store w
   \/ exists added,
        artistAdded (store w) added
          (store (snd (AlbumsService.findOrCreateArtist client env data w))))
  /\ (forall owner w1,
         AlbumsService.findOrCreateArtist client env data w = (Fulfilled owner, w1) ->
         In (artist owner) (db_artists (store w1)))
  /\ (forall e w1,
         AlbumsService.findOrCreateArtist client env data w = (Rejected e, w1) ->
         code e = None).
Proof.
  unfold AlbumsService.findOrCreateArtist, bind, liftStore, ret. simpl.
  unfold artist_findUnique.
  destruct (findArtist (store w) (ArtistByExternalId (cb_artistExternalId data)))
    as [a|] eqn:Hfind; simpl.
  - split; [now left|]. split.
    + intros owner w1 Heq. injection Heq as <- <-. simpl.
      now apply find_some in Hfind.
    + discriminate.
  - rewrite withStore_same.
    pose proof (getArtistDetails_store env (cb_artistExternalId data) w) as Hframe.
    destruct (MusicApiService.getArtistDetails env (cb_artistExternalId data) w)
      as [[artistDetails|e] w'] eqn:Hdetails; simpl in Hframe.
    + destruct (artist_create_cases
                  {| ca_externalId := a_externalId artistDetails;
                     ca_name := a_name artistDetails;
                     ca_imageUrl := a_imageUrl artistDetails |} w')
        as (p & w1 & Hcreate & _ & _ & _ & _ & Hnow & Hcases).
      rewrite Hcreate. simpl. split; [|split].
      * destruct Hcases as [[Hsame _] | [Hadded _]].
        -- left. congruence.
        -- right. eexists. rewrite <- Hframe. exact Hadded.
      * intros owner w1' Heq. injection Heq as <- <-.
        now apply find_some in Hnow.
      * discriminate.
    + simpl. split; [now left|]. split; [discriminate|].
      intros e' w1 Heq. injection Heq as <- _.
      exact (getArtistDetails_rejection_code env _ _ Hdetails).
Qed.

End AlbumStore.

Section AlbumCreation.

Import MemPrisma MemQueries.

Variable R : Type.
Variable env : Env R.

Lemma mem_album_create_ok (db : Db) (input : AlbumCreateInput) :
  findAlbum db (AlbumByExternalId (ai_externalId input)) = None ->
  (exists owner, findArtist db (ArtistById (ai_connectArtistId input)) = Some owner) ->
  exists db',
    album_create input db = (Fulfilled (withArtist db (insertedAlbum db input)), db')
    /\ albumAdded db input db'.
Proof.
  intros Hnone [owner Howner]. unfold album_create. rewrite Hnone, Howner.
  eexists. split; [reflexivity|].
  split; [exact Hnone|]. split; [now exists owner|reflexivity].
Qed.

Lemma findAlbum_after_add (db db' : Db) (input : AlbumCreateInput) :
  albumAdded db input db' ->
  findAlbum db' (AlbumByExternalId (ai_externalId input))
  = Some (insertedAlbum db input).
Proof.
  intros (Hnone & _ & ->). unfold findAlbum. simpl.
  rewrite find_app_last by exact Hnone. simpl. now rewrite String.eqb_refl.
Qed.

End AlbumCreation.

Section AlbumCreationOutcome.

Variable R : Type.
Variable env : Env R.

Lemma rethrowDuplicate_no_code {W A} (message : string) (e : Exception) (w : W) :
  code e = None -> @rethrowDuplicate W A message e w = (Rejected e, w).
Proof. intros Hcode. unfold rethrowDuplicate. now rewrite Hcode. Qed.

(** The store after [findOrCreateArtist] has the albums it had and, when the
    call returned, a row for the artist it returned. *)
Lemma findOrCreateArtist_after (data : CreateAlbumDto) (w : World MemPrisma.Db R) :
  (MemQueries.wellFormed (store w) ->
   MemQueries.wellFormed
     (store (snd (AlbumsService.findOrCreateArtist MemPrisma.client env data w))))
  /\ MemPrisma.db_albums
       (store (snd (AlbumsService.findOrCreateArtist MemPrisma.client env data w)))
     = MemPrisma.db_albums (store w).
Proof.
  destruct (proj1 (findOrCreateArtist_store env data w)) as [-> | [added Hadded]].
  - now split.
  - split; [now apply (artistAdded_wellFormed Hadded)|].
    now destruct (artistAdded_keeps Hadded) as (_ & _ & _ & Halbums & _).
Qed.

(** [AlbumsService.create] over the in-memory store, step by step. *)
Lemma album_create_run (data : CreateAlbumDto) (w : World MemPrisma.Db R) :
  AlbumsService.create MemPrisma.client env data w
  = match MemPrisma.findAlbum (store w) (AlbumByExternalId (cb_externalId data)) with
    | Some existingAlbum =>
        (Fulfilled {| album := existingAlbum; album_artist := None |}, w)
    | None =>
        match AlbumsService.findOrCreateArtist MemPrisma.client env data w with
        | (Fulfilled owner, w2) =>
            (Fulfilled
               (MemPrisma.withArtist (store w2)
                  (MemQueries.insertedAlbum (store w2)
                     (AlbumsService.albumInput data owner))),
             withStore w2
               (MemPrisma.mkDb (MemPrisma.db_users (store w2))
                  (MemPrisma.db_artists (store w2))
                  (MemPrisma.db_albums (store w2)
                   ++ [MemQueries.insertedAlbum (store w2)
                         (AlbumsService.albumInput data owner)])
                  (MemPrisma.db_reviews (store w2))
                  (MemPrisma.artist_seq (store w2))
                  (MemPrisma.album_seq (store w2) + 1)
                  (MemPrisma.review_seq (store w2))
                  (MemPrisma.db_now (store w2))))
        | (Rejected e, w2) => (Rejected e, w2)
        end
    end.
Proof.
  unfold AlbumsService.create, try_catch, bind, liftStore, ret.
  unfold MemPrisma.client at 1. cbn [album_findUnique].
  unfold MemPrisma.album_findUnique.
  destruct (MemPrisma.findAlbum (store w) (AlbumByExternalId (cb_externalId data)))
    as [existing|] eqn:Hfind.
  - now rewrite withStore_same.
  - rewrite withStore_same.
    pose proof (findOrCreateArtist_store env data w) as (_ & Hin & Hcode).
    pose proof (findOrCreateArtist_after data w) as [_ Halbums].
    destruct (AlbumsService.findOrCreateArtist MemPrisma.client env data w)
      as [[owner|e] w2]; simpl in Halbums.
    + unfold MemPrisma.client at 1. cbn [album_create].
      destruct (mem_album_create_ok (store w2) (AlbumsService.albumInput data owner))
        as (db' & Hcreate & _ & _ & ->).
      * unfold MemPrisma.findAlbum. rewrite Halbums. exact Hfind.
      * specialize (Hin owner w2 eq_refl).
        apply (find_some_of (fun a => artist_id a =? artist_id (artist owner)) _ _ Hin).
        apply Z.eqb_refl.
      * rewrite Hcreate. reflexivity.
    + apply rethrowDuplicate_no_code. exact (Hcode e w2 eq_refl).
Qed.

Lemma album_create_outcome (data : CreateAlbumDto) (w : World MemPrisma.Db R) :
  (MemQueries.wellFormed (store w) ->
   MemQueries.wellFormed
     (store (snd (AlbumsService.create MemPrisma.client env data w))))
  /\ MemPrisma.db_reviews
       (store (snd (AlbumsService.create MemPrisma.client env data w)))
     = MemPrisma.db_reviews (store w)
  /\ MemPrisma.db_users
       (store (snd (AlbumsService.create MemPrisma.client env data w)))
     = MemPrisma.db_users (store w)
  /\ forall p w1,
       AlbumsService.create MemPrisma.client env data w = (Fulfilled p, w1) ->
       album_externalId (album p) = cb_externalId data
       /\ MemPrisma.findAlbum (store w1) (AlbumByExternalId (cb_externalId data))
          = Some (album p).
Proof.
  rewrite album_create_run.
  destruct (MemPrisma.findAlbum (store w) (AlbumByExternalId (cb_externalId data)))
    as [existing|] eqn:Hfind.
  - simpl. split; [auto|]. split; [reflexivity|]. split; [reflexivity|].
    intros p w1 Heq. injection Heq as <- <-. simpl. split; [|exact Hfind].
    apply find_some in Hfind. destruct Hfind as [_ Heq]. simpl in Heq.
    now apply String.eqb_eq.
  - pose proof (findOrCreateArtist_store env data w) as (Hstore & Hin & _).
    pose proof (findOrCreateArtist_after data w) as [Hwf Halbums].
    assert (Hrest :
      MemPrisma.db_reviews
        (store (snd (AlbumsService.findOrCreateArtist MemPrisma.client env data w)))
      = MemPrisma.db_reviews (store w)
      /\ MemPrisma.db_users
           (store (snd (AlbumsService.findOrCreateArtist MemPrisma.client env data w)))
         = MemPrisma.db_users (store w)).
    { destruct Hstore as [-> | [added Hadded]]; [now split|].
      now destruct (artistAdded_keeps Hadded) as (_ & _ & _ & _ & Hr & Hu & _). }
    destruct (AlbumsService.findOrCreateArtist MemPrisma.client env data w)
      as [[owner|e] w2]; simpl in *.
    + assert (Hadded :
        MemQueries.albumAdded (store w2) (AlbumsService.albumInput data owner)
          (MemPrisma.mkDb (MemPrisma.db_users (store w2))
             (MemPrisma.db_artists (store w2))
             (MemPrisma.db_albums (store w2)
              ++ [MemQueries.insertedAlbum (store w2)
                    (AlbumsService.albumInput data owner)])
             (MemPrisma.db_reviews (store w2))
             (MemPrisma.artist_seq (store w2))
             (MemPrisma.album_seq (store w2) + 1)
             (MemPrisma.review_seq (store w2))
             (MemPrisma.db_now (store w2)))).
      { split; [|split; [|reflexivity]].
        - unfold MemPrisma.findAlbum. simpl. rewrite Halbums. exact Hfind.
        - specialize (Hin owner w2 eq_refl).
          apply (find_some_of (fun a => artist_id a =? artist_id (artist owner))
                   _ _ Hin).
          apply Z.eqb_refl. }
      split; [intros Hok; exact (albumAdded_keeps Hadded (Hwf Hok))|].
      split; [exact (proj1 Hrest)|]. split; [exact (proj2 Hrest)|].
      intros p w1 Heq. injection Heq as <- <-. simpl.
      split; [reflexivity|].
      exact (findAlbum_after_add Hadded).
    + split; [exact Hwf|]. split; [exact (proj1 Hrest)|].
      split; [exact (proj2 Hrest)|]. discriminate.
Qed.

End AlbumCreationOutcome.

(** ** Resolving an album by external id *)

Lemma resolve_artist_wellFormed (R : Type) (env : Env R) (externalId : string)
    (w : World MemPrisma.Db R) :
  MemQueries.wellFormed (store w) ->
  MemQueries.wellFormed
    (store (snd (ArtistsService.getArtistDetailsByExternalId MemPrisma.client env
                   externalId w))).
Proof.
  intros Hok.
  destruct (proj1 (resolve_artist_store env externalId w)) as [-> | [data Hadded]];
    [exact Hok|].
  exact (artistAdded_wellFormed Hadded Hok).
Qed.

Section ResolveAlbum.

Variable R : Type.
Variable env : Env R.

Lemma resolve_album_run (externalId : string) (w : World MemPrisma.Db R) :
  AlbumsQueries.getAlbumDetailsByExternalId MemPrisma.client MemQueries.queries env
    externalId w
  = match MemPrisma.findAlbum (store w) (AlbumByExternalId externalId) with
    | Some a => (Fulfilled (StoredAlbum (MemQueries.fullAlbum (store w) a)), w)
    | None =>
        match MusicApiService.getAlbumDetails env externalId w with
        | (Rejected e, w1) => (Rejected e, w1)
        | (Fulfilled albumDetails, w1) =>
            match AlbumsQueries.detailsArtistExternalId albumDetails with
            | None => (Rejected (prismaValidationError "Artist"), w1)
            | Some artistExternalId =>
                match ArtistsService.getArtistDetailsByExternalId MemPrisma.client
                        env artistExternalId w1 with
                | (Rejected e, w2) => (Rejected e, w2)
                | (Fulfilled owner, w2) =>
                    match AlbumsQueries.detailsExternalId albumDetails with
                    | None => (Rejected (prismaValidationError "Album"), w2)
                    | Some albumExternalId =>
                        match AlbumsService.create MemPrisma.client env
                                {| cb_externalId := albumExternalId;
                                   cb_title := AlbumsQueries.detailsTitle albumDetails;
                                   cb_releaseDate :=
                                     AlbumsQueries.detailsReleaseDate albumDetails;
                                   cb_coverUrl :=
                                     AlbumsQueries.detailsCoverUrl albumDetails;
                                   cb_artistExternalId := artistExternalId |} w2 with
                        | (Fulfilled created, w3) =>
                            (Fulfilled (CreatedAlbum created), w3)
                        | (Rejected e, w3) => (Rejected e, w3)
                        end
                    end
                end
            end
        end
    end.
Proof.
  unfold AlbumsQueries.getAlbumDetailsByExternalId, bind, liftStore, ret, throw.
  simpl. unfold MemQueries.album_findUnique_full.
  destruct (MemPrisma.findAlbum (store w) (AlbumByExternalId externalId)) as [a|];
    simpl; rewrite withStore_same; [reflexivity|].
  destruct (MusicApiService.getAlbumDetails env externalId w)
    as [[albumDetails|e] w1]; [|reflexivity].
  destruct (AlbumsQueries.detailsArtistExternalId albumDetails)
    as [artistExternalId|]; [|reflexivity].
  destruct (ArtistsService.getArtistDetailsByExternalId MemPrisma.client env
              artistExternalId w1) as [[owner|e] w2]; [|reflexivity].
  destruct (AlbumsQueries.detailsExternalId albumDetails) as [albumExternalId|];
    [|reflexivity].
  destruct (AlbumsService.create MemPrisma.client env _ w2) as [[created|e] w3];
    reflexivity.
Qed.

End ResolveAlbum.

Section ResolveAlbumStore.

Variable R : Type.
Variable env : Env R.

(** What a resolution does to the store, whatever its outcome. *)
Lemma resolve_album_store (externalId : string) (w : World MemPrisma.Db R) :
  (MemQueries.wellFormed (store w) ->
   MemQueries.wellFormed
     (store (snd (AlbumsQueries.getAlbumDetailsByExternalId MemPrisma.client
                    MemQueries.queries env externalId w))))
  /\ MemPrisma.db_reviews
       (store (snd (AlbumsQueries.getAlbumDetailsByExternalId MemPrisma.client
                      MemQueries.queries env externalId w)))
     = MemPrisma.db_reviews (store w)
  /\ MemPrisma.db_users
       (store (snd (AlbumsQueries.getAlbumDetailsByExternalId MemPrisma.client
                      MemQueries.queries env externalId w)))
     = MemPrisma.db_users (store w).
Proof.
  rewrite resolve_album_run.
  destruct (MemPrisma.findAlbum (store w) (AlbumByExternalId externalId)) as [a|];
    [simpl; split; [auto|split; reflexivity]|].
  pose proof (getAlbumDetails_store env externalId w) as Hframe.
  destruct (MusicApiService.getAlbumDetails env externalId w)
    as [[albumDetails|e] w1]; simpl in Hframe;
    [|simpl; rewrite Hframe; split; [auto|split; reflexivity]].
  destruct (AlbumsQueries.detailsArtistExternalId albumDetails)
    as [artistExternalId|];
    [|simpl; rewrite Hframe; split; [auto|split; reflexivity]].
  pose proof (resolve_artist_wellFormed env artistExternalId w1) as Hwf.
  pose proof (resolve_artist_keeps env artistExternalId w1)
    as (_ & _ & _ & _ & Hreviews & Husers).
  rewrite Hframe in Hwf, Hreviews, Husers.
  destruct (ArtistsService.getArtistDetailsByExternalId MemPrisma.client env
              artistExternalId w1) as [[owner|e] w2]; simpl in Hwf, Hreviews, Husers;
    [|simpl; split; [exact Hwf|split; assumption]].
  destruct (AlbumsQueries.detailsExternalId albumDetails) as [albumExternalId|];
    [|simpl; split; [exact Hwf|split; assumption]].
  match goal with
  | |- context [AlbumsService.create MemPrisma.client env ?data w2] =>
      pose proof (album_create_outcome env data w2) as (Hwf2 & Hreviews2 & Husers2 & _);
      destruct (AlbumsService.create MemPrisma.client env data w2)
        as [[created|e] w3]
  end; simpl in *.
  - split; [auto|]. split; congruence.
  - split; [auto|]. split; congruence.
Qed.

(** The album a resolution returned is the one the store finds under that
    album's external id, and at most that album was added. *)
Lemma resolve_album_found (externalId : string) (w w1 : World MemPrisma.Db R)
    (first : ResolvedAlbum) :
  AlbumsQueries.getAlbumDetailsByExternalId MemPrisma.client MemQueries.queries env
    externalId w
  = (Fulfilled first, w1) ->
  MemPrisma.findAlbum (store w1)
    (AlbumByExternalId (album_externalId (AlbumsQueries.albumOf first)))
  = Some (AlbumsQueries.albumOf first).
Proof.
  rewrite resolve_album_run.
  destruct (MemPrisma.findAlbum (store w) (AlbumByExternalId externalId))
    as [a|] eqn:Hfind.
  - intros Heq. injection Heq as <- <-. simpl.
    pose proof (find_some _ _ Hfind) as [_ Hext]. simpl in Hext.
    apply String.eqb_eq in Hext. now rewrite Hext.
  - destruct (MusicApiService.getAlbumDetails env externalId w)
      as [[albumDetails|e] w0]; [|discriminate].
    destruct (AlbumsQueries.detailsArtistExternalId albumDetails)
      as [artistExternalId|]; [|discriminate].
    destruct (ArtistsService.getArtistDetailsByExternalId MemPrisma.client env
                artistExternalId w0) as [[owner|e] w2]; [|discriminate].
    destruct (AlbumsQueries.detailsExternalId albumDetails) as [albumExternalId|];
      [|discriminate].
    match goal with
    | |- context [AlbumsService.create MemPrisma.client env ?data w2] =>
        pose proof (album_create_outcome env data w2) as (_ & _ & _ & Hcreated);
        destruct (AlbumsService.create MemPrisma.client env data w2)
          as [[created|e] w3]; [|discriminate]
    end.
    intros Heq. injection Heq as <- <-. simpl.
    destruct (Hcreated created w3 eq_refl) as [Hext Hnow]. simpl in Hext, Hnow.
    now rewrite Hext.
Qed.

End ResolveAlbumStore.

(** X10.  Resolving an album by external id, over the in-memory store and
    any catalog.
    - When a row with the external id exists, it is returned with its artist
      and its reviews, and the world is as before: nothing is requested.
    - On a miss the catalog is asked: a failure of the catalog client's
      [getAlbumDetails] is the failure of the call; when the call returns,
      the catalog had answered, the album returned carries the external id
      of the catalog's record and is either the row the store already had
      under that id or a new row, appended to the albums, with the title,
      the cover and the release date of the record.
    - The album a call returns is a row of the store afterwards.  When it
      carries the requested external id, a second call returns that stored
      row with its relations and changes nothing: the catalog is not asked
      again and no row is added. *)
Theorem getAlbumDetailsByExternalId_idempotent :
  forall (R : Type) (env : Env R) (externalId : string)
         (w : World MemPrisma.Db R),
    (forall a,
        MemPrisma.findAlbum (store w) (AlbumByExternalId externalId) = Some a ->
        AlbumsQueries.getAlbumDetailsByExternalId MemPrisma.client MemQueries.queries
          env externalId w
        = (Fulfilled (StoredAlbum (MemQueries.fullAlbum (store w) a)), w))
    /\ (MemPrisma.findAlbum (store w) (AlbumByExternalId externalId) = None ->
        (forall e w',
            MusicApiService.getAlbumDetails env externalId w = (Rejected e, w') ->
            AlbumsQueries.getAlbumDetailsByExternalId MemPrisma.client
              MemQueries.queries env externalId w
            = (Rejected e, w'))
        /\ (forall first w1,
               AlbumsQueries.getAlbumDetailsByExternalId MemPrisma.client
                 MemQueries.queries env externalId w
               = (Fulfilled first, w1) ->
               exists albumDetails w' created,
                 MusicApiService.getAlbumDetails env externalId w
                 = (Fulfilled albumDetails, w')
                 /\ first = CreatedAlbum created
                 /\ AlbumsQueries.detailsExternalId albumDetails
                    = Some (album_externalId (album created))
                 /\ (MemPrisma.findAlbum (store w)
                        (AlbumByExternalId (album_externalId (album created)))
                      = Some (album created)
                     \/ (title (album created)
                         = AlbumsQueries.detailsTitle albumDetails
                         /\ coverUrl (album created)
                            = AlbumsQueries.detailsCoverUrl albumDetails
                         /\ releaseDate (album created)
                            = AlbumsService.toReleaseDate
                                (AlbumsQueries.detailsReleaseDate albumDetails)
                         /\ MemPrisma.db_albums (store w1)
                            = (MemPrisma.db_albums (store w) ++ [album created])%list))))
    /\ (forall first w1,
           AlbumsQueries.getAlbumDetailsByExternalId MemPrisma.client
             MemQueries.queries env externalId w
           = (Fulfilled first, w1) ->
           MemPrisma.findAlbum (store w1)
             (AlbumByExternalId (album_externalId (AlbumsQueries.albumOf first)))
           = Some (AlbumsQueries.albumOf first)
           /\ In (AlbumsQueries.albumOf first) (MemPrisma.db_albums (store w1))
           /\ (album_externalId (AlbumsQueries.albumOf first) = externalId ->
               AlbumsQueries.getAlbumDetailsByExternalId MemPrisma.client
                 MemQueries.queries env externalId w1
               = (Fulfilled
                    (StoredAlbum
                       (MemQueries.fullAlbum (store w1) (AlbumsQueries.albumOf first))),
                  w1))).
Proof.
  intros R env externalId w.
  assert (Hhit : forall (v : World MemPrisma.Db R) a,
             MemPrisma.findAlbum (store v) (AlbumByExternalId externalId) = Some a ->
             AlbumsQueries.getAlbumDetailsByExternalId MemPrisma.client
               MemQueries.queries env externalId v
             = (Fulfilled (StoredAlbum (MemQueries.fullAlbum (store v) a)), v)).
  { intros v a Hfind. rewrite resolve_album_run, Hfind. reflexivity. }
  split; [apply Hhit|]. split.
  - intros Hmiss. rewrite resolve_album_run, Hmiss.
    pose proof (getAlbumDetails_store env externalId w) as Hframe.
    destruct (MusicApiService.getAlbumDetails env externalId w)
      as [[albumDetails|e0] w'] eqn:Hdetails; simpl in Hframe.
    2: { split; [intros e w'' Heq; injection Heq as <- <-; reflexivity
               |intros first w1 Heq; discriminate Heq]. }
    split; [intros e w'' Heq; discriminate Heq|].
    intros first w1.
    destruct (AlbumsQueries.detailsArtistExternalId albumDetails)
      as [artistExternalId|]; [|discriminate].
    pose proof (resolve_artist_keeps env artistExternalId w') as Hartist.
    cbv zeta in Hartist. destruct Hartist as (_ & _ & _ & Halbums & _).
    destruct (ArtistsService.getArtistDetailsByExternalId MemPrisma.client env
                artistExternalId w') as [[owner|e1] w2]; [|discriminate].
    simpl in Halbums.
    destruct (AlbumsQueries.detailsExternalId albumDetails)
      as [albumExternalId|] eqn:Hid; [|discriminate].
    rewrite album_create_run. cbn [cb_externalId].
    destruct (MemPrisma.findAlbum (store w2) (AlbumByExternalId albumExternalId))
      as [existing|] eqn:Hexisting.
    + intros Heq. injection Heq as <- <-.
      exists albumDetails, w', {| album := existing; album_artist := None |}.
      split; [reflexivity|]. split; [reflexivity|].
      pose proof (find_some _ _ Hexisting) as [_ Hext]. simpl in Hext.
      apply String.eqb_eq in Hext. cbn [album]. rewrite Hext.
      split; [exact Hid|]. left.
      unfold MemPrisma.findAlbum in *. now rewrite <- Hframe, <- Halbums.
    + pose proof (findOrCreateArtist_after env
                    {| cb_externalId := albumExternalId;
                       cb_title := AlbumsQueries.detailsTitle albumDetails;
                       cb_releaseDate :=
                         AlbumsQueries.detailsReleaseDate albumDetails;
                       cb_coverUrl := AlbumsQueries.detailsCoverUrl albumDetails;
                       cb_artistExternalId := artistExternalId |} w2)
        as [_ Hsame].
      destruct (AlbumsService.findOrCreateArtist MemPrisma.client env _ w2)
        as [[found|e2] w3]; [|discriminate].
      simpl in Hsame.
      intros Heq. injection Heq as <- <-.
      exists albumDetails, w'. eexists.
      split; [reflexivity|]. split; [reflexivity|].
      cbn [album MemPrisma.withArtist]. split; [exact Hid|]. right.
      split; [reflexivity|]. split; [reflexivity|]. split; [reflexivity|].
      simpl. now rewrite Hsame, Halbums, Hframe.
  - intros first w1 Hfirst.
    pose proof (resolve_album_found env externalId w Hfirst) as Hfound.
    split; [exact Hfound|]. split; [exact (proj1 (find_some _ _ Hfound))|].
    intros Hsame. rewrite Hsame in Hfound. exact (Hhit w1 _ Hfound).
Qed.

(** The theorem at the demo catalog and the empty store, for "album123":
    the first call creates artist 1 and album 1 (found through the search
    fallback), the second returns album 1 and leaves the request log as it
    was. *)
Lemma getAlbumDetailsByExternalId_idempotent_witness :
  MemPrisma.findAlbum Demo.emptyDb (AlbumByExternalId "album123") = None
  /\ exists first w1,
       AlbumsQueries.getAlbumDetailsByExternalId MemPrisma.client MemQueries.queries
         Demo.catalog "album123" (Demo.world Demo.emptyDb)
       = (Fulfilled first, w1)
       /\ album_id (AlbumsQueries.albumOf first) = 1
       /\ artistId (AlbumsQueries.albumOf first) = 1
       /\ title (AlbumsQueries.albumOf first) = "Album album123"
       /\ MemPrisma.db_albums (store w1) = [AlbumsQueries.albumOf first]
       /\ AlbumsQueries.getAlbumDetailsByExternalId MemPrisma.client
            MemQueries.queries Demo.catalog "album123" w1
          = (Fulfilled
               (StoredAlbum
                  (MemQueries.fullAlbum (store w1) (AlbumsQueries.albumOf first))),
             w1).
Proof.
  split; [reflexivity|].
  destruct (AlbumsQueries.getAlbumDetailsByExternalId MemPrisma.client
              MemQueries.queries Demo.catalog "album123" (Demo.world Demo.emptyDb))
    as [[first|e] w1] eqn:Hrun; [|vm_compute in Hrun; discriminate Hrun].
  destruct (@getAlbumDetailsByExternalId_idempotent Demo.Log Demo.catalog
              "album123" (Demo.world Demo.emptyDb)) as (_ & Hmiss & Hagain).
  destruct (Hmiss eq_refl) as [_ Hcreated].
  destruct (Hcreated first w1 Hrun) as (albumDetails & w' & created & _ & _ & _ & _).
  destruct (Hagain first w1 Hrun) as (_ & _ & Hsecond).
  exists first, w1. split; [reflexivity|].
  split; [vm_compute in Hrun; injection Hrun as <- _; reflexivity|].
  split; [vm_compute in Hrun; injection Hrun as <- _; reflexivity|].
  split; [vm_compute in Hrun; injection Hrun as <- _; reflexivity|].
  split; [vm_compute in Hrun; injection Hrun as <- <-; reflexivity|].
  apply Hsecond. vm_compute in Hrun. injection Hrun as <- _. reflexivity.
Defined.

(** X11.  Creating or resolving an album keeps a well-formed store well
    formed, whatever the catalog answers and whether the call returns or
    raises: ids stay distinct and behind their sequences, external ids and
    (user, album) pairs stay distinct, every album keeps an artist row and
    every review its user and album.  Neither touches the reviews or the
    users. *)
Theorem album_resolution_keeps_store_well_formed :
  forall (R : Type) (env : Env R) (w : World MemPrisma.Db R),
    MemQueries.wellFormed (store w) ->
    (forall externalId,
        let db' :=
          store (snd (AlbumsQueries.getAlbumDetailsByExternalId MemPrisma.client
                        MemQueries.queries env externalId w)) in
        MemQueries.wellFormed db'
        /\ MemPrisma.db_reviews db' = MemPrisma.db_reviews (store w)
        /\ MemPrisma.db_users db' = MemPrisma.db_users (store w))
    /\ (forall data,
           let db' := store (snd (AlbumsService.create MemPrisma.client env data w)) in
           MemQueries.wellFormed db'
           /\ MemPrisma.db_reviews db' = MemPrisma.db_reviews (store w)
           /\ MemPrisma.db_users db' = MemPrisma.db_users (store w)).
Proof.
  intros R env w Hok. split.
  - intros externalId db'. subst db'.
    destruct (resolve_album_store env externalId w) as (Hwf & Hreviews & Husers).
    split; [now apply Hwf|]. now split.
  - intros data db'. subst db'.
    destruct (album_create_outcome env data w) as (Hwf & Hreviews & Husers & _).
    split; [now apply Hwf|]. now split.
Qed.

Lemma demo_stores_wellFormed :
  MemQueries.wellFormed Demo.emptyDb /\ MemQueries.wellFormed Demo.reviewedDb.
Proof.
  split.
  - unfold MemQueries.wellFormed, MemQueries.keysOk, MemQueries.uniqueArtists,
      MemQueries.uniqueAlbums, MemQueries.uniqueReviews,
      MemQueries.albumsHaveArtists, MemQueries.reviewsHaveParents. simpl.
    split; [split; constructor|]. split; [split; constructor|].
    split; [split; constructor|]. split; [constructor|].
    split; [constructor|]. split; [constructor|].
    split; intros ? [].
  - unfold MemQueries.wellFormed, MemQueries.keysOk, MemQueries.uniqueArtists,
      MemQueries.uniqueAlbums, MemQueries.uniqueReviews,
      MemQueries.albumsHaveArtists, MemQueries.reviewsHaveParents. simpl.
    assert (Hone : forall (A : Type) (x : A), NoDup [x]).
    { intros A x. constructor; [intros []|constructor]. }
    split; [split; [apply Hone|repeat constructor; simpl; lia]|].
    split; [split; [apply Hone|repeat constructor; simpl; lia]|].
    split.
    { split; [|repeat constructor; simpl; lia].
      constructor; [|apply Hone]. intros [H|[]]; discriminate H. }
    split; [apply Hone|]. split; [apply Hone|].
    split.
    { constructor; [|apply Hone]. intros [H|[]]; discriminate H. }
    split.
    + intros a [<- | []]. exists Demo.testArtist. split; [now left|reflexivity].
    + intros r [<- | [<- | []]].
      * split; [exists Demo.alice|exists Demo.testAlbum];
          (split; [now left|reflexivity]).
      * split; [exists Demo.bob; split; [right; now left|reflexivity]
               |exists Demo.testAlbum; split; [now left|reflexivity]].
Qed.

Lemma album_resolution_keeps_store_well_formed_witness :
  MemQueries.wellFormed Demo.emptyDb
  /\ MemQueries.wellFormed
       (store (snd (AlbumsQueries.getAlbumDetailsByExternalId MemPrisma.client
                      MemQueries.queries Demo.catalog "album123"
                      (Demo.world Demo.emptyDb)))).
Proof.
  split; [exact (proj1 demo_stores_wellFormed)|].
  exact (proj1 (proj1 (@album_resolution_keeps_store_well_formed Demo.Log
                         Demo.catalog (Demo.world Demo.emptyDb)
                         (proj1 demo_stores_wellFormed)) "album123")).
Defined.

Section FullAlbum.

Import MemPrisma MemQueries.

Lemma fullAlbum_reviews (db : Db) (a : Album) :
  descending (map ru_review (af_reviews (fullAlbum db a)))
  /\ Permutation (map ru_review (af_reviews (fullAlbum db a)))
       (filter (fun r => albumId r =? album_id a) (db_reviews db))
  /\ Forall (fun item => ru_user item = findUser db (userId (ru_review item)))
       (af_reviews (fullAlbum db a)).
Proof.
  unfold fullAlbum, reviewsOfAlbum. simpl.
  rewrite map_map. simpl. rewrite map_id.
  split; [apply orderByCreatedAtDesc_descending|].
  split; [apply orderByCreatedAtDesc_perm|].
  apply Forall_map. apply Forall_forall. intros r _. reflexivity.
Qed.

End FullAlbum.

(** X12.  [findOne] of an album.  When no album row has the id it raises
    NotFound and the world is unchanged; for a safe integer id the message is
    "Album with ID <id> not found".  When the store finds the row, it is
    returned with the artist row its [artistId] names and with the reviews of
    the album, all of them and no others, newest first, each with the whole
    row of its author.  On a well-formed store, the album a resolution by
    external id returned is the one [findOne] returns for its id. *)
Theorem album_findOne :
  forall (R : Type) (env : Env R) (w : World MemPrisma.Db R),
    (forall id_,
        ~ MemPrisma.hasAlbum (store w) id_ ->
        exists message,
          AlbumsQueries.findOne MemQueries.queries id_ w
          = (Rejected (NotFoundException message), w)
          /\ (isSafeInteger id_ ->
              message = "Album with ID " ++ showZ id_ ++ " not found"))
    /\ (forall id_ a,
           MemPrisma.findAlbum (store w) (AlbumById id_) = Some a ->
           exists full,
             AlbumsQueries.findOne MemQueries.queries id_ w = (Fulfilled full, w)
             /\ af_album full = a
             /\ af_artist full
                = MemPrisma.findArtist (store w) (ArtistById (artistId a))
             /\ MemPrisma.descending (map ru_review (af_reviews full))
             /\ Permutation (map ru_review (af_reviews full))
                  (filter (fun r => albumId r =? album_id a)
                     (MemPrisma.db_reviews (store w)))
             /\ Forall (fun item =>
                          ru_user item
                          = MemPrisma.findUser (store w) (userId (ru_review item)))
                  (af_reviews full))
    /\ (forall externalId first w1,
           MemQueries.wellFormed (store w) ->
           AlbumsQueries.getAlbumDetailsByExternalId MemPrisma.client
             MemQueries.queries env externalId w
           = (Fulfilled first, w1) ->
           AlbumsQueries.findOne MemQueries.queries
             (album_id (AlbumsQueries.albumOf first)) w1
           = (Fulfilled (MemQueries.fullAlbum (store w1) (AlbumsQueries.albumOf first)),
              w1)).
Proof.
  intros R env w.
  assert (Hrun : forall (v : World MemPrisma.Db R) id_,
             AlbumsQueries.findOne MemQueries.queries id_ v
             = match MemPrisma.findAlbum (store v) (AlbumById id_) with
               | Some a => (Fulfilled (MemQueries.fullAlbum (store v) a), v)
               | None =>
                   (Rejected
                      (NotFoundException
                         ("Album with ID " ++ showZ id_ ++ " not found")), v)
               end).
  { intros v id_. unfold AlbumsQueries.findOne, bind, liftStore, ret, throw. simpl.
    unfold MemQueries.album_findUnique_full.
    destruct (MemPrisma.findAlbum (store v) (AlbumById id_)); simpl;
      now rewrite withStore_same. }
  split; [|split].
  - intros id_ Hnone. rewrite Hrun. rewrite (findAlbum_none_of Hnone).
    eexists. split; [reflexivity|]. intros _. reflexivity.
  - intros id_ a Hfind. rewrite Hrun, Hfind. eexists. split; [reflexivity|].
    destruct (fullAlbum_reviews (store w) a) as (Hsorted & Hperm & Husers).
    split; [reflexivity|]. split; [reflexivity|]. now repeat split.
  - intros externalId first w1 Hok Hfirst. rewrite Hrun.
    pose proof (resolve_album_found env externalId w Hfirst) as Hfound.
    apply find_some in Hfound. destruct Hfound as [Hin _].
    destruct (resolve_album_store env externalId w) as (Hwf & _).
    rewrite Hfirst in Hwf. simpl in Hwf.
    destruct (Hwf Hok) as (_ & [Hnodup _] & _).
    pose proof (find_key_NoDup album_id _ _ Hnodup Hin) as Hkey.
    unfold MemPrisma.findAlbum, MemPrisma.matchesAlbum.
    now rewrite Hkey.
Qed.

Lemma album_findOne_witness :
  fst (AlbumsQueries.findOne (R:=Demo.Log) MemQueries.queries 9
         (Demo.world Demo.reviewedDb))
  = Rejected (NotFoundException "Album with ID 9 not found")
  /\ (exists full,
         AlbumsQueries.findOne (R:=Demo.Log) MemQueries.queries 1
           (Demo.world Demo.reviewedDb)
         = (Fulfilled full, Demo.world Demo.reviewedDb)
         /\ map ru_review (af_reviews full) = [Demo.bobReview; Demo.aliceReview]
         /\ MemPrisma.descending (map ru_review (af_reviews full)))
  /\ exists first w1,
       AlbumsQueries.getAlbumDetailsByExternalId MemPrisma.client MemQueries.queries
         Demo.catalog "album123" (Demo.world Demo.emptyDb)
       = (Fulfilled first, w1)
       /\ fst (AlbumsQueries.findOne MemQueries.queries
                 (album_id (AlbumsQueries.albumOf first)) w1)
          = Fulfilled (MemQueries.fullAlbum (store w1) (AlbumsQueries.albumOf first)).
Proof.
  split; [|split].
  - destruct (@album_findOne Demo.Log Demo.catalog (Demo.world Demo.reviewedDb))
      as (Hnone & _ & _).
    destruct (Hnone 9) as (message & Hmissing & Hmessage).
    { intros (a & [<- | []] & Hid). discriminate Hid. }
    rewrite Hmissing, Hmessage; [reflexivity|].
    unfold isSafeInteger. simpl. lia.
  - destruct (@album_findOne Demo.Log Demo.catalog (Demo.world Demo.reviewedDb))
      as (_ & Hfound & _).
    destruct (Hfound 1 Demo.testAlbum eq_refl)
      as (full & Hrun & _ & _ & Hsorted & _).
    exists full. split; [exact Hrun|]. split; [|exact Hsorted].
    vm_compute in Hrun. injection Hrun as <-. reflexivity.
  - destruct (@album_findOne Demo.Log Demo.catalog (Demo.world Demo.emptyDb))
      as (_ & _ & Hround).
    destruct (AlbumsQueries.getAlbumDetailsByExternalId MemPrisma.client
                MemQueries.queries Demo.catalog "album123" (Demo.world Demo.emptyDb))
      as [[first|e] w1] eqn:Hrun; [|vm_compute in Hrun; discriminate Hrun].
    exists first, w1. split; [reflexivity|].
    rewrite (Hround "album123" first w1 (proj1 demo_stores_wellFormed) Hrun).
    reflexivity.
Defined.

(** ** Writing reviews on a well-formed store *)

Section ReviewWrites.

Import MemPrisma MemQueries.

(** Deleting rows keeps the keys of a table distinct. *)
Lemma NoDup_map_filter {Row Key} (key : Row -> Key) (keep : Row -> bool)
    (rows : list Row) :
  NoDup (map key rows) -> NoDup (map key (filter keep rows)).
Proof.
  intros Hnodup. induction rows as [|row rows IH]; simpl; [constructor|].
  simpl in Hnodup. apply NoDup_cons_iff in Hnodup. destruct Hnodup as [Hfresh Hrest].
  destruct (keep row); simpl; [|now apply IH].
  constructor; [|now apply IH].
  intros Hin. apply Hfresh. apply in_map_iff in Hin. destruct Hin as (y & Hy & Hin).
  apply filter_In in Hin. rewrite <- Hy. apply in_map. tauto.
Qed.

Lemma map_patched {B} (key : Review -> B) (i : Z) (patch : UpdateReviewDto)
    (l : list Review) :
  (forall x, key (applyPatch patch x) = key x) ->
  map key (map (fun x => if review_id x =? i then applyPatch patch x else x) l)
  = map key l.
Proof.
  intros Hkey. rewrite map_map. apply map_ext. intros x.
  destruct (review_id x =? i); [apply Hkey|reflexivity].
Qed.

(** The three writes of the store on the reviews. *)
Lemma review_create_store (db : Db) (data : ReviewCreateInput) :
  snd (review_create data db) = db
  \/ (findReview db (ReviewByUserIdAlbumId (ri_userId data) (ri_albumId data)) = None
      /\ (exists u, findUser db (ri_userId data) = Some u)
      /\ (exists a, findAlbum db (AlbumById (ri_albumId data)) = Some a)
      /\ snd (review_create data db)
         = mkDb (db_users db) (db_artists db) (db_albums db)
             (db_reviews db ++ [insertedReview db data])
             (artist_seq db) (album_seq db) (review_seq db + 1) (db_now db)).
Proof.
  unfold review_create.
  destruct (findReview db (ReviewByUserIdAlbumId (ri_userId data) (ri_albumId data)))
    eqn:Hpair; [now left|].
  destruct (findUser db (ri_userId data)) as [u|] eqn:Huser; [|now left].
  destruct (findAlbum db (AlbumById (ri_albumId data))) as [a|] eqn:Halbum;
    [|now left].
  right. split; [reflexivity|]. split; [now exists u|]. split; [now exists a|].
  reflexivity.
Qed.

Lemma review_create_wellFormed (db : Db) (data : ReviewCreateInput) :
  wellFormed db -> wellFormed (snd (review_create data db)).
Proof.
  intros Hok.
  destruct (review_create_store db data)
    as [-> | (Hpair & [u Huser] & [a Halbum] & ->)]; [exact Hok|].
  destruct Hok as (Hartists & Halbums & Hreviews & Hua & Hub & Hur & Hfa & Hfr).
  split; [exact Hartists|]. split; [exact Halbums|].
  split; [now apply keysOk_add|].
  split; [exact Hua|]. split; [exact Hub|].
  split.
  { unfold uniqueReviews. simpl. rewrite map_app. simpl.
    apply NoDup_app_last; [exact Hur|].
    intros Hin. apply in_map_iff in Hin. destruct Hin as (r & Hr & Hin).
    injection Hr as Hu Ha.
    exact (proj1 (findReview_pair_none_iff db _ _) Hpair r Hin (conj Hu Ha)). }
  split; [exact Hfa|].
  intros r Hin. simpl in Hin. apply in_app_or in Hin.
  destruct Hin as [Hin | [<- | []]].
  - exact (Hfr r Hin).
  - simpl. split.
    + exists u. apply find_some in Huser. destruct Huser as [Hin Hid].
      split; [exact Hin|now apply Z.eqb_eq].
    + exists a. apply find_some in Halbum. destruct Halbum as [Hin Hid].
      split; [exact Hin|now apply Z.eqb_eq].
Qed.

Lemma review_update_wellFormed (db : Db) (i : Z) (patch : UpdateReviewDto) :
  wellFormed db -> wellFormed (snd (review_update i patch db)).
Proof.
  intros Hok. unfold review_update.
  destruct (findReview db (ReviewById i)) as [r|]; [|exact Hok]. simpl.
  destruct Hok as (Hartists & Halbums & [Hnodup Hbound] & Hua & Hub & Hur & Hfa & Hfr).
  split; [exact Hartists|]. split; [exact Halbums|].
  split.
  { split; simpl.
    - rewrite map_patched; [exact Hnodup|reflexivity].
    - apply Forall_map. revert Hbound. apply Forall_impl. intros x Hx.
      destruct (review_id x =? i); exact Hx. }
  split; [exact Hua|]. split; [exact Hub|].
  split.
  { unfold uniqueReviews. simpl.
    rewrite (map_patched (fun r => (userId r, albumId r))); [exact Hur|reflexivity]. }
  split; [exact Hfa|].
  intros x Hin. simpl in Hin. apply in_map_iff in Hin. destruct Hin as (y & <- & Hin).
  destruct (Hfr y Hin) as [Hu Ha].
  destruct (review_id y =? i); split; assumption.
Qed.

Lemma review_delete_wellFormed (db : Db) (i : Z) :
  wellFormed db -> wellFormed (snd (review_delete i db)).
Proof.
  intros Hok. unfold review_delete.
  destruct (findReview db (ReviewById i)) as [r|]; [|exact Hok]. simpl.
  destruct Hok as (Hartists & Halbums & [Hnodup Hbound] & Hua & Hub & Hur & Hfa & Hfr).
  split; [exact Hartists|]. split; [exact Halbums|].
  split.
  { split; simpl.
    - now apply NoDup_map_filter.
    - apply Forall_forall. intros x Hin. apply filter_In in Hin.
      rewrite Forall_forall in Hbound. apply Hbound. tauto. }
  split; [exact Hua|]. split; [exact Hub|].
  split; [now apply NoDup_map_filter|].
  split; [exact Hfa|].
  intros x Hin. simpl in Hin. apply filter_In in Hin. destruct Hin as [Hin _].
  exact (Hfr x Hin).
Qed.

(** What each write leaves of the ratings. *)
Lemma review_create_ratings (lo hi : Z) (db : Db) (data : ReviewCreateInput) :
  lo <= ri_rating data <= hi ->
  ratingsWithin lo hi db -> ratingsWithin lo hi (snd (review_create data db)).
Proof.
  intros Hnew Hok.
  destruct (review_create_store db data) as [-> | (_ & _ & _ & ->)]; [exact Hok|].
  unfold ratingsWithin. simpl. apply Forall_app. split; [exact Hok|].
  constructor; [exact Hnew|constructor].
Qed.

Lemma review_update_ratings (lo hi : Z) (db : Db) (i : Z) (patch : UpdateReviewDto) :
  (forall x, up_rating patch = Some x -> lo <= x <= hi) ->
  ratingsWithin lo hi db -> ratingsWithin lo hi (snd (review_update i patch db)).
Proof.
  intros Hnew Hok. unfold review_update.
  destruct (findReview db (ReviewById i)) as [r|]; [|exact Hok].
  unfold ratingsWithin. simpl. apply Forall_map. revert Hok. apply Forall_impl.
  intros x Hx. destruct (review_id x =? i); [|exact Hx].
  unfold applyPatch. simpl. destruct (up_rating patch) as [y|]; [now apply Hnew|exact Hx].
Qed.

Lemma review_delete_ratings (lo hi : Z) (db : Db) (i : Z) :
  ratingsWithin lo hi db -> ratingsWithin lo hi (snd (review_delete i db)).
Proof.
  intros Hok. unfold review_delete.
  destruct (findReview db (ReviewById i)) as [r|]; [|exact Hok].
  unfold ratingsWithin. simpl. apply Forall_forall. intros x Hin.
  apply filter_In in Hin. unfold ratingsWithin in Hok. rewrite Forall_forall in Hok.
  apply Hok. tauto.
Qed.

(** The store after each call of the service is the store itself or the
    store after the write. *)
Lemma service_create_store (db : Db) (userId_ : Z) (dto : CreateReviewDto) :
  snd (ReviewsService.create client userId_ dto db) = db
  \/ snd (ReviewsService.create client userId_ dto db)
     = snd (review_create
              {| ri_userId := userId_;
                 ri_albumId := cr_albumId dto;
                 ri_rating := cr_rating dto;
                 ri_comment := cr_comment dto |} db).
Proof.
  rewrite review_create_run.
  destruct (findAlbum db (AlbumById (cr_albumId dto))); [|now left].
  destruct (findReview db (ReviewByUserIdAlbumId userId_ (cr_albumId dto)));
    [now left|now right].
Qed.

Lemma service_update_store (db : Db) (id_ actor : Z) (patch : UpdateReviewDto) :
  snd (ReviewsService.update client id_ actor patch db) = db
  \/ snd (ReviewsService.update client id_ actor patch db)
     = snd (review_update id_ patch db).
Proof.
  rewrite review_update_run.
  destruct (findReview db (ReviewById id_)) as [r|]; [|now left].
  destruct (userId r =? actor); [now right|now left].
Qed.

Lemma service_remove_store (db : Db) (id_ actor : Z) :
  snd (ReviewsService.remove client id_ actor db) = db
  \/ snd (ReviewsService.remove client id_ actor db) = snd (review_delete id_ db).
Proof.
  rewrite review_remove_run.
  destruct (findReview db (ReviewById id_)) as [r|]; [|now left].
  destruct (userId r =? actor); [now right|now left].
Qed.

End ReviewWrites.

(** X13.  Creating, updating and removing a review keep a well-formed store
    well formed, whoever calls and whether the call returns or raises: review
    ids stay distinct and behind their sequence, no user has two reviews of
    one album, and every review keeps its user and its album. *)
Theorem review_writes_keep_store_well_formed :
  forall (db : MemPrisma.Db),
    MemQueries.wellFormed db ->
    (forall userId_ dto,
        MemQueries.wellFormed (snd (ReviewsService.create MemPrisma.client userId_ dto db)))
    /\ (forall id_ actor patch,
           MemQueries.wellFormed
             (snd (ReviewsService.update MemPrisma.client id_ actor patch db)))
    /\ (forall id_ actor,
           MemQueries.wellFormed
             (snd (ReviewsService.remove MemPrisma.client id_ actor db))).
Proof.
  intros db Hok. split; [|split].
  - intros userId_ dto.
    destruct (service_create_store db userId_ dto) as [-> | ->];
      [exact Hok|now apply review_create_wellFormed].
  - intros id_ actor patch.
    destruct (service_update_store db id_ actor patch) as [-> | ->];
      [exact Hok|now apply review_update_wellFormed].
  - intros id_ actor.
    destruct (service_remove_store db id_ actor) as [-> | ->];
      [exact Hok|now apply review_delete_wellFormed].
Qed.

(** The theorem on the demo store: after Bob's removal of his review, after
    Alice's update of hers and after Alice's refused second review. *)
Lemma review_writes_keep_store_well_formed_witness :
  MemQueries.wellFormed Demo.reviewedDb
  /\ MemQueries.wellFormed
       (snd (ReviewsService.create MemPrisma.client 1
               {| cr_albumId := 1; cr_rating := 5; cr_comment := None |}
               Demo.reviewedDb))
  /\ MemQueries.wellFormed
       (snd (ReviewsService.update MemPrisma.client 1 1
               {| up_rating := Some 2; up_comment := None |} Demo.reviewedDb))
  /\ MemQueries.wellFormed
       (snd (ReviewsService.remove MemPrisma.client 2 2 Demo.reviewedDb)).
Proof.
  split; [exact (proj2 demo_stores_wellFormed)|].
  destruct (review_writes_keep_store_well_formed (proj2 demo_stores_wellFormed))
    as (Hcreate & Hupdate & Hremove).
  split; [apply Hcreate|]. split; [apply Hupdate|apply Hremove].
Defined.

(** X14.  The ratings of the store stay in the range of the request
    validation.  A creation whose body passes the validation of
    [CreateReviewDto] keeps every stored rating in 1..5; an update whose body
    passes the validation of [UpdateReviewDto] keeps every stored rating in
    1..10; a removal keeps any range.  The range 1..5 is not kept by updates:
    the author's update of a review with a valid rating above 5 leaves a
    stored rating outside 1..5. *)
Theorem review_ratings_stay_in_range :
  forall (db : MemPrisma.Db),
    (forall userId_ dto,
        validCreateReviewDto dto ->
        MemQueries.ratingsWithin 1 5 db ->
        MemQueries.ratingsWithin 1 5
          (snd (ReviewsService.create MemPrisma.client userId_ dto db)))
    /\ (forall id_ actor patch,
           validUpdateReviewDto patch ->
           MemQueries.ratingsWithin 1 10 db ->
           MemQueries.ratingsWithin 1 10
             (snd (ReviewsService.update MemPrisma.client id_ actor patch db)))
    /\ (forall lo hi id_ actor,
           MemQueries.ratingsWithin lo hi db ->
           MemQueries.ratingsWithin lo hi
             (snd (ReviewsService.remove MemPrisma.client id_ actor db)))
    /\ (forall id_ r patch x,
           MemPrisma.findReview db (ReviewById id_) = Some r ->
           validUpdateReviewDto patch ->
           up_rating patch = Some x ->
           5 < x ->
           ~ MemQueries.ratingsWithin 1 5
               (snd (ReviewsService.update MemPrisma.client id_ (userId r) patch db))).
Proof.
  intros db. split; [|split; [|split]].
  - intros userId_ dto Hvalid Hok.
    destruct (service_create_store db userId_ dto) as [-> | ->]; [exact Hok|].
    now apply review_create_ratings.
  - intros id_ actor patch Hvalid Hok.
    destruct (service_update_store db id_ actor patch) as [-> | ->]; [exact Hok|].
    apply review_update_ratings; [|exact Hok].
    intros x Hx. unfold validUpdateReviewDto in Hvalid. now rewrite Hx in Hvalid.
  - intros lo hi id_ actor Hok.
    destruct (service_remove_store db id_ actor) as [-> | ->]; [exact Hok|].
    now apply review_delete_ratings.
  - intros id_ r patch x Hfind _ Hx Hhigh Hin.
    rewrite review_update_run, Hfind, Z.eqb_refl in Hin.
    unfold MemPrisma.review_update in Hin. rewrite Hfind in Hin.
    unfold MemQueries.ratingsWithin in Hin.
    cbn [snd MemPrisma.db_reviews] in Hin. rewrite Forall_forall in Hin.
    apply find_some in Hfind. destruct Hfind as [Hrow Hid]. simpl in Hid.
    assert (Hrange : 1 <= rating (MemPrisma.applyPatch patch r) <= 5).
    { apply Hin. apply in_map_iff. exists r. split; [|exact Hrow].
      cbv beta. rewrite Hid. reflexivity. }
    simpl in Hrange. rewrite Hx in Hrange. lia.
Qed.

(** The theorem on the demo store, rated 4 and 3: a second review by Bob
    (refused), Alice's update of her review to 6, Bob's removal of his. *)
Lemma review_ratings_stay_in_range_witness :
  MemQueries.ratingsWithin 1 5 Demo.reviewedDb
  /\ MemQueries.ratingsWithin 1 5
       (snd (ReviewsService.create MemPrisma.client 2
               {| cr_albumId := 1; cr_rating := 5; cr_comment := None |}
               Demo.reviewedDb))
  /\ MemQueries.ratingsWithin 1 10
       (snd (ReviewsService.update MemPrisma.client 1 1
               {| up_rating := Some 6; up_comment := None |} Demo.reviewedDb))
  /\ MemQueries.ratingsWithin 1 5
       (snd (ReviewsService.remove MemPrisma.client 2 2 Demo.reviewedDb))
  /\ ~ MemQueries.ratingsWithin 1 5
         (snd (ReviewsService.update MemPrisma.client 1 1
                 {| up_rating := Some 6; up_comment := None |} Demo.reviewedDb)).
Proof.
  assert (Hfive : MemQueries.ratingsWithin 1 5 Demo.reviewedDb).
  { unfold MemQueries.ratingsWithin. simpl. repeat constructor; simpl; lia. }
  assert (Hten : MemQueries.ratingsWithin 1 10 Demo.reviewedDb).
  { unfold MemQueries.ratingsWithin. simpl. repeat constructor; simpl; lia. }
  destruct (review_ratings_stay_in_range Demo.reviewedDb)
    as (Hcreate & Hupdate & Hremove & Hbreak).
  split; [exact Hfive|].
  split.
  { apply Hcreate; [unfold validCreateReviewDto; simpl; lia|exact Hfive]. }
  split.
  { apply Hupdate; [unfold validUpdateReviewDto; simpl; lia|exact Hten]. }
  split; [now apply Hremove|].
  apply (Hbreak 1 Demo.aliceReview {| up_rating := Some 6; up_comment := None |} 6).
  - reflexivity.
  - unfold validUpdateReviewDto. simpl. lia.
  - reflexivity.
  - lia.
Defined.

(** ** The rating of an album and the range of the ratings *)

Lemma sum_bounds (lo hi : Z) (l : list Z) :
  Forall (fun x => lo <= x <= hi) l ->
  lo * Z.of_nat (List.length l) <= fold_right Z.add 0 l <= hi * Z.of_nat (List.length l).
Proof.
  induction 1 as [|x l Hx _ IH]; simpl List.length; simpl fold_right; [lia|].
  rewrite Nat2Z.inj_succ. lia.
Qed.

Lemma quotient_between (lo hi sum count : Z) :
  0 < count -> lo * count <= sum <= hi * count ->
  (inject_Z lo <= inject_Z sum / inject_Z count)%Q
  /\ (inject_Z sum / inject_Z count <= inject_Z hi)%Q.
Proof.
  intros Hcount [Hlo Hhi].
  assert (Hpos : (0 < inject_Z count)%Q).
  { unfold Qlt. simpl. lia. }
  split.
  - apply Qle_shift_div_l; [exact Hpos|].
    rewrite <- inject_Z_mult. rewrite <- Zle_Qle. exact Hlo.
  - apply Qle_shift_div_r; [exact Hpos|].
    rewrite <- inject_Z_mult. rewrite <- Zle_Qle. exact Hhi.
Qed.

(** X15.  The average lies in the range of the ratings.  Let every stored
    rating lie between the safe integers [lo] and [hi], and let the ratings
    of the album be summed exactly (see [exactSum]).  Then [getAlbumRating]
    returns a finite average; for an album with a review it lies between
    [lo] and [hi] (with the ranges of X14, between 1 and 10), rounding
    included; and when [lo] is positive the average is 0 for an album
    without reviews only. *)
Theorem getAlbumRating_within_range :
  forall (R : Type) (lo hi id_ : Z) (w : World MemPrisma.Db R),
    MemQueries.ratingsWithin lo hi (store w) ->
    isSafeInteger lo ->
    isSafeInteger hi ->
    exactSum
      (map rating
         (filter (fun r => albumId r =? id_) (MemPrisma.db_reviews (store w)))) ->
    exists mean count,
      AlbumsService.getAlbumRating MemPrisma.client id_ w
      = (Fulfilled {| averageRating := Finite mean; reviewCount := count |}, w)
      /\ (count <> 0%nat -> (inject_Z lo <= mean)%Q /\ (mean <= inject_Z hi)%Q)
      /\ (count = 0%nat -> (mean == 0)%Q)
      /\ (0 < lo -> ((mean == 0)%Q <-> count = 0%nat)).
Proof.
  intros R lo hi id_ w Hok Hlo Hhi Hexact. rewrite getAlbumRating_run. cbv zeta.
  set (ratings := map rating (filter (fun r => albumId r =? id_)
                                (MemPrisma.db_reviews (store w)))) in *.
  assert (Hall : Forall (fun x => lo <= x <= hi) ratings).
  { unfold ratings. apply Forall_map. apply Forall_forall. intros r Hin.
    apply filter_In in Hin. unfold MemQueries.ratingsWithin in Hok.
    rewrite Forall_forall in Hok. apply Hok. tauto. }
  destruct (Nat.eqb (List.length ratings) 0) eqn:Hzero.
  - exists 0%Q, 0%nat. split; [reflexivity|]. split; [intros H; now elim H|].
    split; [reflexivity|]. intros _. split; reflexivity.
  - apply Nat.eqb_neq in Hzero.
    assert (Hcount : 0 < Z.of_nat (List.length ratings)) by lia.
    pose proof (exactSum_total Hexact) as Hsafe. unfold isSafeInteger in Hsafe.
    destruct (divide_finite (fold_right Z.add 0 ratings)
                (Z.of_nat (List.length ratings)) Hcount) as [mean Hmean].
    { assert (Hone : 1 * 2 ^ 1023 <= Z.of_nat (List.length ratings) * 2 ^ 1023).
      { apply Z.mul_le_mono_nonneg_r; lia. }
      lia. }
    destruct (divide_nearest _ _ _ Hcount Hmean) as [_ Hnear].
    destruct (@quotient_between lo hi _ _ Hcount (@sum_bounds lo hi ratings Hall))
      as [Hbelow Habove].
    pose proof (nearest_above _ _ _ Hnear (isDouble_safe lo Hlo) Hbelow) as Hmin.
    pose proof (nearest_below _ _ _ Hnear (isDouble_safe hi Hhi) Habove) as Hmax.
    exists mean, (List.length ratings). rewrite Hmean. split; [reflexivity|].
    split; [intros _; now split|]. split; [intros H; contradiction|].
    intros Hpos. split; [|intros H; contradiction].
    intros Hmean0. exfalso. rewrite Hmean0 in Hmin.
    assert (H : (inject_Z lo <= inject_Z 0)%Q) by exact Hmin.
    rewrite <- Zle_Qle in H. lia.
Qed.

(** The theorem at album 1 of the demo store, rated 4 and 3. *)
Lemma getAlbumRating_within_range_witness :
  MemQueries.ratingsWithin 1 5 Demo.reviewedDb
  /\ exactSum [4; 3]
  /\ exists mean,
       fst (AlbumsService.getAlbumRating MemPrisma.client 1 (Demo.world Demo.reviewedDb))
       = Fulfilled {| averageRating := Finite mean; reviewCount := 2 |}
       /\ (inject_Z 1 <= mean)%Q /\ (mean <= inject_Z 5)%Q.
Proof.
  assert (Hfive : MemQueries.ratingsWithin 1 5 Demo.reviewedDb).
  { unfold MemQueries.ratingsWithin. simpl. repeat constructor; simpl; lia. }
  assert (Hexact : exactSum [4; 3]).
  { split.
    - repeat constructor; unfold isSafeInteger; simpl; lia.
    - intros [|[|[|k]]]; unfold isSafeInteger; simpl; lia. }
  split; [exact Hfive|]. split; [exact Hexact|].
  destruct (@getAlbumRating_within_range Demo.Log 1 5 1 (Demo.world Demo.reviewedDb)
              Hfive ltac:(unfold isSafeInteger; simpl; lia)
              ltac:(unfold isSafeInteger; simpl; lia) Hexact)
    as (mean & count & Hrun & Hrange & _).
  assert (Hcount : count = 2%nat).
  { vm_compute in Hrun. injection Hrun as _ Hcount. now symmetry. }
  subst count. exists mean. rewrite Hrun. split; [reflexivity|].
  apply Hrange. discriminate.
Defined.

(** ** Reading a review back *)

Section ReviewFindOne.

Import MemPrisma MemQueries.

Lemma review_findOne_run (db : Db) (id_ : Z) :
  ReviewsQueries.findOne queries id_ db
  = match findReview db (ReviewById id_) with
    | Some r => (Fulfilled (withRelations db r), db)
    | None =>
        (Rejected (NotFoundException ("Review with ID " ++ showZ id_ ++ " not found")),
         db)
    end.
Proof.
  unfold ReviewsQueries.findOne, bind, ret, throw. simpl.
  unfold review_findUnique_full.
  destruct (findReview db (ReviewById id_)); reflexivity.
Qed.

Lemma find_patched (i : Z) (patch : UpdateReviewDto) (l : list Review) :
  find (fun x => review_id x =? i)
    (map (fun x => if review_id x =? i then applyPatch patch x else x) l)
  = option_map (applyPatch patch) (find (fun x => review_id x =? i) l).
Proof.
  induction l as [|x l IH]; simpl; [reflexivity|].
  destruct (review_id x =? i) eqn:Hid; simpl; rewrite Hid; [reflexivity|exact IH].
Qed.

Lemma find_removed (i : Z) (l : list Review) :
  find (fun x => review_id x =? i) (filter (fun x => negb (review_id x =? i)) l)
  = None.
Proof.
  apply find_none_iff. intros x Hin. apply filter_In in Hin.
  destruct Hin as [_ Hin]. now apply negb_true_iff in Hin.
Qed.

Lemma review_create_read_back (db db' : Db) (data : ReviewCreateInput)
    (payload : ReviewPayload) :
  keysOk review_id (db_reviews db) (review_seq db) ->
  review_create data db = (Fulfilled payload, db') ->
  review payload = insertedReview db data
  /\ findReview db' (ReviewById (review_id (review payload))) = Some (review payload)
  /\ withRelations db' (review payload) = payload.
Proof.
  intros [_ Hbound] Hrun. unfold review_create in Hrun.
  destruct (findReview db (ReviewByUserIdAlbumId (ri_userId data) (ri_albumId data)));
    [discriminate|].
  destruct (findUser db (ri_userId data)); [|discriminate].
  destruct (findAlbum db (AlbumById (ri_albumId data))); [|discriminate].
  injection Hrun as <- <-. split; [reflexivity|]. split; [|reflexivity].
  unfold findReview. simpl. rewrite find_app_last.
  - simpl. now rewrite Z.eqb_refl.
  - apply find_none_iff. intros x Hin. apply Z.eqb_neq.
    rewrite Forall_forall in Hbound. specialize (Hbound x Hin). lia.
Qed.

Lemma review_update_read_back (db db' : Db) (i : Z) (patch : UpdateReviewDto)
    (payload : ReviewPayload) :
  review_update i patch db = (Fulfilled payload, db') ->
  findReview db' (ReviewById i) = Some (review payload)
  /\ withRelations db' (review payload) = payload.
Proof.
  unfold review_update.
  destruct (findReview db (ReviewById i)) as [r|] eqn:Hfind; [|discriminate].
  intros Hrun. injection Hrun as <- <-. split; [|reflexivity].
  unfold findReview in *. cbn [db_reviews].
  change (matchesReview (ReviewById i)) with (fun x => review_id x =? i) in *.
  now rewrite find_patched, Hfind.
Qed.

Lemma review_delete_read_back (db db' : Db) (i : Z) (r : Review) :
  review_delete i db = (Fulfilled r, db') ->
  findReview db' (ReviewById i) = None.
Proof.
  unfold review_delete.
  destruct (findReview db (ReviewById i)); [|discriminate].
  intros Hrun. injection Hrun as _ <-. unfold findReview. simpl.
  apply find_removed.
Qed.

End ReviewFindOne.

(** X16.  [findOne] of a review.  When no review row has the id it raises
    NotFound, for a safe integer id with the message "Review with ID <id> not
    found", and the store is never changed.  What [create] returned is what
    [findOne] returns for its id afterwards (on a store whose review ids are
    distinct and none of them ahead of the sequence); what [update] returned
    is what [findOne] returns for the id afterwards; after [remove] returned,
    [findOne] of the id raises NotFound. *)
Theorem review_findOne_reads_back :
  forall (db : MemPrisma.Db),
    (forall id_,
        ~ MemPrisma.hasReview db id_ ->
        exists message,
          ReviewsQueries.findOne MemQueries.queries id_ db
          = (Rejected (NotFoundException message), db)
          /\ (isSafeInteger id_ ->
              message = "Review with ID " ++ showZ id_ ++ " not found"))
    /\ (forall id_, snd (ReviewsQueries.findOne MemQueries.queries id_ db) = db)
    /\ (forall userId_ dto payload db',
           MemQueries.keysOk review_id (MemPrisma.db_reviews db) (MemPrisma.review_seq db) ->
           ReviewsService.create MemPrisma.client userId_ dto db
           = (Fulfilled payload, db') ->
           ReviewsQueries.findOne MemQueries.queries (review_id (review payload)) db'
           = (Fulfilled payload, db'))
    /\ (forall id_ actor patch payload db',
           ReviewsService.update MemPrisma.client id_ actor patch db
           = (Fulfilled payload, db') ->
           ReviewsQueries.findOne MemQueries.queries id_ db' = (Fulfilled payload, db'))
    /\ (forall id_ actor removed db',
           ReviewsService.remove MemPrisma.client id_ actor db
           = (Fulfilled removed, db') ->
           exists message,
             ReviewsQueries.findOne MemQueries.queries id_ db'
             = (Rejected (NotFoundException message), db')
             /\ (isSafeInteger id_ ->
                 message = "Review with ID " ++ showZ id_ ++ " not found")).
Proof.
  intros db. split; [|split; [|split; [|split]]].
  - intros id_ Hnone. rewrite review_findOne_run.
    rewrite (findReview_id_none_of Hnone).
    eexists. split; [reflexivity|]. intros _. reflexivity.
  - intros id_. rewrite review_findOne_run.
    destruct (MemPrisma.findReview db (ReviewById id_)); reflexivity.
  - intros userId_ dto payload db' Hkeys Hrun.
    rewrite review_create_run in Hrun.
    destruct (MemPrisma.findAlbum db (AlbumById (cr_albumId dto))); [|discriminate].
    destruct (MemPrisma.findReview db
                (ReviewByUserIdAlbumId userId_ (cr_albumId dto))); [discriminate|].
    destruct (@review_create_read_back db db' _ payload Hkeys Hrun) as (_ & Hfind & Hsame).
    now rewrite review_findOne_run, Hfind, Hsame.
  - intros id_ actor patch payload db' Hrun.
    rewrite review_update_run in Hrun.
    destruct (MemPrisma.findReview db (ReviewById id_)) as [r|]; [|discriminate].
    destruct (userId r =? actor); [|discriminate].
    destruct (@review_update_read_back _ _ _ _ _ Hrun) as (Hfind & Hsame).
    now rewrite review_findOne_run, Hfind, Hsame.
  - intros id_ actor removed db' Hrun.
    rewrite review_remove_run in Hrun.
    destruct (MemPrisma.findReview db (ReviewById id_)) as [r|]; [|discriminate].
    destruct (userId r =? actor); [|discriminate].
    rewrite review_findOne_run, (@review_delete_read_back _ _ _ _ Hrun).
    eexists. split; [reflexivity|]. intros _. reflexivity.
Qed.

(** The theorem on the demo stores: Alice's first review of the album, her
    update of it and Bob's removal of his. *)
Lemma review_findOne_reads_back_witness :
  (exists payload db',
      ReviewsService.create MemPrisma.client 1
        {| cr_albumId := 1; cr_rating := 5; cr_comment := None |} Demo.albumDb
      = (Fulfilled payload, db')
      /\ review_id (review payload) = 1
      /\ ReviewsQueries.findOne MemQueries.queries 1 db' = (Fulfilled payload, db'))
  /\ (exists payload db',
         ReviewsService.update MemPrisma.client 1 1
           {| up_rating := Some 2; up_comment := None |} Demo.reviewedDb
         = (Fulfilled payload, db')
         /\ ReviewsQueries.findOne MemQueries.queries 1 db' = (Fulfilled payload, db'))
  /\ (exists db',
         ReviewsService.remove MemPrisma.client 2 2 Demo.reviewedDb
         = (Fulfilled Demo.bobReview, db')
         /\ fst (ReviewsQueries.findOne MemQueries.queries 2 db')
            = Rejected (NotFoundException "Review with ID 2 not found")).
Proof.
  split; [|split].
  - destruct (review_findOne_reads_back Demo.albumDb) as (_ & _ & Hcreate & _).
    destruct (ReviewsService.create MemPrisma.client 1
                {| cr_albumId := 1; cr_rating := 5; cr_comment := None |} Demo.albumDb)
      as [[payload|e] db'] eqn:Hrun; [|vm_compute in Hrun; discriminate Hrun].
    exists payload, db'. split; [reflexivity|].
    assert (Hid : review_id (review payload) = 1).
    { vm_compute in Hrun. injection Hrun as <- _. reflexivity. }
    split; [exact Hid|]. rewrite <- Hid.
    apply (Hcreate 1 {| cr_albumId := 1; cr_rating := 5; cr_comment := None |});
      [|exact Hrun].
    split; simpl; constructor.
  - destruct (review_findOne_reads_back Demo.reviewedDb) as (_ & _ & _ & Hupdate & _).
    destruct (ReviewsService.update MemPrisma.client 1 1
                {| up_rating := Some 2; up_comment := None |} Demo.reviewedDb)
      as [[payload|e] db'] eqn:Hrun; [|vm_compute in Hrun; discriminate Hrun].
    exists payload, db'. split; [reflexivity|].
    exact (Hupdate 1 1 _ payload db' Hrun).
  - destruct (review_findOne_reads_back Demo.reviewedDb) as (_ & _ & _ & _ & Hremove).
    destruct (ReviewsService.remove MemPrisma.client 2 2 Demo.reviewedDb)
      as [[removed|e] db'] eqn:Hrun; [|vm_compute in Hrun; discriminate Hrun].
    assert (Hrow : removed = Demo.bobReview).
    { vm_compute in Hrun. injection Hrun as <- _. reflexivity. }
    subst removed. exists db'. split; [reflexivity|].
    destruct (Hremove 2 2 Demo.bobReview db' Hrun) as (message & Hgone & Hmessage).
    rewrite Hgone, Hmessage; [reflexivity|].
    unfold isSafeInteger. simpl. lia.
Defined.

(** ** Consecutive pages *)

Section Tiling.

Import MemPrisma.

Lemma firstn_plus {A} (a b : nat) (l : list A) :
  firstn (a + b) l = (firstn a l ++ firstn b (skipn a l))%list.
Proof.
  revert l. induction a as [|a IH]; intros l; [reflexivity|].
  destruct l as [|x l]; simpl; [now rewrite firstn_nil|].
  now rewrite IH.
Qed.

Lemma skipn_plus {A} (a b : nat) (l : list A) :
  skipn (a + b) l = skipn b (skipn a l).
Proof.
  revert l. induction a as [|a IH]; intros l; [reflexivity|].
  destruct l as [|x l]; simpl; [now rewrite skipn_nil|]. apply IH.
Qed.

Lemma slice_length {A} (skip_ take_ : nat) (l : list A) :
  List.length (firstn take_ (skipn skip_ l)) = Nat.min take_ (List.length l - skip_).
Proof. now rewrite length_firstn, length_skipn. Qed.

(** A listing [L] of the service is the page of some filter, or is refused
    for every [skip] and [take]. *)
Lemma listing_cases (db : Db) (L : nat -> nat -> Async Db ReviewPage) :
  L = ReviewsService.findAll client
  \/ (exists albumId_, L = ReviewsService.findByAlbumId client albumId_)
  \/ (exists userId_, L = ReviewsService.findByUserId client userId_) ->
  (exists where_, forall skip_ take_,
        L skip_ take_ db = ReviewsService.page client where_ skip_ take_ db)
  \/ (forall skip_ take_, exists e, L skip_ take_ db = (Rejected e, db)).
Proof.
  intros [-> | [[albumId_ ->] | [userId_ ->]]].
  - left. eexists. intros skip_ take_. reflexivity.
  - unfold ReviewsService.findByAlbumId, bind, throw. simpl. unfold album_findUnique.
    destruct (findAlbum db (AlbumById albumId_)).
    + left. eexists. intros skip_ take_. reflexivity.
    + right. intros _ _. eexists. reflexivity.
  - unfold ReviewsService.findByUserId, bind, throw. simpl. unfold user_findUnique.
    destruct (findUser db userId_).
    + left. eexists. intros skip_ take_. reflexivity.
    + right. intros _ _. eexists. reflexivity.
Qed.

End Tiling.

(** X17.  Consecutive pages tile the listing.  For [L] one of [findAll],
    [findByAlbumId] of an album and [findByUserId] of a user, and a page [pg]
    that [L] returned for ([skip], [take]):
    - the page has [min take (total - skip)] items;
    - the page that follows, for ([skip + take], [more]), is returned too, and
      the items of [pg] followed by its items are the items of the page for
      ([skip], [take + more]);
    - [hasMore] is false exactly when the page that follows is empty, for
      every positive [more]. *)
Theorem review_pages_tile :
  forall (db : MemPrisma.Db) (L : nat -> nat -> Async MemPrisma.Db ReviewPage)
         (skip_ take_ : nat) (pg : ReviewPage) (db1 : MemPrisma.Db),
    L = ReviewsService.findAll MemPrisma.client
    \/ (exists albumId_, L = ReviewsService.findByAlbumId MemPrisma.client albumId_)
    \/ (exists userId_, L = ReviewsService.findByUserId MemPrisma.client userId_) ->
    L skip_ take_ db = (Fulfilled pg, db1) ->
    List.length (reviews pg) = Nat.min take_ (total (meta pg) - skip_)
    /\ forall more,
         exists next both,
           L (skip_ + take_)%nat more db = (Fulfilled next, db)
           /\ L skip_ (take_ + more)%nat db = (Fulfilled both, db)
           /\ reviews both = (reviews pg ++ reviews next)%list
           /\ total (meta next) = total (meta pg)
           /\ ((0 < more)%nat -> (hasMore (meta pg) = false <-> reviews next = [])).
Proof.
  intros db L skip_ take_ pg db1 Hlisting Hrun.
  destruct (listing_cases db Hlisting) as [[where_ Hpage] | Hrefused].
  2: { destruct (Hrefused skip_ take_) as [e He]. rewrite He in Hrun. discriminate. }
  rewrite Hpage, page_run in Hrun. injection Hrun as <- <-.
  set (rows := MemPrisma.orderByCreatedAtDesc (MemPrisma.selectReviews db where_)).
  assert (Hcount : List.length rows
                   = List.length (MemPrisma.selectReviews db where_)).
  { apply Permutation_length, orderByCreatedAtDesc_perm. }
  cbn [reviews meta total hasMore]. split.
  - rewrite <- Hcount, length_map. apply slice_length.
  - intros more. rewrite !Hpage, !page_run. fold rows.
    eexists. eexists. split; [reflexivity|]. split; [reflexivity|].
    cbn [reviews meta total hasMore].
    split; [now rewrite firstn_plus, map_app, <- skipn_plus|].
    split; [reflexivity|].
    intros Hmore. rewrite <- Hcount, Nat.ltb_ge. split.
    + intros Hend. rewrite skipn_all2; [|exact Hend]. now rewrite firstn_nil.
    + intros Hempty. apply (f_equal (@List.length _)) in Hempty.
      rewrite length_map, slice_length in Hempty. simpl in Hempty. lia.
Qed.

(** The theorem on the two reviews of album 1 of the demo store, one by one. *)
Lemma review_pages_tile_witness :
  exists pg next,
    ReviewsService.findByAlbumId MemPrisma.client 1 0 1 Demo.reviewedDb
    = (Fulfilled pg, Demo.reviewedDb)
    /\ ReviewsService.findByAlbumId MemPrisma.client 1 1 1 Demo.reviewedDb
       = (Fulfilled next, Demo.reviewedDb)
    /\ List.length (reviews pg) = 1%nat
    /\ map review (reviews pg ++ reviews next)%list
       = [Demo.bobReview; Demo.aliceReview].
Proof.
  destruct (ReviewsService.findByAlbumId MemPrisma.client 1 0 1 Demo.reviewedDb)
    as [[pg|e] db1] eqn:Hrun; [|vm_compute in Hrun; discriminate Hrun].
  assert (Hdb : db1 = Demo.reviewedDb).
  { vm_compute in Hrun. injection Hrun as _ <-. reflexivity. }
  subst db1.
  destruct (@review_pages_tile Demo.reviewedDb
              (ReviewsService.findByAlbumId MemPrisma.client 1) 0 1 pg
              Demo.reviewedDb (or_intror (or_introl (ex_intro _ 1 eq_refl))) Hrun)
    as [Hlength Hnext].
  destruct (Hnext 1%nat) as (next & both & Hrun2 & Hboth & Hitems & _ & _).
  exists pg, next. split; [reflexivity|]. split; [exact Hrun2|].
  split.
  - rewrite Hlength. vm_compute in Hrun. injection Hrun as <-. reflexivity.
  - rewrite <- Hitems. vm_compute in Hboth. injection Hboth as <-. reflexivity.
Defined.

(** ** The listings as the controller calls them *)

Lemma orDefault_positive (value : option nat) (default : nat) :
  (0 < default)%nat -> (0 < ReviewsController.orDefault value default)%nat.
Proof.
  intros Hpos. destruct value as [[|n]|]; simpl; lia.
Qed.

Lemma orDefault_zero (value : option nat) :
  ReviewsController.orDefault value 0 = match value with Some n => n | None => 0%nat end.
Proof. destruct value as [[|n]|]; reflexivity. Qed.

(** X18.  The listings of the reviews controller, for query parameters that
    are absent or natural numbers.  For [C] one of the controller's [findAll],
    [findByAlbumId] of an album and [findByUserId] of a user, and a page [pg]
    that [C] returned: [skip] is the parameter, 0 when absent; [take] is the
    parameter when it is positive and 10 when it is absent or 0, so a request
    for zero items is served ten; and the page is empty only when [skip]
    reaches the total. *)
Theorem review_listing_defaults :
  forall (db : MemPrisma.Db)
         (C : option nat -> option nat -> Async MemPrisma.Db ReviewPage)
         (skip_ take_ : option nat) (pg : ReviewPage) (db1 : MemPrisma.Db),
    C = ReviewsController.findAll MemPrisma.client
    \/ (exists albumId_, C = ReviewsController.findByAlbumId MemPrisma.client albumId_)
    \/ (exists userId_, C = ReviewsController.findByUserId MemPrisma.client userId_) ->
    C skip_ take_ db = (Fulfilled pg, db1) ->
    skip (meta pg) = match skip_ with Some n => n | None => 0%nat end
    /\ (take_ = None \/ take_ = Some 0%nat -> take (meta pg) = 10%nat)
    /\ (forall n, take_ = Some (S n) -> take (meta pg) = S n)
    /\ (reviews pg = [] <-> (total (meta pg) <= skip (meta pg))%nat)
    /\ List.length (reviews pg)
       = Nat.min (take (meta pg)) (total (meta pg) - skip (meta pg)).
Proof.
  intros db C skip_ take_ pg db1 Hlisting Hrun.
  assert (Hservice :
    exists L,
      (L = ReviewsService.findAll MemPrisma.client
       \/ (exists albumId_, L = ReviewsService.findByAlbumId MemPrisma.client albumId_)
       \/ (exists userId_, L = ReviewsService.findByUserId MemPrisma.client userId_))
      /\ C skip_ take_ db
         = L (ReviewsController.orDefault skip_ 0) (ReviewsController.orDefault take_ 10)
             db).
  { destruct Hlisting as [-> | [[albumId_ ->] | [userId_ ->]]].
    - eexists. split; [left; reflexivity|reflexivity].
    - eexists. split; [right; left; eexists; reflexivity|reflexivity].
    - eexists. split; [right; right; eexists; reflexivity|reflexivity]. }
  destruct Hservice as (L & HL & Hcall). rewrite Hcall in Hrun. clear Hcall.
  destruct (listing_cases db HL) as [[where_ Hpage] | Hrefused].
  2: { destruct (Hrefused (ReviewsController.orDefault skip_ 0)
                   (ReviewsController.orDefault take_ 10)) as [e He].
       rewrite He in Hrun. discriminate. }
  rewrite Hpage, page_run in Hrun. injection Hrun as <- <-.
  cbn [reviews meta total skip take].
  pose proof (orDefault_positive take_ (default:=10) ltac:(lia)) as Htake.
  assert (Hlength :
    List.length
      (map (MemPrisma.withRelations db)
         (firstn (ReviewsController.orDefault take_ 10)
            (skipn (ReviewsController.orDefault skip_ 0)
               (MemPrisma.orderByCreatedAtDesc (MemPrisma.selectReviews db where_)))))
    = Nat.min (ReviewsController.orDefault take_ 10)
        (List.length (MemPrisma.selectReviews db where_)
         - ReviewsController.orDefault skip_ 0)).
  { rewrite length_map, slice_length.
    now rewrite (Permutation_length (orderByCreatedAtDesc_perm _)). }
  split; [apply orDefault_zero|].
  split; [intros [-> | ->]; reflexivity|].
  split; [intros n ->; reflexivity|].
  split; [|exact Hlength].
  split.
  - intros Hempty. rewrite Hempty in Hlength. simpl in Hlength. lia.
  - intros Hend. apply length_zero_iff_nil. rewrite Hlength. lia.
Qed.

(** The theorem on the reviews of album 1 of the demo store, asked with
    [take=0]: both are served. *)
Lemma review_listing_defaults_witness :
  exists pg,
    ReviewsController.findByAlbumId MemPrisma.client 1 None (Some 0%nat)
      Demo.reviewedDb
    = (Fulfilled pg, Demo.reviewedDb)
    /\ take (meta pg) = 10%nat
    /\ List.length (reviews pg) = 2%nat.
Proof.
  destruct (ReviewsController.findByAlbumId MemPrisma.client 1 None (Some 0%nat)
              Demo.reviewedDb)
    as [[pg|e] db1] eqn:Hrun; [|vm_compute in Hrun; discriminate Hrun].
  assert (Hdb : db1 = Demo.reviewedDb).
  { vm_compute in Hrun. injection Hrun as _ <-. reflexivity. }
  subst db1. exists pg. split; [reflexivity|].
  destruct (@review_listing_defaults Demo.reviewedDb
              (ReviewsController.findByAlbumId MemPrisma.client 1) None (Some 0%nat)
              pg Demo.reviewedDb (or_intror (or_introl (ex_intro _ 1 eq_refl))) Hrun)
    as (_ & Hten & _ & _ & Hlength).
  split; [apply Hten; now right|].
  rewrite Hlength, (Hten (or_intror eq_refl)).
  vm_compute in Hrun. injection Hrun as <-. reflexivity.
Defined.

(** ** The album route by external id *)

(** X19.  The controller's [findByExternalId] rejects with NotFound only.
    What the service returns it returns; a NotFound of the service is raised
    as it is; every other rejection of the service (a Conflict, a catalog or
    database error) is replaced by the NotFound "Album with ID <externalId>
    not found".  The world is left as the service left it: what the service
    wrote before it failed stays written. *)
Theorem findByExternalId_only_not_found :
  forall (D R : Type) (prisma : PrismaClient D) (more : PrismaQueries D) (env : Env R)
         (externalId : string) (w : World D R),
    let service :=
      AlbumsQueries.getAlbumDetailsByExternalId prisma more env externalId w in
    let controller :=
      AlbumsController.findByExternalId prisma more env externalId w in
    snd controller = snd service
    /\ (forall found, fst service = Fulfilled found -> fst controller = Fulfilled found)
    /\ (forall error,
           fst service = Rejected error ->
           fst controller
           = Rejected
               (if instanceofNotFoundException error then error
                else NotFoundException ("Album with ID " ++ externalId ++ " not found")))
    /\ (forall error,
           fst controller = Rejected error -> instanceofNotFoundException error = true).
Proof.
  intros D R prisma more env externalId w service controller.
  subst controller. unfold AlbumsController.findByExternalId, try_catch.
  fold service. destruct service as [[found|e] w1]; simpl.
  - split; [reflexivity|]. split; [intros ? H; exact H|].
    split; intros ? H; discriminate H.
  - destruct (instanceofNotFoundException e) eqn:Hkind; unfold throw; simpl.
    + split; [reflexivity|]. split; [intros ? H; discriminate H|].
      split; intros ? H; injection H as <-; [now rewrite Hkind|exact Hkind].
    + split; [reflexivity|]. split; [intros ? H; discriminate H|].
      split; intros ? H; injection H as <-; [now rewrite Hkind|reflexivity].
Qed.

(** The theorem on a database whose connection drops at the inserts: the
    service raises the connection error, the controller NotFound. *)
Lemma findByExternalId_only_not_found_witness :
  fst (AlbumsQueries.getAlbumDetailsByExternalId Demo.failingClient MemQueries.queries
         Demo.catalog "album123" (Demo.world Demo.emptyDb))
  = Rejected (Error "Can't reach database server" (Some "P1001"))
  /\ fst (AlbumsController.findByExternalId Demo.failingClient MemQueries.queries
            Demo.catalog "album123" (Demo.world Demo.emptyDb))
     = Rejected (NotFoundException "Album with ID album123 not found").
Proof.
  assert (Hservice :
    fst (AlbumsQueries.getAlbumDetailsByExternalId Demo.failingClient
           MemQueries.queries Demo.catalog "album123" (Demo.world Demo.emptyDb))
    = Rejected (Error "Can't reach database server" (Some "P1001"))).
  { vm_compute. reflexivity. }
  split; [exact Hservice|].
  destruct (findByExternalId_only_not_found Demo.failingClient MemQueries.queries
              Demo.catalog "album123" (Demo.world Demo.emptyDb))
    as (_ & _ & Hwrapped & _).
  rewrite (Hwrapped _ Hservice). reflexivity.
Defined.

(** ** The search of albums and its [_uniqueId]s *)

Section UniqueIds.

Lemma string_append_assoc (a b c : string) : ((a ++ b) ++ c = a ++ (b ++ c))%string.
Proof. induction a as [|x a IH]; simpl; [reflexivity|now rewrite IH]. Qed.

Lemma list_ascii_of_append (a b : string) :
  list_ascii_of_string (a ++ b)
  = (list_ascii_of_string a ++ list_ascii_of_string b)%list.
Proof. induction a as [|x a IH]; simpl; [reflexivity|now rewrite IH]. Qed.

(** What follows the last [u] of a list. *)
Lemma after_last {A} (u : A) (l1 l2 d1 d2 : list A) :
  (l1 ++ u :: d1 = l2 ++ u :: d2)%list -> ~ In u d1 -> ~ In u d2 -> d1 = d2.
Proof.
  revert l2. induction l1 as [|x l1 IH]; intros [|y l2] Heq H1 H2; simpl in Heq.
  - now injection Heq.
  - injection Heq as _ Heq. elim H1. rewrite Heq. apply in_elt.
  - injection Heq as _ Heq. elim H2. rewrite <- Heq. apply in_elt.
  - injection Heq as _ Heq. exact (IH l2 Heq H1 H2).
Qed.

Lemma digits_no_underscore (d : Decimal.uint) :
  ~ In "_"%char (list_ascii_of_string (NilEmpty.string_of_uint d)).
Proof.
  induction d; simpl; try tauto; intros [H|H]; try discriminate H; now apply IHd.
Qed.

Lemma showZ_no_underscore (z : Z) : ~ In "_"%char (list_ascii_of_string (showZ z)).
Proof.
  unfold showZ, NilZero.string_of_int, NilZero.string_of_uint.
  destruct (Z.to_int z) as [d|d].
  - destruct d; try apply digits_no_underscore.
    simpl. intros [H|[]]; discriminate H.
  - simpl. intros [H|H]; [discriminate H|]. revert H.
    destruct d; try apply digits_no_underscore.
    simpl. intros [H|[]]; discriminate H.
Qed.

Lemma showZ_inj (a b : Z) : showZ a = showZ b -> a = b.
Proof.
  unfold showZ. intros Heq.
  assert (Hnonnil : forall z, Z.to_int z <> Decimal.Pos Decimal.Nil
                              /\ Z.to_int z <> Decimal.Neg Decimal.Nil).
  { intros [|p|p]; simpl; split; try discriminate;
      intros H; injection H as H;
      exact (DecimalPos.Unsigned.to_uint_nonnil p H). }
  destruct (Hnonnil a) as [Ha1 Ha2]. destruct (Hnonnil b) as [Hb1 Hb2].
  pose proof (NilZero.isi _ Ha1 Ha2) as Hia. pose proof (NilZero.isi _ Hb1 Hb2) as Hib.
  rewrite Heq, Hib in Hia. injection Hia as Hia.
  rewrite <- (DecimalZ.of_to a), <- (DecimalZ.of_to b). now rewrite Hia.
Qed.

(** The position is read off the end of a [_uniqueId]. *)
Lemma uniqueId_position (a b : AlbumSearchRecord) (p q : Z) :
  AlbumsQueries.uniqueId a p = AlbumsQueries.uniqueId b q -> p = q.
Proof.
  unfold AlbumsQueries.uniqueId. intros Heq.
  rewrite <- !string_append_assoc in Heq.
  apply (f_equal list_ascii_of_string) in Heq.
  rewrite !(list_ascii_of_append _ (showZ _)) in Heq.
  rewrite !(list_ascii_of_append _ "_") in Heq. simpl in Heq.
  rewrite <- !app_assoc in Heq. simpl in Heq.
  apply after_last in Heq; try apply showZ_no_underscore.
  apply showZ_inj.
  rewrite <- (string_of_list_ascii_of_string (showZ p)),
    <- (string_of_list_ascii_of_string (showZ q)).
  now rewrite Heq.
Qed.

Lemma withUniqueIds_items (offset_ index : Z) (albums : list AlbumSearchRecord) :
  map item (AlbumsQueries.withUniqueIds offset_ index albums) = albums.
Proof.
  revert index. induction albums as [|a albums IH]; intros index; simpl;
    [reflexivity|now rewrite IH].
Qed.

Lemma withUniqueIds_In (offset_ index : Z) (albums : list AlbumSearchRecord)
    (x : AlbumSearchItem) :
  In x (AlbumsQueries.withUniqueIds offset_ index albums) ->
  exists n,
    0 <= n < Z.of_nat (List.length albums)
    /\ _uniqueId x = AlbumsQueries.uniqueId (item x) (offset_ + index + n).
Proof.
  revert index. induction albums as [|a albums IH]; intros index; simpl;
    [intros []|].
  intros [<- | Hin].
  - exists 0. split; [lia|]. simpl. now rewrite Z.add_0_r.
  - destruct (IH _ Hin) as (n & Hn & Hid). exists (n + 1). split; [lia|].
    rewrite Hid. f_equal. lia.
Qed.

Lemma withUniqueIds_NoDup (offset_ index : Z) (albums : list AlbumSearchRecord) :
  NoDup (map _uniqueId (AlbumsQueries.withUniqueIds offset_ index albums)).
Proof.
  revert index. induction albums as [|a albums IH]; intros index; simpl;
    constructor; [|apply IH].
  intros Hin. apply in_map_iff in Hin. destruct Hin as (x & Hid & Hin).
  destruct (withUniqueIds_In _ _ _ _ Hin) as (n & Hn & Hx).
  rewrite Hx in Hid. apply uniqueId_position in Hid. lia.
Qed.

End UniqueIds.

(** X20.  The [_uniqueId]s of a search, for a page, a limit and positions
    [offset], ..., [offset + n] that are safe integers, [offset] being
    [(page - 1) * limit] and [n] the number of items returned.  The items
    [AlbumsService.searchAlbums] returns are the records of the catalog
    search at [offset], in order, each with a [_uniqueId]; no two items of a
    result have the same [_uniqueId], whatever their external ids and types;
    and for a limit that is not negative, no [_uniqueId] of one page is a
    [_uniqueId] of another page of the same limit. *)
Theorem searchAlbums_unique_ids :
  forall (D R : Type) (env : Env R) (query : string) (page_ limit_ : Z)
         (w w1 : World D R) (items : list AlbumSearchItem),
    let offset_ := (page_ - 1) * limit_ in
    AlbumsQueries.searchAlbums env query page_ limit_ w = (Fulfilled items, w1) ->
    isSafeInteger page_ ->
    isSafeInteger limit_ ->
    isSafeInteger offset_ ->
    isSafeInteger (offset_ + Z.of_nat (List.length items)) ->
    MusicApiService.searchAlbums env query limit_ offset_ w
    = (Fulfilled (map item items), w1)
    /\ NoDup (map _uniqueId items)
    /\ (0 <= limit_ ->
        forall query2 page2 (w' w2 : World D R) items2,
          page2 <> page_ ->
          isSafeInteger page2 ->
          isSafeInteger ((page2 - 1) * limit_) ->
          isSafeInteger ((page2 - 1) * limit_ + Z.of_nat (List.length items2)) ->
          AlbumsQueries.searchAlbums env query2 page2 limit_ w' = (Fulfilled items2, w2) ->
          forall x y, In x items -> In y items2 -> _uniqueId x <> _uniqueId y).
Proof.
  assert (Hrun : forall (D R : Type) (env : Env R) query page_ limit_
                        (w w1 : World D R) items,
             AlbumsQueries.searchAlbums env query page_ limit_ w = (Fulfilled items, w1) ->
             exists records,
               MusicApiService.searchAlbums env query limit_ ((page_ - 1) * limit_) w
               = (Fulfilled records, w1)
               /\ items = AlbumsQueries.withUniqueIds ((page_ - 1) * limit_) 0 records).
  { intros D R env query page_ limit_ w w1 items.
    unfold AlbumsQueries.searchAlbums, bind, ret. cbv zeta.
    destruct (MusicApiService.searchAlbums env query limit_ ((page_ - 1) * limit_) w)
      as [[records|e] w0]; [|discriminate].
    intros Heq. injection Heq as <- <-. now exists records. }
  intros D R env query page_ limit_ w w1 items offset_ Hitems _ _ _ _.
  subst offset_.
  destruct (Hrun _ _ _ _ _ _ _ _ _ Hitems) as (records & Hsearch & ->).
  split; [now rewrite withUniqueIds_items|].
  split; [apply withUniqueIds_NoDup|].
  intros Hlimit query2 page2 w' w2 items2 Hpage _ _ _ Hitems2 x y Hx Hy Heq.
  destruct (Hrun _ _ _ _ _ _ _ _ _ Hitems2) as (records2 & Hsearch2 & ->).
  destruct (searchAlbums_fulfilled_inv _ _ _ _ _ Hsearch) as [raw ->].
  destruct (searchAlbums_fulfilled_inv _ _ _ _ _ Hsearch2) as [raw2 ->].
  destruct (withUniqueIds_In _ _ _ _ Hx) as (i & Hi & Hidx).
  destruct (withUniqueIds_In _ _ _ _ Hy) as (j & Hj & Hidy).
  rewrite Hidx, Hidy in Heq. apply uniqueId_position in Heq.
  unfold MusicApiService.formattedResults in Hi, Hj. rewrite length_map in Hi, Hj.
  pose proof (slice0_length (MusicApiService.filteredItems raw) Hlimit) as Hlen.
  pose proof (slice0_length (MusicApiService.filteredItems raw2) Hlimit) as Hlen2.
  assert (Hdiff : (page_ - page2) * limit_ = j - i) by lia.
  assert (Hbound : - limit_ < j - i < limit_) by lia.
  nia.
Qed.

(** The theorem on the first two pages of three of the demo catalog. *)
Lemma searchAlbums_unique_ids_witness :
  exists items items2 w1 w2,
    AlbumsQueries.searchAlbums Demo.catalog "dark side" 1 3 (Demo.world Demo.emptyDb)
    = (Fulfilled items, w1)
    /\ AlbumsQueries.searchAlbums Demo.catalog "dark side" 2 3 w1
       = (Fulfilled items2, w2)
    /\ map _uniqueId items = ["album123_album_0"; "single2_ep_1"; "single0_ep_2"]
    /\ NoDup (map _uniqueId items)
    /\ forall x y, In x items -> In y items2 -> _uniqueId x <> _uniqueId y.
Proof.
  destruct (AlbumsQueries.searchAlbums Demo.catalog "dark side" 1 3
              (Demo.world Demo.emptyDb))
    as [[items|e] w1] eqn:Hrun; [|vm_compute in Hrun; discriminate Hrun].
  destruct (AlbumsQueries.searchAlbums Demo.catalog "dark side" 2 3 w1)
    as [[items2|e] w2] eqn:Hrun2.
  2: { vm_compute in Hrun. injection Hrun as _ <-.
       vm_compute in Hrun2. discriminate Hrun2. }
  exists items, items2, w1, w2. split; [reflexivity|]. split; [exact Hrun2|].
  assert (Hlength : List.length items = 3%nat /\ List.length items2 = 3%nat).
  { pose proof Hrun as Hfirst. pose proof Hrun2 as Hsecond.
    vm_compute in Hfirst. injection Hfirst as <- <-.
    vm_compute in Hsecond. injection Hsecond as <- _. split; reflexivity. }
  destruct Hlength as [Hthree Hthree2].
  destruct (@searchAlbums_unique_ids _ _ _ _ _ _ _ _ _ Hrun) as (_ & Hnodup & Hpages);
    try (rewrite ?Hthree; unfold isSafeInteger; simpl; lia).
  split.
  { vm_compute in Hrun. injection Hrun as <- _. reflexivity. }
  split; [exact Hnodup|].
  apply (Hpages ltac:(lia) "dark side" 2 w1 w2 items2);
    try (rewrite ?Hthree2; unfold isSafeInteger; simpl; lia).
  exact Hrun2.
Defined.

(** ** The failures of the artist resolution *)

Lemma getArtistDetails_rejection (D R : Type) (env : Env R) (externalId : string)
    (w w1 : World D R) (e : Exception) :
  MusicApiService.getArtistDetails env externalId w = (Rejected e, w1) ->
  instanceofHttpException e = false
  /\ (forall token w0,
         MusicApiService.getAccessToken env w = (Fulfilled token, w0) ->
         e = Error "Failed to get artist details" None).
Proof.
  unfold MusicApiService.getArtistDetails, bind, MusicApiService.request, ret.
  destruct (MusicApiService.getAccessToken env w) as [[token|e0] w0] eqn:Htoken.
  - destruct (get_artist env _ token (remote w0)) as [[a|status] r'];
      [discriminate|].
    intros Heq. injection Heq as <- _. split; [reflexivity|]. intros; reflexivity.
  - intros Heq. injection Heq as <- _.
    split; [exact (proj1 (getAccessToken_rejection env w Htoken))|].
    intros token w0' Hother. discriminate Hother.
Qed.

(** X21.  The failures of the artist resolution, over the in-memory store and
    any catalog.  [getArtistDetailsByExternalId] fails only when the store has
    no row for the external id and the catalog client's [getArtistDetails]
    fails, and with the same error; that error is never an [HttpException],
    so an artist the catalog does not know is not reported as NotFound: once
    a token is obtained, every refusal of the catalog, a 404 included, is the
    error "Failed to get artist details".  The store is unchanged by a
    failed resolution. *)
Theorem artist_resolution_failures :
  forall (R : Type) (env : Env R) (externalId : string)
         (w w1 : World MemPrisma.Db R) (e : Exception),
    ArtistsService.getArtistDetailsByExternalId MemPrisma.client env externalId w
    = (Rejected e, w1) ->
    MemPrisma.findArtist (store w) (ArtistByExternalId externalId) = None
    /\ MusicApiService.getArtistDetails env externalId w = (Rejected e, w1)
    /\ instanceofHttpException e = false
    /\ instanceofNotFoundException e = false
    /\ (forall token w0,
           MusicApiService.getAccessToken env w = (Fulfilled token, w0) ->
           e = Error "Failed to get artist details" None)
    /\ store w1 = store w.
Proof.
  intros R env externalId w w1 e Hrun.
  destruct (MemPrisma.findArtist (store w) (ArtistByExternalId externalId))
    as [a|] eqn:Hfind.
  { rewrite (resolve_hit env externalId w Hfind) in Hrun. discriminate. }
  rewrite (resolve_miss env externalId w Hfind) in Hrun.
  pose proof (getArtistDetails_store env externalId w) as Hstore.
  destruct (MusicApiService.getArtistDetails env externalId w)
    as [[artistDetails|e'] w'] eqn:Hdetails.
  - destruct (artist_create_cases
                {| ca_externalId := a_externalId artistDetails;
                   ca_name := a_name artistDetails;
                   ca_imageUrl := a_imageUrl artistDetails |} w')
      as (p & w2 & Hcreate & _).
    rewrite Hcreate in Hrun. discriminate.
  - injection Hrun as <- <-. simpl in Hstore.
    destruct (getArtistDetails_rejection env externalId w Hdetails) as [Hhttp Hmessage].
    split; [reflexivity|]. split; [reflexivity|]. split; [exact Hhttp|].
    split; [destruct e'; try discriminate Hhttp; reflexivity|].
    split; [exact Hmessage|exact Hstore].
Qed.

(** The theorem at an artist the demo catalog answers 404 for. *)
Lemma artist_resolution_failures_witness :
  exists w1,
    ArtistsService.getArtistDetailsByExternalId MemPrisma.client Demo.catalog
      "nobody" (Demo.world Demo.emptyDb)
    = (Rejected (Error "Failed to get artist details" None), w1)
    /\ store w1 = Demo.emptyDb.
Proof.
  destruct (ArtistsService.getArtistDetailsByExternalId MemPrisma.client Demo.catalog
              "nobody" (Demo.world Demo.emptyDb)) as [[p|e] w1] eqn:Hrun;
    [vm_compute in Hrun; discriminate Hrun|].
  destruct (artist_resolution_failures Demo.catalog "nobody"
              (Demo.world Demo.emptyDb) Hrun) as (_ & _ & _ & _ & Hmessage & Hstore).
  exists w1. split; [|exact Hstore].
  assert (Htoken : exists token w0,
             MusicApiService.getAccessToken Demo.catalog (Demo.world Demo.emptyDb)
             = (Fulfilled token, w0)).
  { eexists. eexists. vm_compute. reflexivity. }
  destruct Htoken as (token & w0 & Htoken).
  now rewrite (Hmessage token w0 Htoken).
Defined.
